(** * Lobby API of boardgame.io (src/server/api.ts): rooms, seats, teams

    A shallow embedding of the lobby request handlers and the properties
    of the room lifecycle and of team formation.

    Modelling conventions.
    - JavaScript values that travel in request bodies and in the caller
      defined payloads ([data], [setupData]) are values of [jsval], the
      values a JSON body parses to: no functions, no cycles. Numbers are
      the integers that a double holds; fractional numbers, the
      infinities and the negative zero are not represented.
    - A thrown [TypeError] (reading a property of [undefined], calling
      something that is not a function, writing a property of a primitive
      in strict mode, converting to a string an object whose own
      [toString] is not a function) is [None] in the pure helpers and the
      uncaught error [TypeError] in a handler.
    - The metadata store keeps values: [fetch] hands out the record that
      the last [setMetadata] stored, and the mutations a handler performs
      on the fetched record reach the store through [setMetadata] only.
      The initial game state computed by the rules engine is not part of
      the stored record here.
    - The [players] object of a room has the own keys "0" .. "k-1" that
      [CreateGame] gave it, in that order; it is the list of its records,
      looked up through the decimal rendering of the position. A key that
      is none of them finds the member of [Object.prototype] of that name,
      when there is one.
    - The built-in objects are as the language defines them when a request
      arrives. A handler that goes on to assign to a member of
      [Object.prototype], or to delete from it, ends in [Beyond]: what the
      process does from there on, the answer to that request included, is
      outside this embedding.
    - The id and the credential generators of the lobby are functions of
      the number of draws made so far; [InitializeGame] is taken to
      return; the draw of [Math.random] is an argument of the handler that
      uses it. *)

From stdpp Require Import base option list strings pretty gmap.
From Stdlib Require Import ZArith Lia Ascii.

Open Scope string_scope.
Open Scope list_scope.
Open Scope nat_scope.
Set Warnings "-register-all".

(** ** JavaScript values *)

Inductive jsval : Type :=
| VUndefined
| VNull
| VBool (b : bool)
| VNaN
| VNum (n : Z)
| VStr (s : string)
| VArr (items : list jsval) (extra : list (string * jsval))
| VObj (props : list (string * jsval)).

Module JS.

(** Own properties of an object, in insertion order. *)
Fixpoint assoc_get (k : string) (l : list (string * jsval)) : option jsval :=
  match l with
  | [] => None
  | (k', v) :: r => if decide (k = k') then Some v else assoc_get k r
  end.

Fixpoint assoc_set (k : string) (v : jsval) (l : list (string * jsval))
  : list (string * jsval) :=
  match l with
  | [] => [(k, v)]
  | (k', v') :: r =>
      if decide (k = k') then (k, v) :: r else (k', v') :: assoc_set k v r
  end.

(** ToBoolean. *)
Definition truthy (v : jsval) : bool :=
  match v with
  | VUndefined | VNull | VNaN => false
  | VBool b => b
  | VNum n => negb (n =? 0)%Z
  | VStr s => negb (bool_decide (s = ""))
  | VArr _ _ | VObj _ => true
  end.

(** [a === b]. Two objects are equal when they are the same object; the
    operands compared by the handlers are a value parsed from the
    request and a stored one, which are never the same object. *)
Definition strict_eq (a b : jsval) : bool :=
  match a, b with
  | VUndefined, VUndefined => true
  | VNull, VNull => true
  | VBool x, VBool y => bool_decide (x = y)
  | VNum x, VNum y => (x =? y)%Z
  | VStr x, VStr y => bool_decide (x = y)
  | _, _ => false
  end.

Definition is_undefined (v : jsval) : bool :=
  match v with VUndefined => true | _ => false end.

Definition is_nullish (v : jsval) : bool :=
  match v with VUndefined | VNull => true | _ => false end.

Definition is_string (v : jsval) : bool :=
  match v with VStr _ => true | _ => false end.

Definition is_number (v : jsval) : bool :=
  match v with VNum _ | VNaN => true | _ => false end.

Definition join_with (sep : string) (l : list string) : string :=
  match l with
  | [] => ""
  | x :: r => fold_left (fun acc y => acc +:+ sep +:+ y) r x
  end.

(** The double nearest to a natural number, ties to the even mantissa.
    Numbers beyond the largest double are not represented. *)
Definition to_double (n : Z) : Z :=
  if (n <? 2 ^ 53)%Z then n
  else
    let e := (Z.log2 n - 52)%Z in
    let q := Z.shiftr n e in
    let r := (n - Z.shiftl q e)%Z in
    let half := Z.shiftl 1 (e - 1) in
    if (half <? r)%Z || ((r =? half)%Z && Z.odd q)
    then Z.shiftl (q + 1) e else Z.shiftl q e.

(** The decimal with the fewest significant digits that reads back as the
    double [n], the nearest to [n] when there are two: a number at or
    above [2 ^ 53] has 17 significant digits at most. *)
Definition shortest (n : Z) : Z :=
  let digits := String.length (pretty n) in
  let candidate (k : nat) : option Z :=
    let p := (10 ^ Z.of_nat (digits - k))%Z in
    let a := (n / p * p)%Z in
    let b := (a + p)%Z in
    match bool_decide (to_double a = n), bool_decide (to_double b = n) with
    | true, true => Some (if (n - a <=? b - n)%Z then a else b)
    | true, false => Some a
    | false, true => Some b
    | false, false => None
    end in
  default n (head (omap candidate (seq 1 17))).

Fixpoint strip_zeros (s : string) : string :=
  match s with
  | EmptyString => EmptyString
  | String a r =>
      let r' := strip_zeros r in
      if bool_decide (r' = EmptyString) && bool_decide (a = "0"%char)
      then EmptyString else String a r'
  end.

(** The digits of [v], in the exponent form from 22 digits on. *)
Definition exponent_form (v : Z) : string :=
  let text := pretty v in
  let n := String.length text in
  if n <=? 21 then text
  else match strip_zeros text with
       | String d EmptyString => String d EmptyString +:+ "e+" +:+ pretty (n - 1)
       | String d rest => String d ("." +:+ rest) +:+ "e+" +:+ pretty (n - 1)
       | EmptyString => text
       end.

(** Number::toString: all the digits of a number below [2 ^ 53], the
    shortest decimal that reads back as the number beyond
    ("18446744073709552000" for [2 ^ 64], "1e+21" for [10 ^ 21]). *)
Definition Number_toString (n : Z) : string :=
  let print (n : Z) :=
    if (n <? 2 ^ 53)%Z then pretty n else exponent_form (shortest n) in
  if (n <? 0)%Z then "-" +:+ print (- n)%Z else print n.

Arguments to_double : simpl never.
Arguments Number_toString : simpl never.

(** ToString, as the operand of a string concatenation, the argument of
    [parseInt] and the property key a value denotes. An object is
    converted by its [toString]: the inherited one unless the object has
    an own property of that name, which for a parsed value is never a
    function, and then the conversion throws. An array joins its
    elements. *)
Fixpoint to_string (v : jsval) : option string :=
  match v with
  | VUndefined => Some "undefined"
  | VNull => Some "null"
  | VBool true => Some "true"
  | VBool false => Some "false"
  | VNaN => Some "NaN"
  | VNum n => Some (Number_toString n)
  | VStr s => Some s
  | VArr items extra =>
      match assoc_get "toString" extra, assoc_get "join" extra with
      | Some _, _ => None
      | None, Some _ => Some "[object Array]"
      | None, None =>
          join_with "," <$>
          (fix elements (l : list jsval) : option (list string) :=
             match l with
             | [] => Some []
             | x :: l =>
                 match match x with
                       | VUndefined | VNull => Some ""
                       | _ => to_string x
                       end, elements l with
                 | Some text, Some texts => Some (text :: texts)
                 | _, _ => None
                 end
             end) items
      end
  | VObj props =>
      match assoc_get "toString" props with
      | Some _ => None
      | None => Some "[object Object]"
      end
  end.

(** The own named properties of an object or of an array; a primitive
    has none of the names the handlers use. *)
Definition own_props (v : jsval) : list (string * jsval) :=
  match v with
  | VObj props => props
  | VArr _ extra => extra
  | _ => []
  end.

Definition is_object (v : jsval) : bool :=
  match v with VObj _ | VArr _ _ => true | _ => false end.

Definition with_props (v : jsval) (props : list (string * jsval)) : jsval :=
  match v with
  | VObj _ => VObj props
  | VArr items _ => VArr items props
  | _ => v
  end.

(** [v.k] for the identifiers the handlers read; it throws on [undefined]
    and [null]. *)
Definition get_prop (v : jsval) (k : string) : option jsval :=
  if is_nullish v then None
  else Some (default VUndefined (assoc_get k (own_props v))).

(** [v.k = x]; the result is the updated object. In strict mode the
    assignment throws on a primitive as it does on [undefined]. *)
Definition set_prop (v : jsval) (k : string) (x : jsval) : option jsval :=
  if is_object v then Some (with_props v (assoc_set k x (own_props v)))
  else None.

(** [v.hasOwnProperty(k)]; an own property of that name hides the method,
    and calling it throws. *)
Definition has_own (v : jsval) (k : string) : option bool :=
  if is_nullish v then None
  else match assoc_get "hasOwnProperty" (own_props v) with
       | Some _ => None
       | None => Some (bool_decide (is_Some (assoc_get k (own_props v))))
       end.

Definition typeof (v : jsval) : string :=
  match v with
  | VUndefined => "undefined"
  | VBool _ => "boolean"
  | VNaN | VNum _ => "number"
  | VStr _ => "string"
  | VNull | VArr _ _ | VObj _ => "object"
  end.

(** The number of rounds of [for (let i = 0; i < v; i++)]. *)
Definition loop_count (v : jsval) : nat :=
  match v with VNum n => Z.to_nat n | _ => 0 end.

(** [a || b]. *)
Definition or_else (a b : jsval) : jsval := if truthy a then a else b.

End JS.

(** ** [parseInt] *)

Module ParseInt.

Definition is_space (a : ascii) : bool :=
  bool_decide (a ∈ [" "; "009"; "010"; "011"; "012"; "013"]%char).

Fixpoint skip_spaces (s : string) : string :=
  match s with
  | String a r => if is_space a then skip_spaces r else s
  | EmptyString => s
  end.

Definition digit_value (radix : Z) (a : ascii) : option Z :=
  let n := Z.of_nat (nat_of_ascii a) in
  let d :=
    if (48 <=? n)%Z && (n <=? 57)%Z then Some (n - 48)%Z
    else if (97 <=? n)%Z && (n <=? 122)%Z then Some (n - 87)%Z
    else if (65 <=? n)%Z && (n <=? 90)%Z then Some (n - 55)%Z
    else None in
  match d with
  | Some x => if (x <? radix)%Z then Some x else None
  | None => None
  end.

(** The value of the longest prefix of digits, [None] when it is empty. *)
Fixpoint digits (radix : Z) (s : string) (acc : option Z) : option Z :=
  match s with
  | String a r =>
      match digit_value radix a with
      | Some d => digits radix r (Some (default 0 acc * radix + d)%Z)
      | None => acc
      end
  | EmptyString => acc
  end.

Definition parse (s : string) : jsval :=
  let s := skip_spaces s in
  let '(neg, s) :=
    match s with
    | String "-" r => (true, r)
    | String "+" r => (false, r)
    | _ => (false, s)
    end in
  let '(radix, s) :=
    match s with
    | String "0" (String "x" r) => (16%Z, r)
    | String "0" (String "X" r) => (16%Z, r)
    | _ => (10%Z, s)
    end in
  match digits radix s None with
  | Some n => VNum (if neg then - JS.to_double n else JS.to_double n)%Z
  | None => VNaN
  end.

End ParseInt.

(** [parseInt(v)] converts its argument to a string first. *)
Definition parseInt (v : jsval) : option jsval :=
  ParseInt.parse <$> JS.to_string v.

(** ** Room records *)

Record PlayerMetadata := mkPlayer {
  id : nat;
  name : option jsval;
  credentials : option string;
  data : option jsval;
}.

Record GameMetadata := mkMetadata {
  gameName : string;
  unlisted : bool;
  players : list PlayerMetadata;
  setupData : option jsval;
  nextRoomID : option string;
}.

Record Team := mkTeam {
  teamID : string;
  playersID : list string;
}.

(** An absent property reads as [undefined]. *)
Definition opt_val (o : option jsval) : jsval := default VUndefined o.
Definition str_val (o : option string) : jsval :=
  match o with Some s => VStr s | None => VUndefined end.

Definition set_name (v : option jsval) (p : PlayerMetadata) : PlayerMetadata :=
  mkPlayer (id p) v (credentials p) (data p).
Definition set_credentials (v : option string) (p : PlayerMetadata) : PlayerMetadata :=
  mkPlayer (id p) (name p) v (data p).
Definition set_data (v : option jsval) (p : PlayerMetadata) : PlayerMetadata :=
  mkPlayer (id p) (name p) (credentials p) v.
Definition set_players (ps : list PlayerMetadata) (m : GameMetadata) : GameMetadata :=
  mkMetadata (gameName m) (unlisted m) ps (setupData m) (nextRoomID m).
Definition set_setupData (v : option jsval) (m : GameMetadata) : GameMetadata :=
  mkMetadata (gameName m) (unlisted m) (players m) v (nextRoomID m).
Definition set_nextRoomID (v : option string) (m : GameMetadata) : GameMetadata :=
  mkMetadata (gameName m) (unlisted m) (players m) (setupData m) v.

(** [Object.keys(players)] and the slot a property key denotes. *)
Definition Object_keys (ps : list PlayerMetadata) : list string :=
  pretty <$> seq 0 (length ps).

Definition key_index (ps : list PlayerMetadata) (key : string) : option nat :=
  fst <$> list_find (λ k, k = key) (Object_keys ps).

(** The names of the members of [Object.prototype], which every object
    literal inherits. *)
Definition Object_prototype : list string :=
  ["constructor"; "__defineGetter__"; "__defineSetter__"; "hasOwnProperty";
   "__lookupGetter__"; "__lookupSetter__"; "isPrototypeOf";
   "propertyIsEnumerable"; "toString"; "valueOf"; "__proto__";
   "toLocaleString"].

(** What [players[key]] finds: the record of an own key with its position,
    or the member of [Object.prototype] of that name. *)
Inductive Member :=
| Own (i : nat) (p : PlayerMetadata)
| Inherited (key : string).

(** [players[key]] for a property key; [None] is [undefined]. *)
Definition players_at (ps : list PlayerMetadata) (key : string) : option Member :=
  match key_index ps key with
  | Some i => Own i <$> ps !! i
  | None =>
      if bool_decide (key ∈ Object_prototype) then Some (Inherited key) else None
  end.

(** The [name] of an inherited member: "__proto__" reads
    [Object.prototype] itself, which has none; the other members are
    functions, named after their key but for [Object], the constructor. *)
Definition inherited_name (key : string) : jsval :=
  if bool_decide (key = "__proto__") then VUndefined
  else if bool_decide (key = "constructor") then VStr "Object"
  else VStr key.

(** [players[key].name] and [players[key].credentials]; no member of
    [Object.prototype] has a property [credentials]. *)
Definition member_name (member : Member) : jsval :=
  match member with
  | Own _ p => opt_val (name p)
  | Inherited key => inherited_name key
  end.

Definition member_credentials (member : Member) : jsval :=
  match member with
  | Own _ p => str_val (credentials p)
  | Inherited _ => VUndefined
  end.

(** The slot of the room that [playerID] names: the position and the
    record, when [playerID] converts to one of the own keys. *)
Definition players_get (ps : list PlayerMetadata) (playerID : jsval)
  : option (nat * PlayerMetadata) :=
  key ← JS.to_string playerID;
  i ← key_index ps key;
  p ← ps !! i;
  Some (i, p).

(** ** Requests *)

Module Req.
Record Body := mkBody {
  playerID : jsval;
  playerName : jsval;
  data : jsval;
  credentials : jsval;
  newName : jsval;
  setupData : jsval;
  unlisted : jsval;
  numPlayers : jsval;
  (** [numOfTeams] is absent or an integer; other JSON kinds, which the
      arithmetic of the handler would coerce, are not represented. *)
  numOfTeams : option Z;
}.

Definition empty : Body :=
  mkBody VUndefined VUndefined VUndefined VUndefined VUndefined
         VUndefined VUndefined VUndefined None.
End Req.

Record Ctx := mkCtx {
  params_name : string;
  params_id : string;
  params_team : option string;
  body : Req.Body;
}.

(** ** Server state, errors and the handler monad *)

Record Game := mkGame { game_name : string }.

Record LobbyConfig := mkLobby {
  uuid : nat → string;
  generateCredentials : nat → string;
}.

(** [ticks] counts the draws made from the generators of the lobby. *)
Record Server := mkServer {
  db : gmap string GameMetadata;
  ticks : nat;
}.

Inductive Error :=
| HttpError (status : nat) (message : string)
| TypeError.

(** How a handler ends: with a value, with an error, or going on to write
    on the member [key] of [Object.prototype]. *)
Inductive Outcome (A : Type) :=
| Ok (a : A)
| Throw (e : Error)
| Beyond (key : string).
Arguments Ok {A} a.
Arguments Throw {A} e.
Arguments Beyond {A} key.

Definition M (A : Type) : Type := Server → Outcome A * Server.

Definition ret {A} (a : A) : M A := λ s, (Ok a, s).
Definition bind {A B} (m : M A) (k : A → M B) : M B :=
  λ s, match m s with
       | (Ok a, s') => k a s'
       | (Throw e, s') => (Throw e, s')
       | (Beyond key, s') => (Beyond key, s')
       end.
Definition throw {A} (status : nat) (message : string) : M A :=
  λ s, (Throw (HttpError status message), s).
Definition beyond {A} (key : string) : M A := λ s, (Beyond key, s).
Definition must {A} (o : option A) : M A :=
  λ s, match o with Some a => (Ok a, s) | None => (Throw TypeError, s) end.
Definition when (b : bool) (m : M unit) : M unit := if b then m else ret tt.

Notation "'do' x <- m ; k" := (bind m (λ x, k))
  (at level 10, x pattern, m at level 100, k at level 200).
Notation "'exec' m ; k" := (bind m (λ _, k))
  (at level 10, m at level 100, k at level 200).

Definition fetch (gameID : string) : M (option GameMetadata) :=
  λ s, (Ok (db s !! gameID), s).
Definition setMetadata (gameID : string) (m : GameMetadata) : M unit :=
  λ s, (Ok tt, mkServer (<[gameID := m]> (db s)) (ticks s)).
Definition createGame (gameID : string) (m : GameMetadata) : M unit :=
  λ s, (Ok tt, mkServer (<[gameID := m]> (db s)) (ticks s)).
Definition wipe (gameID : string) : M unit :=
  λ s, (Ok tt, mkServer (delete gameID (db s)) (ticks s)).
Definition draw (gen : nat → string) : M string :=
  λ s, (Ok (gen (ticks s)), mkServer (db s) (S (ticks s))).
Definition required {A} (o : option A) (status : nat) (message : string) : M A :=
  match o with Some a => ret a | None => throw status message end.

(** [if (credentials !== stored) ctx.throw(403, 'Invalid credentials ' +
    credentials)]: the message is built before the throw. *)
Definition check_credentials (credentials' stored : jsval) : M unit :=
  when (negb (JS.strict_eq credentials' stored))
       (do text <- must (JS.to_string credentials');
        throw 403 ("Invalid credentials " +:+ text)).

(** ** Creating a room *)

(** The open slots [{ id: playerIndex }] for [playerIndex] below [k]. *)
Definition open_slots (k : nat) : list PlayerMetadata :=
  (λ playerIndex, mkPlayer playerIndex None None None) <$> seq 0 k.

Definition CreateGame (game : option Game) (numPlayers : jsval)
    (setupData : jsval) (lobbyConfig : LobbyConfig) (unlisted : jsval) : M string :=
  let numPlayers :=
    if negb (JS.truthy numPlayers) || negb (JS.is_number numPlayers)
    then VNum 2 else numPlayers in
  do gameName <- must (game_name <$> game);
  let metadata := mkMetadata gameName (JS.truthy unlisted) [] None None in
  let metadata :=
    if negb (JS.is_undefined setupData)
    then set_setupData (Some setupData) metadata else metadata in
  let metadata := set_players (open_slots (JS.loop_count numPlayers)) metadata in
  do gameID <- draw (uuid lobbyConfig);
  exec createGame gameID metadata;
  ret gameID.

(** ** The request handlers *)

Section Api.

Context (games : list Game) (lobbyConfig : LobbyConfig).

Definition find_game (gameName : string) : option Game :=
  snd <$> list_find (λ g, game_name g = gameName) games.

(** POST /games/:name/create *)
Definition create (ctx : Ctx) : M string :=
  let gameName := params_name ctx in
  let setupData := Req.setupData (body ctx) in
  let unlisted := Req.unlisted (body ctx) in
  do numPlayers <- must (parseInt (Req.numPlayers (body ctx)));
  let game := find_game gameName in
  exec when (bool_decide (game = None))
       (throw 404 ("Game " +:+ gameName +:+ " not found"));
  do gameID <- CreateGame game numPlayers setupData lobbyConfig unlisted;
  ret gameID.

(** GET /games/:name/:id; the players are listed without credentials. *)
Definition getRoom (ctx : Ctx)
  : M (string * list PlayerMetadata * option jsval) :=
  let gameID := params_id ctx in
  do metadata <- fetch gameID;
  do metadata <- required metadata 404 ("Room " +:+ gameID +:+ " not found");
  ret (gameID, set_credentials None <$> players metadata, setupData metadata).

(** POST /games/:name/:id/join *)
Definition join (ctx : Ctx) : M string :=
  let playerID := Req.playerID (body ctx) in
  let playerName := Req.playerName (body ctx) in
  let data := Req.data (body ctx) in
  exec when (JS.is_nullish playerID) (throw 403 "playerID is required");
  exec when (negb (JS.truthy playerName)) (throw 403 "playerName is required");
  let gameID := params_id ctx in
  do metadata <- fetch gameID;
  do metadata <- required metadata 404 ("Game " +:+ gameID +:+ " not found");
  do key <- must (JS.to_string playerID);
  do member <- required (players_at (players metadata) key) 404
                  ("Player " +:+ key +:+ " not found");
  exec when (JS.truthy (member_name member))
       (throw 409 ("Player " +:+ key +:+ " not available"));
  match member with
  | Own i p =>
      let p := if JS.truthy data then set_data (Some data) p else p in
      let p := set_name (Some playerName) p in
      do playerCredentials <- draw (generateCredentials lobbyConfig);
      let p := set_credentials (Some playerCredentials) p in
      let metadata := set_players (<[i := p]> (players metadata)) metadata in
      exec setMetadata gameID metadata;
      ret playerCredentials
  | Inherited key => beyond key
  end.

(** POST /games/:name/:id/leave *)
Definition leave (ctx : Ctx) : M unit :=
  let gameID := params_id ctx in
  let playerID := Req.playerID (body ctx) in
  let credentials' := Req.credentials (body ctx) in
  do metadata <- fetch gameID;
  exec when (JS.is_nullish playerID) (throw 403 "playerID is required");
  do metadata <- required metadata 404 ("Game " +:+ gameID +:+ " not found");
  do key <- must (JS.to_string playerID);
  do member <- required (players_at (players metadata) key) 404
                  ("Player " +:+ key +:+ " not found");
  exec check_credentials credentials' (member_credentials member);
  match member with
  | Own i p =>
      let p := set_credentials None (set_name None p) in
      let metadata := set_players (<[i := p]> (players metadata)) metadata in
      if existsb (λ player, JS.truthy (opt_val (name player))) (players metadata)
      then exec setMetadata gameID metadata; ret tt
      else exec wipe gameID; ret tt
  | Inherited key => beyond key
  end.

(** The second half of the playAgain handler: the room has no successor
    yet, one is created and recorded. *)
Definition fresh_room (ctx : Ctx) (metadata : GameMetadata) : M string :=
  let gameName := params_name ctx in
  let gameID := params_id ctx in
  let unlisted := Req.unlisted (body ctx) in
  let setupData' :=
    JS.or_else (Req.setupData (body ctx)) (opt_val (setupData metadata)) in
  do numPlayers <- must (parseInt (Req.numPlayers (body ctx)));
  let numPlayers :=
    JS.or_else numPlayers
               (VNum (Z.of_nat (length (Object_keys (players metadata))))) in
  let game := find_game gameName in
  do nextRoomID' <- CreateGame game numPlayers setupData' lobbyConfig unlisted;
  let metadata := set_nextRoomID (Some nextRoomID') metadata in
  exec setMetadata gameID metadata;
  ret nextRoomID'.

(** POST /games/:name/:id/playAgain *)
Definition playAgain (ctx : Ctx) : M string :=
  let gameName := params_name ctx in
  let gameID := params_id ctx in
  let playerID := Req.playerID (body ctx) in
  let credentials' := Req.credentials (body ctx) in
  do metadata <- fetch gameID;
  exec when (JS.is_nullish playerID) (throw 403 "playerID is required");
  do metadata <- required metadata 404 ("Game " +:+ gameID +:+ " not found");
  do key <- must (JS.to_string playerID);
  do member <- required (players_at (players metadata) key) 404
                  ("Player " +:+ key +:+ " not found");
  exec check_credentials credentials' (member_credentials member);
  (* Check if nextRoom is already set, if so, return that id. *)
  match nextRoomID metadata with
  | Some existing =>
      if JS.truthy (VStr existing) then ret existing
      else fresh_room ctx metadata
  | None => fresh_room ctx metadata
  end.

(** POST /games/:name/:id/update, and /rename, its deprecated alias *)
Definition updatePlayerMetadata (ctx : Ctx) : M unit :=
  let gameID := params_id ctx in
  let playerID := Req.playerID (body ctx) in
  let credentials' := Req.credentials (body ctx) in
  let newName := Req.newName (body ctx) in
  let data := Req.data (body ctx) in
  do metadata <- fetch gameID;
  exec when (JS.is_undefined playerID) (throw 403 "playerID is required");
  exec when (JS.is_undefined data && negb (JS.truthy newName))
       (throw 403 "newName or data is required");
  exec when (JS.truthy newName && negb (JS.is_string newName))
       (throw 403 ("newName must be a string, got " +:+ JS.typeof newName));
  do metadata <- required metadata 404 ("Game " +:+ gameID +:+ " not found");
  do key <- must (JS.to_string playerID);
  do member <- required (players_at (players metadata) key) 404
                  ("Player " +:+ key +:+ " not found");
  exec check_credentials credentials' (member_credentials member);
  match member with
  | Own i p =>
      let p := if JS.truthy newName then set_name (Some newName) p else p in
      let p := if JS.truthy data then set_data (Some data) p else p in
      let metadata := set_players (<[i := p]> (players metadata)) metadata in
      exec setMetadata gameID metadata;
      ret tt
  | Inherited key =>
      if JS.truthy newName || JS.truthy data then beyond key
      else exec setMetadata gameID metadata; ret tt
  end.

Definition rename (ctx : Ctx) : M unit := updatePlayerMetadata ctx.

(** POST /games/:name/:id/rejoin *)
Definition RejoinGame (ctx : Ctx) : M bool :=
  let playerName := Req.playerName (body ctx) in
  let credentials' := Req.credentials (body ctx) in
  let gameID := params_id ctx in
  do metadata <- fetch gameID;
  exec when (negb (JS.truthy playerName)) (throw 403 "playerName is required");
  do metadata <- required metadata 404 ("Game " +:+ gameID +:+ " not found");
  let playerID :=
    list_find (λ p, JS.strict_eq (opt_val (name p)) playerName = true)
              (players metadata) in
  do (i, p) <- required playerID 409 "Player not available";
  exec check_credentials credentials' (str_val (credentials p));
  exec setMetadata gameID metadata;
  ret true.

End Api.

(** ** Team formation (POST /games/:name/:id/teams/create) *)

(** The slot cursor [playerID] of [CreateTeam]: [playerArray[0]] at first,
    [None] when that is [undefined], then the number reached by
    [playerID++]. A key and the number it renders denote the same slot. *)
Definition Cursor := option nat.

(** [metadata.players[playerID].data]; reading [.data] of a missing record
    throws. *)
Definition player_data (ps : list PlayerMetadata) (playerID : Cursor)
  : option jsval :=
  i ← playerID; p ← ps !! i; Some (opt_val (data p)).

(** An assignment below [metadata.players[playerID].data]: [f] computes the
    new value of [data], or throws. *)
Definition write_data (ps : list PlayerMetadata) (playerID : Cursor)
    (f : jsval → option jsval) : option (list PlayerMetadata) :=
  i ← playerID; p ← ps !! i;
  d ← f (opt_val (data p));
  Some (<[i := set_data (Some d) p]> ps).

(** [data.leader = b] *)
Definition assign_leader (b : bool) (d : jsval) : option jsval :=
  JS.set_prop d "leader" (VBool b).
(** [data.teamData = td] *)
Definition assign_teamData (td : jsval) (d : jsval) : option jsval :=
  JS.set_prop d "teamData" td.
(** [data.teamData.leader = b] *)
Definition assign_teamData_leader (b : bool) (d : jsval) : option jsval :=
  td ← JS.get_prop d "teamData";
  td' ← JS.set_prop td "leader" (VBool b);
  JS.set_prop d "teamData" td'.

Definition keys_val (ids : list nat) : jsval :=
  VArr ((λ i : nat, VStr (pretty i)) <$> ids) [].
Definition strings_val (l : list string) : jsval := VArr (VStr <$> l) [].
Definition team_val (t : Team) : jsval :=
  VObj [("teamID", VStr (teamID t)); ("playersID", strings_val (playersID t))].

(** The first loop: [playerArray] and [adminArray], as slot positions. *)
Fixpoint scan_players (ps : list PlayerMetadata) (ids : list nat)
    (playerArray adminArray : list nat) : option (list nat * list nat) :=
  match ids with
  | [] => Some (playerArray, adminArray)
  | id :: ids =>
      d ← player_data ps (Some id);
      isPlayer ← JS.get_prop d "player";
      let playerArray :=
        if JS.truthy isPlayer then playerArray ++ [id] else playerArray in
      isAdmin ← JS.get_prop d "admin";
      let adminArray :=
        if JS.truthy isAdmin then adminArray ++ [id] else adminArray in
      scan_players ps ids playerArray adminArray
  end.

(** [if (data.admin) { data.leader = false; playerID++ }] *)
Definition skip_admin (ps : list PlayerMetadata) (playerID : Cursor)
  : option (list PlayerMetadata * Cursor) :=
  d ← player_data ps playerID;
  isAdmin ← JS.get_prop d "admin";
  if JS.truthy isAdmin then
    ps ← write_data ps playerID (assign_leader false);
    Some (ps, S <$> playerID)
  else Some (ps, playerID).

(** [data.teamData = { teamID, leader: false }; data.leader = false] *)
Definition assign_team (team_no : nat) (ps : list PlayerMetadata)
    (playerID : Cursor) : option (list PlayerMetadata) :=
  let temp_teamData :=
    VObj [("teamID", VStr (pretty team_no)); ("leader", VBool false)] in
  ps ← write_data ps playerID (assign_teamData temp_teamData);
  write_data ps playerID (assign_leader false).

(** The inner loop, [rounds] times: the state is the players, the cursor,
    [tmp_playerArray] and [temp_team.playersID]. *)
Fixpoint fill_team (rounds : nat) (team_no : nat) (ps : list PlayerMetadata)
    (playerID : Cursor) (tmp_playerArray : list nat) (team_players : list string)
  : option (list PlayerMetadata * Cursor * list nat * list string) :=
  match rounds with
  | 0 => Some (ps, playerID, tmp_playerArray, team_players)
  | S rounds =>
      '(ps, playerID) ← skip_admin ps playerID;
      ps ← assign_team team_no ps playerID;
      i ← playerID;
      fill_team rounds team_no ps (Some (S i))
                (tmp_playerArray ++ [i]) (team_players ++ [pretty i])
  end.

(** The loop over [teamID], [rounds] times from [teamID = team_no]. *)
Fixpoint fill_teams (rounds : nat) (team_no : nat) (playersInTeam : nat)
    (ps : list PlayerMetadata) (playerID : Cursor)
    (teams : list Team) (playerLeaderArray : list string)
  : option (list PlayerMetadata * Cursor * list Team * list string) :=
  match rounds with
  | 0 => Some (ps, playerID, teams, playerLeaderArray)
  | S rounds =>
      '(ps, playerID, tmp_playerArray, team_players) ←
        fill_team playersInTeam team_no ps playerID [] [];
      let id_leader := head tmp_playerArray in
      ps ← write_data ps id_leader (assign_teamData_leader true);
      ps ← write_data ps id_leader (assign_leader true);
      i ← id_leader;
      fill_teams rounds (S team_no) playersInTeam ps playerID
                 (teams ++ [mkTeam (pretty team_no) team_players])
                 (playerLeaderArray ++ [pretty i])
  end.

(** The loop that hands out the remainder, [rounds] times from
    [teamID = team_no]. *)
Fixpoint distribute (rounds : nat) (team_no : nat) (ps : list PlayerMetadata)
    (playerID : Cursor) (teams : list Team)
  : option (list PlayerMetadata * Cursor * list Team) :=
  match rounds with
  | 0 => Some (ps, playerID, teams)
  | S rounds =>
      '(ps, playerID) ← skip_admin ps playerID;
      let team := list_find (λ team, teamID team = pretty team_no) teams in
      ps ← assign_team team_no ps playerID;
      '(j, team) ← team;
      i ← playerID;
      let teams :=
        <[j := mkTeam (teamID team) (playersID team ++ [pretty i])]> teams in
      distribute rounds (S team_no) ps (Some (S i)) teams
  end.

(** [numPlayer % numOfTeams]; it is NaN when [numOfTeams] is 0. *)
Definition remainder (numPlayer : nat) (numOfTeams : Z) : jsval :=
  if (numOfTeams =? 0)%Z then VNaN
  else VNum (Z.rem (Z.of_nat numPlayer) numOfTeams).

(** [Math.floor(numPlayer / numOfTeams)] as the bound of the inner loop,
    which runs for a positive [numOfTeams] only. *)
Definition quotient (numPlayer : nat) (numOfTeams : Z) : nat :=
  Z.to_nat (Z.of_nat numPlayer / numOfTeams).

(** The four aggregate lists written to [metadata.setupData]. *)
Definition record_teams (sd : jsval) (teams : list Team)
    (adminArray playerArray : list nat) (playerLeaderArray : list string)
  : option jsval :=
  sd ← JS.set_prop sd "teams" (VArr (team_val <$> teams) []);
  sd ← JS.set_prop sd "adminsID" (keys_val adminArray);
  sd ← JS.set_prop sd "playersID" (keys_val playerArray);
  JS.set_prop sd "leadersID" (strings_val playerLeaderArray).

(** Everything [CreateTeam] does between the fetch and [setMetadata]. *)
Definition form_teams (metadata : GameMetadata) (numOfTeams : Z)
  : option (GameMetadata * list Team) :=
  let ps := players metadata in
  '(playerArray, adminArray) ← scan_players ps (seq 0 (length ps)) [] [];
  let numPlayer := length playerArray in
  let playersInTeam := quotient numPlayer numOfTeams in
  let numOfReminder := remainder numPlayer numOfTeams in
  let playerID := head playerArray in
  '(ps, playerID, teams, playerLeaderArray) ←
    fill_teams (Z.to_nat numOfTeams) 0 playersInTeam ps playerID [] [];
  '(ps, playerID, teams) ←
    (if negb (JS.strict_eq numOfReminder (VNum 0))
     then distribute (JS.loop_count numOfReminder) 0 ps playerID teams
     else Some (ps, playerID, teams));
  let metadata := set_players ps metadata in
  metadata ←
    (if JS.truthy (opt_val (setupData metadata))
     then sd ← record_teams (opt_val (setupData metadata)) teams
                 adminArray playerArray playerLeaderArray;
          Some (set_setupData (Some sd) metadata)
     else Some metadata);
  Some (metadata, teams).

Definition CreateTeam (ctx : Ctx) : M (list Team) :=
  let gameID := params_id ctx in
  let numOfTeams := Req.numOfTeams (body ctx) in
  do metadata <- fetch gameID;
  do numOfTeams <- required numOfTeams 403 "Define number of team";
  do metadata <- required metadata 404 ("Game " +:+ gameID +:+ " not found");
  do (metadata, teams) <- must (form_teams metadata numOfTeams);
  exec setMetadata gameID metadata;
  ret teams.

(** ** Leader rotation (POST /games/:name/:id/teams/update/leader/:team) *)

(** [teams.find(team => team.teamID === teamID)] on the elements of an
    array: [Some None] is [undefined], [None] a throw. *)
Fixpoint find_team (items : list jsval) (teamID : string)
  : option (option jsval) :=
  match items with
  | [] => Some None
  | team :: items =>
      tid ← JS.get_prop team "teamID";
      if JS.strict_eq tid (VStr teamID) then Some (Some team)
      else find_team items teamID
  end.

(** [v.find(...)]: only an array has [find]. *)
Definition teams_find (v : jsval) (teamID : string) : option (option jsval) :=
  match v with
  | VArr items _ => find_team items teamID
  | _ => None
  end.

(** The tests of the loop body on one record: [Some (Some true)] for a
    member of the team flagged leader, [Some (Some false)] for another
    member, [Some None] for a record of no concern, [None] for a throw. *)
Definition role (teamID : string) (d : jsval) : option (option bool) :=
  has ← JS.has_own d "teamData";
  if has : bool then
    td ← JS.get_prop d "teamData";
    tid ← JS.get_prop td "teamID";
    if JS.strict_eq tid (VStr teamID) then
      leader ← JS.get_prop td "leader";
      Some (Some (JS.truthy leader))
    else Some None
  else Some None.

(** The loop over the players: the last leader of the team seen, [None]
    for the initial [''], and the other members in slot order. *)
Fixpoint classify (ps : list PlayerMetadata) (ids : list nat) (teamID : string)
    (playerID_oldLeader : option nat) (playerID_others : list nat)
  : option (option nat * list nat) :=
  match ids with
  | [] => Some (playerID_oldLeader, playerID_others)
  | playerID :: ids =>
      d ← player_data ps (Some playerID);
      r ← role teamID d;
      match r with
      | Some true => classify ps ids teamID (Some playerID) playerID_others
      | Some false =>
          classify ps ids teamID playerID_oldLeader (playerID_others ++ [playerID])
      | None => classify ps ids teamID playerID_oldLeader playerID_others
      end
  end.

(** [leadersID_array.indexOf(key)] followed by the guarded assignment
    [leadersID_array[index_old] = newLeader]; the result is the value of
    [leadersID] afterwards. An array is searched with [===]; a string has
    an [indexOf] too, but its positions cannot be assigned. *)
Definition replace_leader (leadersID_array : jsval) (oldLeader newLeader : string)
  : option jsval :=
  match leadersID_array with
  | VArr items extra =>
      match list_find (λ x, JS.strict_eq x (VStr oldLeader) = true) items with
      | Some (index_old, _) =>
          Some (VArr (<[index_old := VStr newLeader]> items) extra)
      | None => Some leadersID_array
      end
  | VStr s =>
      match String.index 0 oldLeader s with
      | Some _ => None
      | None => Some leadersID_array
      end
  | _ => None
  end.

Record LeaderReport := mkReport {
  playerName_newLeader : jsval;
  playerID_newLeader : string;
  new_leadersID : jsval;
  new_players : list PlayerMetadata;
}.

(** Everything [UpdateLeader] does to the fetched record when the team has
    other members; [random] stands for the draw of [Math.random], reduced
    to a position of [playerID_others]. *)
Definition rotate (metadata : GameMetadata) (random : nat)
    (playerID_oldLeader : option nat) (playerID_others : list nat)
  : option (GameMetadata * LeaderReport) :=
  let playerID_newLeader :=
    playerID_others !! (random mod length playerID_others) in
  let ps := players metadata in
  ps ← write_data ps playerID_newLeader (assign_teamData_leader true);
  ps ← write_data ps playerID_newLeader (assign_leader true);
  ps ← write_data ps playerID_oldLeader (assign_teamData_leader false);
  ps ← write_data ps playerID_oldLeader (assign_leader false);
  new ← playerID_newLeader;
  old ← playerID_oldLeader;
  sd ← setupData metadata;
  leadersID_array ← JS.get_prop sd "leadersID";
  leadersID_array ← replace_leader leadersID_array (pretty old) (pretty new);
  (* the array is the one [setupData] holds: what was assigned to its
     position is seen through [metadata.setupData.leadersID] *)
  sd ← JS.set_prop sd "leadersID" leadersID_array;
  p ← ps !! new;
  let metadata := set_setupData (Some sd) (set_players ps metadata) in
  Some (metadata,
        mkReport (opt_val (name p)) (pretty new) leadersID_array ps).

(** The guarded lookup of the team among the recorded ones. *)
Definition check_team (metadata : GameMetadata) (teamID : string) : M unit :=
  if JS.truthy (opt_val (setupData metadata)) then
    do teams <- must (JS.get_prop (opt_val (setupData metadata)) "teams");
    do team <- must (teams_find teams teamID);
    when (bool_decide (team = None))
         (throw 404 ("Team " +:+ teamID +:+ " not found"))
  else ret tt.

Definition UpdateLeader (random : nat) (ctx : Ctx) : M (option LeaderReport) :=
  let gameID := params_id ctx in
  let teamID := params_team ctx in
  do metadata <- fetch gameID;
  do teamID <- required teamID 403 "Select the team to update";
  do metadata <- required metadata 404 ("Game " +:+ gameID +:+ " not found");
  exec check_team metadata teamID;
  let playerID_array := seq 0 (length (players metadata)) in
  do (playerID_oldLeader, playerID_others) <-
    must (classify (players metadata) playerID_array teamID None []);
  if bool_decide (0 < length playerID_others) then
    do (metadata, report) <-
      must (rotate metadata random playerID_oldLeader playerID_others);
    exec setMetadata gameID metadata;
    ret (Some report)
  else
    ret None.

(** ** The listings (GET /games and GET /games/:name) *)

(** GET /games: the names of the configured games. *)
Definition getGames (games : list Game) : M (list string) :=
  ret (game_name <$> games).

(** A room as the listings show it: its id, its players without their
    credentials, its [setupData]. *)
Definition Room : Type := string * list PlayerMetadata * option jsval.

(** The loop of GET /games/:name over the ids the store lists, [rooms]
    being the rooms pushed so far; reading [metadata.unlisted] of a room
    that the store does not hold throws. *)
Fixpoint list_rooms (gameList : list string) (rooms : list Room) : M (list Room) :=
  match gameList with
  | [] => ret rooms
  | gameID :: gameList =>
      do metadata <- fetch gameID;
      do metadata <- must metadata;
      let rooms :=
        if negb (unlisted metadata)
        then rooms ++ [(gameID, set_credentials None <$> players metadata,
                        setupData metadata)]
        else rooms in
      list_rooms gameList rooms
  end.

(** GET /games/:name. [listGames] is the listing of the storage back end,
    whose code is not part of this file: any function of the game name and
    of the store. *)
Definition getRooms (listGames : string → Server → list string) (ctx : Ctx)
  : M (list Room) :=
  let gameName := params_name ctx in
  do gameList <- (λ s, (Ok (listGames gameName s), s));
  list_rooms gameList [].

(** ** The API secret and the routes *)

(** The middleware in front of the router: [API_SECRET] is the variable of
    the environment, [header] the [api-secret] header of the request. *)
Definition api_secret (API_SECRET : option string) (header : jsval) : M unit :=
  when (JS.truthy (str_val API_SECRET)
        && negb (JS.strict_eq header (str_val API_SECRET)))
       (throw 403 "Invalid API secret").

(** The routes of the router, with the parameters and the body they are
    called with. *)
Inductive Endpoint :=
| GetGames
| PostCreate (ctx : Ctx)
| GetRooms (ctx : Ctx)
| GetRoom (ctx : Ctx)
| PostJoin (ctx : Ctx)
| PostLeave (ctx : Ctx)
| PostPlayAgain (ctx : Ctx)
| PostRename (ctx : Ctx)
| PostUpdate (ctx : Ctx)
| PostTeamsCreate (ctx : Ctx)
| PostUpdateLeader (random : nat) (ctx : Ctx)
| PostRejoin (ctx : Ctx).

(** What a handler assigns to [ctx.body]. *)
Inductive Reply :=
| GamesReply (names : list string)
| CreatedReply (gameID : string)
| RoomsReply (rooms : list Room)
| RoomReply (room : Room)
| JoinedReply (playerCredentials : string)
| EmptyReply
| NextRoomReply (nextRoomID : string)
| TeamsReply (teams : list Team)
| LeaderReply (report : option LeaderReport)
| RejoinedReply (rejoined : bool).

Definition route (games : list Game) (lobbyConfig : LobbyConfig)
    (listGames : string → Server → list string) (e : Endpoint) : M Reply :=
  match e with
  | GetGames => do names <- getGames games; ret (GamesReply names)
  | PostCreate ctx =>
      do gameID <- create games lobbyConfig ctx; ret (CreatedReply gameID)
  | GetRooms ctx => do rooms <- getRooms listGames ctx; ret (RoomsReply rooms)
  | GetRoom ctx => do room <- getRoom ctx; ret (RoomReply room)
  | PostJoin ctx =>
      do playerCredentials <- join lobbyConfig ctx; ret (JoinedReply playerCredentials)
  | PostLeave ctx => exec leave ctx; ret EmptyReply
  | PostPlayAgain ctx =>
      do nextRoomID <- playAgain games lobbyConfig ctx; ret (NextRoomReply nextRoomID)
  | PostRename ctx => exec rename ctx; ret EmptyReply
  | PostUpdate ctx => exec updatePlayerMetadata ctx; ret EmptyReply
  | PostTeamsCreate ctx => do teams <- CreateTeam ctx; ret (TeamsReply teams)
  | PostUpdateLeader random ctx =>
      do report <- UpdateLeader random ctx; ret (LeaderReply report)
  | PostRejoin ctx => do rejoined <- RejoinGame ctx; ret (RejoinedReply rejoined)
  end.

(** A request through the application ([app] in the source): the secret
    is checked first. *)
Definition request (games : list Game) (lobbyConfig : LobbyConfig)
    (listGames : string → Server → list string)
    (API_SECRET : option string) (header : jsval) (e : Endpoint) : M Reply :=
  exec api_secret API_SECRET header;
  route games lobbyConfig listGames e.

(** * Vocabulary of the statements *)

(** ** Outcomes *)

(** A handler that ends with the given HTTP status and leaves the server
    state as it found it. *)
Definition rejects {A} (status : nat) (r : Outcome A * Server) (s : Server) : Prop :=
  ∃ message, r = (Throw (HttpError status message), s).

(** The error of the credential check: status 403 with the credential in
    its message, or the [TypeError] of a credential that cannot be
    converted to a string. *)
Definition invalid_credentials (supplied : jsval) : Error :=
  match JS.to_string supplied with
  | Some text => HttpError 403 ("Invalid credentials " +:+ text)
  | None => TypeError
  end.

(** ** Seats and teams *)

(** A slot is seated when it has a (truthy) name. *)
Definition seated (p : PlayerMetadata) : bool := JS.truthy (opt_val (name p)).

(** The slots a team formation is meant to distribute: seated, flagged
    [player] and not flagged [admin]. *)
Definition eligible (p : PlayerMetadata) : bool :=
  seated p
  && match JS.get_prop (opt_val (data p)) "player",
           JS.get_prop (opt_val (data p)) "admin" with
     | Some isPlayer, Some isAdmin => JS.truthy isPlayer && negb (JS.truthy isAdmin)
     | _, _ => false
     end.

Definition eligible_keys (ps : list PlayerMetadata) : list string :=
  (λ p, pretty (id p)) <$> filter (λ p, eligible p = true) ps.

(** What the loop of [UpdateLeader] makes of slot [i]. *)
Definition role_at (teamID : string) (ps : list PlayerMetadata) (i : nat)
  : option (option bool) :=
  p ← ps !! i; role teamID (opt_val (data p)).

(** The slots that carry the assignment to the team, flagged leader
    ([flag = true]) or not, in slot order. *)
Definition members (teamID : string) (flag : bool) (ps : list PlayerMetadata)
  : list nat :=
  filter (λ i, role_at teamID ps i = Some (Some flag)) (seq 0 (length ps)).

(** [l] with the first element strictly equal to [x] replaced by [y]. *)
Fixpoint replace_first (x y : jsval) (l : list jsval) : list jsval :=
  match l with
  | [] => []
  | a :: l => if JS.strict_eq a x then y :: l else a :: replace_first x y l
  end.

(** ** Forming teams *)

(** The flag [data.k] of slot [i], read as a boolean. *)
Definition flag_at (k : string) (ps : list PlayerMetadata) (i : nat) : bool :=
  match ps !! i with
  | Some p =>
      match JS.get_prop (opt_val (data p)) k with
      | Some v => JS.truthy v
      | None => false
      end
  | None => false
  end.

(** The slots flagged [player], in slot order: the list the handler calls
    [playerArray]. *)
Definition player_slots (ps : list PlayerMetadata) : list nat :=
  filter (λ i, flag_at "player" ps i = true) (seq 0 (length ps)).

(** From the cursor [c] the filling step reaches the slot [e]: [e] is not
    flagged admin and is [c] itself, or [c] is an admin slot and [e] the
    slot after it. *)
Definition lands (ps : list PlayerMetadata) (c e : nat) : bool :=
  negb (flag_at "admin" ps e)
  && (bool_decide (c = e) || (bool_decide (S c = e) && flag_at "admin" ps c)).

(** The cursor started at [c] reaches the slots [es] one after the other. *)
Fixpoint walk (ps : list PlayerMetadata) (c : nat) (es : list nat) : bool :=
  match es with
  | [] => true
  | e :: es => lands ps c e && walk ps (S e) es
  end.

(** Every slot has a [data] to read, no slot flagged player is flagged
    admin, and two successive player slots are neighbours or have a single
    admin slot between them. *)
Definition walkable (ps : list PlayerMetadata) : bool :=
  forallb (λ p, negb (JS.is_nullish (opt_val (data p)))) ps
  && match player_slots ps with
     | [] => true
     | e :: es => walk ps e (e :: es)
     end.

(** The team assignment [{ teamID, leader }] written to a player. *)
Definition team_data (team_no : nat) (leader : bool) : jsval :=
  VObj [("teamID", VStr (pretty team_no)); ("leader", VBool leader)].

(** Slot [e] carries the assignment to team [team_no] with the leader flag
    [b], in [data.teamData] and in [data.leader]. *)
Definition assigned (ps : list PlayerMetadata) (e team_no : nat) (b : bool) : Prop :=
  ∃ p d, ps !! e = Some p ∧ data p = Some d
         ∧ JS.get_prop d "teamData" = Some (team_data team_no b)
         ∧ JS.get_prop d "leader" = Some (VBool b).

(** Slot [i] has an object for [data]. *)
Definition obj_at (ps : list PlayerMetadata) (i : nat) : bool :=
  match ps !! i with
  | Some p => JS.is_object (opt_val (data p))
  | None => false
  end.

(** The writes keep the number of slots, the admin flags and which slots
    have an object for [data]. *)
Definition same_flags (ps ps' : list PlayerMetadata) : Prop :=
  length ps' = length ps
  ∧ ∀ i, flag_at "admin" ps' i = flag_at "admin" ps i ∧ obj_at ps' i = obj_at ps i.

(** Where the cursor stands after the slots [es]. *)
Fixpoint next_cursor (c : nat) (es : list nat) : nat :=
  match es with
  | [] => c
  | e :: es => next_cursor (S e) es
  end.

(** The teams made of the successive groups of slots [css], numbered from
    [team_no], and their leaders. *)
Fixpoint mk_teams (team_no : nat) (css : list (list nat)) : list Team :=
  match css with
  | [] => []
  | cs :: css => mkTeam (pretty team_no) (pretty <$> cs) :: mk_teams (S team_no) css
  end.

Definition leaders_of (css : list (list nat)) : list string :=
  omap (λ cs, pretty <$> head cs) css.

(** The slots [es] handed out one each to the teams, in order. *)
Fixpoint append_each (teams : list Team) (es : list nat) : list Team :=
  match teams, es with
  | tm :: teams, e :: es =>
      mkTeam (teamID tm) (playersID tm ++ [pretty e]) :: append_each teams es
  | _, _ => teams
  end.

(** A list of teams in which the team at position [i] is named [i]. *)
Definition named (teams : list Team) : Prop :=
  ∀ i tm, teams !! i = Some tm → teamID tm = pretty i.

(** [r] successive groups of [base] elements of [l]. *)
Fixpoint chunks (r base : nat) (l : list nat) : list (list nat) :=
  match r with
  | 0 => []
  | S r => take base l :: chunks r base (drop base l)
  end.

(** ** The seated invariant *)

(** The name and the credentials of a slot. *)
Definition seat_of (p : PlayerMetadata) : option jsval * option string :=
  (name p, credentials p).

(** A slot has a name if and only if it has credentials. *)
Definition seated_inv (m : GameMetadata) : Prop :=
  Forall (λ sc, is_Some (fst sc) ↔ is_Some (snd sc)) (seat_of <$> players m).

Definition db_inv (s : Server) : Prop :=
  ∀ g m, db s !! g = Some m → seated_inv m.

(** The requests of the lobby. *)
Inductive Request :=
| ReqCreate (ctx : Ctx)
| ReqJoin (ctx : Ctx)
| ReqLeave (ctx : Ctx)
| ReqUpdate (ctx : Ctx)
| ReqRejoin (ctx : Ctx)
| ReqPlayAgain (ctx : Ctx)
| ReqTeams (ctx : Ctx)
| ReqLeader (random : nat) (ctx : Ctx).

(** The server state after a request, whatever the answer (the state
    the request found, when it ends in [Beyond]). *)
Definition serve (games : list Game) (lobbyConfig : LobbyConfig)
    (r : Request) (s : Server) : Server :=
  match r with
  | ReqCreate ctx => snd (create games lobbyConfig ctx s)
  | ReqJoin ctx => snd (join lobbyConfig ctx s)
  | ReqLeave ctx => snd (leave ctx s)
  | ReqUpdate ctx => snd (updatePlayerMetadata ctx s)
  | ReqRejoin ctx => snd (RejoinGame ctx s)
  | ReqPlayAgain ctx => snd (playAgain games lobbyConfig ctx s)
  | ReqTeams ctx => snd (CreateTeam ctx s)
  | ReqLeader random ctx => snd (UpdateLeader random ctx s)
  end.

(** An update request that does not name a slot without credentials. *)
Definition aims_at_seated (r : Request) (s : Server) : Prop :=
  match r with
  | ReqUpdate ctx =>
      ∀ m i p, db s !! params_id ctx = Some m →
               players_get (players m) (Req.playerID (body ctx)) = Some (i, p) →
               is_Some (credentials p)
  | _ => True
  end.

(** ** Requests as a whole *)

(** A handler that persists nothing when it ends in an error, whichever
    error it is. *)
Definition fail_closed {A} (m : M A) : Prop :=
  ∀ s e s', m s = (Throw e, s') → s' = s.

(** The room a route is about (its [:id] parameter). *)
Definition room_of (e : Endpoint) : option string :=
  match e with
  | GetGames | PostCreate _ | GetRooms _ => None
  | GetRoom ctx | PostJoin ctx | PostLeave ctx | PostPlayAgain ctx | PostRename ctx
  | PostUpdate ctx | PostTeamsCreate ctx | PostUpdateLeader _ ctx | PostRejoin ctx =>
      Some (params_id ctx)
  end.

(** What the listing shows of the room [gameID]: nothing when the room is
    unlisted. *)
Definition shown (s : Server) (gameID : string) : option Room :=
  m ← db s !! gameID;
  if unlisted m then None
  else Some (gameID, set_credentials None <$> players m, setupData m).

(** ** Teams and payloads *)

(** Everything of a room but the payloads: its [setupData] and the [data]
    of its players. *)
Definition without_data (m : GameMetadata) : GameMetadata :=
  set_setupData None (set_players (set_data None <$> players m) m).

(** The first member of each team. *)
Definition first_members (teams : list Team) : list (option string) :=
  (λ tm, head (playersID tm)) <$> teams.

(** The slots of team [j] when the slots [E] are dealt to [t] teams: a
    block of [length E / t] successive slots, and one of the slots left
    over for each of the first [length E mod t] teams. *)
Definition team_slots (E : list nat) (t j : nat) : list nat :=
  take (length E / t) (drop (j * (length E / t)) E)
  ++ (if decide (j < length E mod t)
      then take 1 (drop (t * (length E / t) + j) E) else []).

(** ** A concrete lobby, for the closed statements *)

Module Demo.
Definition lobby : LobbyConfig :=
  mkLobby (λ n, "room" +:+ pretty n) (λ n, "key" +:+ pretty n).
Definition games : list Game := [mkGame "tic-tac-toe"].
Definition start : Server := mkServer ∅ 0.

Definition ctx (b : Req.Body) : Ctx := mkCtx "tic-tac-toe" "room0" None b.
Definition on_team (team : string) : Ctx :=
  mkCtx "tic-tac-toe" "room0" (Some team) Req.empty.

Definition join_body (slot : Z) (who : string) (d : jsval) : Req.Body :=
  Req.mkBody (VNum slot) (VStr who) d VUndefined VUndefined
             VUndefined VUndefined VUndefined None.
Definition join_as (playerID : jsval) (who : string) : Req.Body :=
  Req.mkBody playerID (VStr who) VUndefined VUndefined VUndefined
             VUndefined VUndefined VUndefined None.
Definition auth_body (slot : Z) (key : jsval) : Req.Body :=
  Req.mkBody (VNum slot) VUndefined VUndefined key VUndefined
             VUndefined VUndefined VUndefined None.
Definition update_body (slot : Z) (key newName d : jsval) : Req.Body :=
  Req.mkBody (VNum slot) VUndefined d key newName
             VUndefined VUndefined VUndefined None.
Definition rejoin_body (who : string) (key : jsval) : Req.Body :=
  Req.mkBody VUndefined (VStr who) VUndefined key VUndefined
             VUndefined VUndefined VUndefined None.
Definition teams_body (numOfTeams : Z) : Req.Body :=
  Req.mkBody VUndefined VUndefined VUndefined VUndefined VUndefined
             VUndefined VUndefined VUndefined (Some numOfTeams).

Definition player : jsval := VObj [("player", VBool true)].
Definition admin : jsval := VObj [("admin", VBool true)].

(** The state after the handler [m]. *)
Definition after {A} (m : M A) (s : Server) : Server := snd (m s).

(** A room of [k] slots with an empty [setupData] object. *)
Definition room (k : Z) : Server :=
  after (CreateGame (Some (mkGame "tic-tac-toe")) (VNum k) (VObj [])
                    lobby VUndefined) start.

(** The players of [l] take the slots in order, each with its payload. *)
Fixpoint seat (l : list (string * jsval)) (slot : Z) (s : Server) : Server :=
  match l with
  | [] => s
  | (who, d) :: l =>
      seat l (slot + 1) (after (join lobby (ctx (join_body slot who d))) s)
  end.
End Demo.

(** ** Rooms reached through the handlers *)

(** A room created without [setupData], both slots taken by players. *)
Definition bare_room : Server :=
  Demo.seat [("A", Demo.player); ("B", Demo.player)] 0
    (Demo.after (CreateGame (Some (mkGame "tic-tac-toe")) (VNum 2) VUndefined
                            Demo.lobby VUndefined) Demo.start).

(** Four seats: a player, two admins, a player. *)
Definition two_admins : Server :=
  Demo.seat [("A", Demo.player); ("B", Demo.admin); ("C", Demo.admin);
             ("D", Demo.player)] 0 (Demo.room 4).

(** Three players in one team, as [CreateTeam] leaves them. *)
Definition one_team : Server :=
  Demo.after (CreateTeam (Demo.ctx (Demo.teams_body 1)))
    (Demo.seat [("A", Demo.player); ("B", Demo.player); ("C", Demo.player)]
               0 (Demo.room 3)).

(** One player, alone in the team. *)
Definition lone_team : Server :=
  Demo.after (CreateTeam (Demo.ctx (Demo.teams_body 1)))
    (Demo.seat [("A", Demo.player)] 0 (Demo.room 1)).

(** Three players in one team, then the leader (slot 0) sends an update
    with a new payload, which replaces its [data] and with it the team
    assignment. *)
Definition leader_updated : Server :=
  Demo.after
    (updatePlayerMetadata
       (Demo.ctx (Demo.update_body 0 (VStr "key1") VUndefined Demo.player)))
    (Demo.after (CreateTeam (Demo.ctx (Demo.teams_body 1)))
       (Demo.seat [("A", Demo.player); ("B", Demo.player); ("C", Demo.player)]
                  0 (Demo.room 3))).

(** Two players join, then the second one leaves: its slot keeps the
    payload it joined with. *)
Definition vacated : Server :=
  Demo.after (leave (Demo.ctx (Demo.auth_body 1 (VStr "key2"))))
    (Demo.seat [("A", Demo.player); ("B", Demo.player)] 0 (Demo.room 2)).

(** A player, an admin, two players. *)
Definition with_admin : Server :=
  Demo.seat [("A", Demo.player); ("B", Demo.admin); ("C", Demo.player);
             ("D", Demo.player)] 0 (Demo.room 4).

(** Both slots of a room taken by players. *)
Definition pair_room : Server :=
  Demo.seat [("A", Demo.player); ("B", Demo.player)] 0 (Demo.room 2).

(** Two players who joined under the same name. *)
Definition namesakes : Server :=
  Demo.seat [("A", Demo.player); ("A", Demo.player)] 0 (Demo.room 2).

(** Three players, no team formed yet. *)
Definition trio : Server :=
  Demo.seat [("A", Demo.player); ("B", Demo.player); ("C", Demo.player)]
            0 (Demo.room 3).

(** Two players in one team, in a room created without [setupData]. *)
Definition bare_team : Server :=
  Demo.after (CreateTeam (Demo.ctx (Demo.teams_body 1))) bare_room.

(** ** Running a handler *)

Ltac run_handler :=
  unfold check_credentials, bind, when, throw, beyond, required, must, fetch,
    setMetadata, wipe, draw, createGame, ret in *; simpl in *.

(** * Properties *)

(** ** Generic facts *)

Lemma open_slots_length k : length (open_slots k) = k.
Proof. unfold open_slots. by rewrite length_fmap, length_seq. Qed.

Lemma open_slots_lookup k i :
  i < k → open_slots k !! i = Some (mkPlayer i None None None).
Proof.
  intros Hi. unfold open_slots.
  rewrite list_lookup_fmap, lookup_seq_lt by done. done.
Qed.

Lemma Object_keys_insert ps i p : Object_keys (<[i := p]> ps) = Object_keys ps.
Proof. unfold Object_keys. by rewrite length_insert. Qed.

Lemma key_index_insert ps i p key :
  key_index (<[i := p]> ps) key = key_index ps key.
Proof. unfold key_index. by rewrite Object_keys_insert. Qed.

Lemma key_index_lt ps key i : key_index ps key = Some i → i < length ps.
Proof.
  unfold key_index. intros H.
  destruct (list_find _ _) as [[j k]|] eqn:E; simplify_eq/=.
  apply list_find_Some in E as (E & _ & _).
  apply lookup_lt_Some in E. unfold Object_keys in E.
  by rewrite length_fmap, length_seq in E.
Qed.

(** The numeral of a positive number starts with a digit from 1 to 9. *)
Lemma pretty_go_head (x : N) s :
  (0 < x)%N →
  ∃ d r, (0 < d < 10)%N ∧ pretty_N_go x s = String (pretty_N_char d) r.
Proof.
  revert s. induction (N.lt_wf_0 x) as [x _ IH]. intros s Hx.
  assert (x `mod` 10 < 10)%N as Hmod by (apply N.mod_lt; lia).
  pose proof (N.div_mod x 10 ltac:(lia)) as Hdm.
  rewrite pretty_N_go_step by done.
  destruct (decide (x `div` 10 = 0)%N) as [Hz|Hnz].
  - rewrite Hz, pretty_N_go_0. exists (x `mod` 10)%N, s. split; [lia|done].
  - apply IH; [apply N.div_lt; lia|lia].
Qed.

(** A decimal numeral starts with a digit or with the sign, a member of
    [Object.prototype] with a letter or an underscore. *)
Lemma pretty_Z_head (n : Z) :
  match pretty n with
  | String a _ => nat_of_ascii a <=? 57
  | EmptyString => false
  end = true.
Proof.
  assert (∀ x : N, (0 < x)%N →
            match pretty_N_go x "" with
            | String a _ => nat_of_ascii a <=? 57
            | EmptyString => false
            end = true) as Hgo.
  { intros x Hx. destruct (pretty_go_head x "") as (d & r & Hd & ->); [done|].
    assert (d = 1 ∨ d = 2 ∨ d = 3 ∨ d = 4 ∨ d = 5 ∨ d = 6 ∨ d = 7 ∨ d = 8
            ∨ d = 9)%N as H by lia.
    repeat destruct H as [->|H]; try subst d; reflexivity. }
  destruct n as [|x|x]; [done| |done].
  unfold pretty, pretty_Z, pretty, pretty_positive, pretty, pretty_N.
  destruct (decide (N.pos x = 0)%N) as [Hz|Hx]; [done|]. by apply Hgo.
Qed.

Lemma inherited_head key :
  key ∈ Object_prototype →
  match key with
  | String a _ => 95 <=? nat_of_ascii a
  | EmptyString => false
  end = true.
Proof.
  unfold Object_prototype. intros H.
  repeat (apply elem_of_cons in H as [->|H]; [reflexivity|]).
  by apply elem_of_nil in H.
Qed.

Lemma numeral_not_inherited (n : Z) : pretty n ∉ Object_prototype.
Proof.
  intros H%inherited_head. pose proof (pretty_Z_head n) as Hn.
  destruct (pretty n) as [|a r]; [done|].
  apply Nat.leb_le in H, Hn. lia.
Qed.

Lemma pretty_Z_of_nat (k : nat) : pretty (Z.of_nat k) = pretty k.
Proof. by destruct k. Qed.

Lemma players_get_Some ps v i p :
  players_get ps v = Some (i, p) ↔
  (∃ key, JS.to_string v = Some key ∧ key_index ps key = Some i)
  ∧ ps !! i = Some p.
Proof.
  unfold players_get. split.
  - intros H. destruct (JS.to_string v) as [key|]; simplify_eq/=.
    destruct (key_index _ _) as [j|] eqn:Ej; simplify_eq/=.
    destruct (ps !! j) eqn:E; simplify_eq/=. eauto.
  - intros [(key & -> & Hkey) H]. simpl. rewrite Hkey. simpl. by rewrite H.
Qed.

Lemma players_get_None ps v key :
  JS.to_string v = Some key →
  players_get ps v = None ↔ key_index ps key = None.
Proof.
  unfold players_get. intros ->. simpl. split.
  - intros H. destruct (key_index _ _) as [j|] eqn:E; [|done]. simpl in H.
    apply key_index_lt in E. apply lookup_lt_is_Some in E as [p Hp].
    by rewrite Hp in H.
  - by intros ->.
Qed.

(** The slot that [playerID] names is what the handlers find under the
    key. *)
Lemma players_at_own ps v i p :
  players_get ps v = Some (i, p) →
  ∃ key, JS.to_string v = Some key ∧ players_at ps key = Some (Own i p).
Proof.
  intros [(key & Hv & Hkey) Hp]%players_get_Some. exists key. split; [done|].
  unfold players_at. by rewrite Hkey, Hp.
Qed.

Lemma players_get_own ps v key i p :
  JS.to_string v = Some key → players_at ps key = Some (Own i p) →
  players_get ps v = Some (i, p).
Proof.
  unfold players_get, players_at. intros ->. simpl.
  destruct (key_index ps key) as [j|]; [|by case_bool_decide]. simpl.
  destruct (ps !! j); intros H; by simplify_eq/=.
Qed.

Lemma players_at_Own ps key i p :
  players_at ps key = Some (Own i p) ↔ key_index ps key = Some i ∧ ps !! i = Some p.
Proof.
  unfold players_at. split.
  - destruct (key_index ps key) as [j|]; [|by case_bool_decide].
    destruct (ps !! j) eqn:E; intros H; by simplify_eq/=.
  - intros [-> ->]. done.
Qed.

(** After [players[key] = p'] the same key denotes the new record. *)
Lemma players_get_insert ps v i p p' :
  players_get ps v = Some (i, p) →
  players_get (<[i := p']> ps) v = Some (i, p').
Proof.
  rewrite !players_get_Some. setoid_rewrite key_index_insert.
  intros [Hk Hp]. split; [done|].
  apply list_lookup_insert_eq. by apply lookup_lt_Some in Hp.
Qed.

(** ** Property reads after property writes *)

Lemma assoc_get_set_eq k v l : JS.assoc_get k (JS.assoc_set k v l) = Some v.
Proof.
  induction l as [|[k' v'] l IH]; simpl.
  - by rewrite decide_True.
  - destruct (decide (k = k')) as [->|Hne]; simpl.
    + by rewrite decide_True.
    + by rewrite decide_False.
Qed.

Lemma assoc_get_set_ne k k' v l :
  k' ≠ k → JS.assoc_get k' (JS.assoc_set k v l) = JS.assoc_get k' l.
Proof.
  intros Hne. induction l as [|[k0 v0] l IH]; simpl.
  - by rewrite decide_False.
  - destruct (decide (k = k0)) as [->|Hne0]; simpl.
    + by rewrite !decide_False.
    + destruct (decide (k' = k0)); [done|]. exact IH.
Qed.

Lemma set_prop_Some v k x v' :
  JS.set_prop v k x = Some v' →
  JS.is_object v = true
  ∧ JS.is_object v' = true
  ∧ JS.own_props v' = JS.assoc_set k x (JS.own_props v).
Proof.
  unfold JS.set_prop. destruct v; simpl; try done; by intros [= <-].
Qed.

Lemma set_prop_object v k x :
  JS.is_object v = true → is_Some (JS.set_prop v k x).
Proof. unfold JS.set_prop. intros ->. by eexists. Qed.

Lemma is_object_not_nullish v : JS.is_object v = true → JS.is_nullish v = false.
Proof. by destruct v. Qed.

Lemma get_prop_set_eq v k x v' :
  JS.set_prop v k x = Some v' → JS.get_prop v' k = Some x.
Proof.
  intros (_ & Hobj & Hown)%set_prop_Some. unfold JS.get_prop.
  by rewrite (is_object_not_nullish _ Hobj), Hown, assoc_get_set_eq.
Qed.

Lemma get_prop_set_ne v k k' x v' :
  k' ≠ k → JS.set_prop v k x = Some v' → JS.get_prop v' k' = JS.get_prop v k'.
Proof.
  intros Hne (Hobj & Hobj' & Hown)%set_prop_Some. unfold JS.get_prop.
  rewrite (is_object_not_nullish _ Hobj), (is_object_not_nullish _ Hobj'), Hown.
  by rewrite assoc_get_set_ne.
Qed.

Lemma has_own_set_ne v k k' x v' :
  k ≠ "hasOwnProperty" → k' ≠ k →
  JS.set_prop v k x = Some v' → JS.has_own v' k' = JS.has_own v k'.
Proof.
  intros Hk Hne (Hobj & Hobj' & Hown)%set_prop_Some. unfold JS.has_own.
  rewrite (is_object_not_nullish _ Hobj), (is_object_not_nullish _ Hobj'), Hown.
  rewrite !assoc_get_set_ne by done. done.
Qed.

Lemma has_own_set_eq v k x v' :
  k ≠ "hasOwnProperty" →
  JS.set_prop v k x = Some v' →
  JS.has_own v' k = (λ _, true) <$> JS.has_own v k.
Proof.
  intros Hk (Hobj & Hobj' & Hown)%set_prop_Some. unfold JS.has_own.
  rewrite (is_object_not_nullish _ Hobj), (is_object_not_nullish _ Hobj'), Hown.
  rewrite assoc_get_set_ne by done. rewrite assoc_get_set_eq.
  by destruct (JS.assoc_get "hasOwnProperty" _).
Qed.

(** Reading a string out of a value shows that the value is an object. *)
Lemma get_prop_string_object v k x s :
  JS.get_prop v k = Some x → JS.strict_eq x (VStr s) = true → JS.is_object v = true.
Proof.
  unfold JS.get_prop. destruct v; simpl; try done; by intros [= <-].
Qed.

Lemma has_own_true_object v k : JS.has_own v k = Some true → JS.is_object v = true.
Proof.
  unfold JS.has_own. destruct v; simpl; try done.
Qed.

(** ** C8: the slots of a new room *)

Lemma CreateGame_run game numPlayers setupData cfg unlisted s :
  ∃ m, CreateGame (Some game) numPlayers setupData cfg unlisted s
       = (Ok (uuid cfg (ticks s)),
          mkServer (<[uuid cfg (ticks s) := m]> (db s)) (S (ticks s)))
     ∧ gameName m = game_name game
     ∧ nextRoomID m = None
     ∧ players m =
         open_slots (JS.loop_count
           (if negb (JS.truthy numPlayers) || negb (JS.is_number numPlayers)
            then VNum 2 else numPlayers)).
Proof.
  unfold CreateGame, bind, must, draw, createGame, ret. simpl.
  eexists. split; [reflexivity|].
  by destruct (negb (JS.is_undefined setupData)).
Qed.

Lemma CreateGame_no_game numPlayers setupData cfg unlisted s :
  CreateGame None numPlayers setupData cfg unlisted s = (Throw TypeError, s).
Proof. done. Qed.

(** C8 (as amended). [CreateGame] stores a room with exactly [k] slots,
    slot [i] holding [{ id: i }] and nothing else, for [numPlayers = k]
    with [k] at least 1; it makes 2 slots when [numPlayers] is falsy
    (absent, NaN, or the number 0) or is not a number. *)
Theorem CreateGame_open_slots game numPlayers setupData cfg unlisted s (k : nat) :
  (numPlayers = VNum (Z.of_nat k) ∧ 0 < k) ∨
  (k = 2 ∧ (JS.truthy numPlayers = false ∨ JS.is_number numPlayers = false)) →
  ∃ gameID m s',
    CreateGame (Some game) numPlayers setupData cfg unlisted s = (Ok gameID, s')
    ∧ db s' !! gameID = Some m
    ∧ length (players m) = k
    ∧ ∀ i, i < k → players m !! i = Some (mkPlayer i None None None).
Proof.
  intros Hk.
  destruct (CreateGame_run game numPlayers setupData cfg unlisted s)
    as (m & Hrun & _ & _ & Hps).
  exists (uuid cfg (ticks s)), m. eexists. split; [exact Hrun|].
  split; [apply lookup_insert_eq|].
  assert (players m = open_slots k) as ->.
  { rewrite Hps. f_equal. destruct Hk as [[-> Hpos]|[-> Hk]].
    - simpl. destruct (Z.eqb_spec (Z.of_nat k) 0); [lia|]. simpl. lia.
    - by destruct Hk as [-> | ->]; rewrite ?orb_true_r. }
  split; [apply open_slots_length|]. intros i Hi. by apply open_slots_lookup.
Qed.

Lemma CreateGame_open_slots_witness :
  ∃ gameID m s',
    CreateGame (Some (mkGame "tic-tac-toe")) (VNum 3) VUndefined
               Demo.lobby VUndefined Demo.start = (Ok gameID, s')
    ∧ db s' !! gameID = Some m
    ∧ length (players m) = 3
    ∧ ∀ i, i < 3 → players m !! i = Some (mkPlayer i None None None).
Proof.
  apply (CreateGame_open_slots (mkGame "tic-tac-toe") (VNum 3) VUndefined
           Demo.lobby VUndefined Demo.start 3).
  left. split; [reflexivity | lia].
Defined.

(** C8 as first stated fails for [numPlayers = 0]: the room gets the two
    default slots, not zero. *)
Lemma CreateGame_zero_gets_default :
  ∃ m, db (Demo.room 0) !! "room0" = Some m
       ∧ length (players m) = 2 ∧ length (players m) ≠ 0.
Proof. eexists. split; [vm_compute; reflexivity|]. split; [reflexivity | discriminate]. Qed.

Section ApiFacts.

Context (games : list Game) (lobbyConfig : LobbyConfig).

(** ** C5: joining *)

Lemma join_missing_field ctx s :
  JS.is_nullish (Req.playerID (body ctx)) = true
  ∨ JS.truthy (Req.playerName (body ctx)) = false →
  rejects 403 (join lobbyConfig ctx s) s.
Proof.
  intros H. unfold join, rejects. run_handler.
  destruct (JS.is_nullish _); simpl; [by eexists|].
  destruct H as [?| ->]; [done|]. simpl. by eexists.
Qed.

Lemma join_no_room ctx s :
  JS.is_nullish (Req.playerID (body ctx)) = false →
  JS.truthy (Req.playerName (body ctx)) = true →
  db s !! params_id ctx = None →
  rejects 404 (join lobbyConfig ctx s) s.
Proof.
  intros Hid Hname Hm. unfold join, rejects. run_handler.
  rewrite Hid, Hname. simpl. rewrite Hm. simpl. by eexists.
Qed.

(** The join of a key that cannot be computed, of a key that finds
    nothing, and of a key that finds a member of [Object.prototype]. *)
Lemma join_key ctx s m :
  JS.is_nullish (Req.playerID (body ctx)) = false →
  JS.truthy (Req.playerName (body ctx)) = true →
  db s !! params_id ctx = Some m →
  match JS.to_string (Req.playerID (body ctx)) with
  | None => join lobbyConfig ctx s = (Throw TypeError, s)
  | Some key =>
      match players_at (players m) key with
      | None =>
          join lobbyConfig ctx s
          = (Throw (HttpError 404 ("Player " +:+ key +:+ " not found")), s)
      | Some (Inherited k) =>
          if JS.truthy (inherited_name k)
          then join lobbyConfig ctx s
               = (Throw (HttpError 409 ("Player " +:+ key +:+ " not available")), s)
          else join lobbyConfig ctx s = (Beyond k, s)
      | Some (Own _ _) => True
      end
  end.
Proof.
  intros Hid Hname Hm. unfold join. run_handler.
  rewrite Hid, Hname. simpl. rewrite Hm. simpl.
  destruct (JS.to_string _) as [key|]; simpl; [|done].
  destruct (players_at _ _) as [[i p|k]|]; simpl; [done| |done].
  by destruct (JS.truthy (inherited_name k)).
Qed.

Lemma players_at_None ps key :
  key ∉ Object_keys ps → key ∉ Object_prototype → players_at ps key = None.
Proof.
  intros Hown Hproto. unfold players_at.
  destruct (key_index ps key) as [i|] eqn:Hi.
  - exfalso. apply Hown. unfold key_index in Hi.
    destruct (list_find _ _) as [[j k]|] eqn:E; simplify_eq/=.
    apply list_find_Some in E as (E & -> & _).
    by eapply list_elem_of_lookup_2.
  - by rewrite bool_decide_eq_false_2.
Qed.

Lemma players_at_Inherited ps key :
  key ∈ Object_prototype → players_at ps key = Some (Inherited key).
Proof.
  intros Hproto. unfold players_at.
  destruct (key_index ps key) as [i|] eqn:Hi.
  - exfalso. unfold key_index in Hi.
    destruct (list_find _ _) as [[j k]|] eqn:E; simplify_eq/=.
    apply list_find_Some in E as (E & -> & _).
    unfold Object_keys in E. rewrite list_lookup_fmap in E.
    destruct (seq _ _ !! i) as [n|]; simplify_eq/=.
    rewrite <- pretty_Z_of_nat in Hproto. by apply numeral_not_inherited in Hproto.
  - by rewrite bool_decide_eq_true_2.
Qed.

Lemma join_taken ctx s m i p :
  JS.is_nullish (Req.playerID (body ctx)) = false →
  JS.truthy (Req.playerName (body ctx)) = true →
  db s !! params_id ctx = Some m →
  players_get (players m) (Req.playerID (body ctx)) = Some (i, p) →
  JS.truthy (opt_val (name p)) = true →
  rejects 409 (join lobbyConfig ctx s) s.
Proof.
  intros Hid Hname Hm (key & Hkey & Hp)%players_at_own Hseated.
  unfold join, rejects. run_handler.
  rewrite Hid, Hname. simpl. rewrite Hm. simpl. rewrite Hkey. simpl.
  rewrite Hp. simpl. rewrite Hseated. simpl. by eexists.
Qed.

Lemma join_open ctx s m i p :
  JS.is_nullish (Req.playerID (body ctx)) = false →
  JS.truthy (Req.playerName (body ctx)) = true →
  db s !! params_id ctx = Some m →
  players_get (players m) (Req.playerID (body ctx)) = Some (i, p) →
  JS.truthy (opt_val (name p)) = false →
  let key := generateCredentials lobbyConfig (ticks s) in
  let d := if JS.truthy (Req.data (body ctx))
           then Some (Req.data (body ctx)) else data p in
  let p' := mkPlayer (id p) (Some (Req.playerName (body ctx))) (Some key) d in
  join lobbyConfig ctx s
  = (Ok key,
     mkServer (<[params_id ctx := set_players (<[i := p']> (players m)) m]> (db s))
              (S (ticks s))).
Proof.
  intros Hid Hname Hm (key & Hkey & Hp)%players_at_own Hopen.
  unfold join. run_handler.
  rewrite Hid, Hname. simpl. rewrite Hm. simpl. rewrite Hkey. simpl.
  rewrite Hp. simpl. rewrite Hopen. simpl.
  by destruct (JS.truthy (Req.data (body ctx))).
Qed.

(** C5. What [join] does. Without [playerID] or [playerName] it is refused
    with 403, for a room that does not exist with 404, and a refused join
    changes nothing. Joining an open slot seats the player under the given
    name with the credentials just drawn from the generator, which are
    returned; any later join that names that slot is refused with 409 and
    changes nothing, so the slot keeps the name and credentials of the
    first joiner. A [playerID] that is no slot of the room is refused with
    404 only when it is no member of [Object.prototype] either: the
    handler finds the inherited member where it looks for the slot, so a
    join with "constructor" or another inherited method is refused with
    409, and a join with "__proto__" passes both checks and goes on to
    write the name and the credentials on [Object.prototype]. A
    [playerID] whose conversion to a key throws ends in the uncaught
    [TypeError]. *)
Theorem join_contract ctx s :
  (JS.is_nullish (Req.playerID (body ctx)) = true
   ∨ JS.truthy (Req.playerName (body ctx)) = false →
   rejects 403 (join lobbyConfig ctx s) s)
  ∧ (JS.is_nullish (Req.playerID (body ctx)) = false →
     JS.truthy (Req.playerName (body ctx)) = true →
     (db s !! params_id ctx = None → rejects 404 (join lobbyConfig ctx s) s)
     ∧ ∀ m, db s !! params_id ctx = Some m →
         (JS.to_string (Req.playerID (body ctx)) = None →
          join lobbyConfig ctx s = (Throw TypeError, s))
         ∧ ∀ key, JS.to_string (Req.playerID (body ctx)) = Some key →
             (key ∉ Object_keys (players m) → key ∉ Object_prototype →
              rejects 404 (join lobbyConfig ctx s) s)
             ∧ (key ∈ Object_prototype → key ≠ "__proto__" →
                rejects 409 (join lobbyConfig ctx s) s)
             ∧ (key = "__proto__" →
                join lobbyConfig ctx s = (Beyond "__proto__", s)))
  ∧ (∀ m i p,
     JS.is_nullish (Req.playerID (body ctx)) = false →
     JS.truthy (Req.playerName (body ctx)) = true →
     db s !! params_id ctx = Some m →
     players_get (players m) (Req.playerID (body ctx)) = Some (i, p) →
     name p = None →
     ∃ s' m' p',
       join lobbyConfig ctx s = (Ok (generateCredentials lobbyConfig (ticks s)), s')
       ∧ db s' !! params_id ctx = Some m'
       ∧ players m' !! i = Some p'
       ∧ id p' = id p
       ∧ name p' = Some (Req.playerName (body ctx))
       ∧ credentials p' = Some (generateCredentials lobbyConfig (ticks s))
       ∧ (∀ j, j ≠ i → players m' !! j = players m !! j)
       ∧ ∀ ctx2 q,
           params_id ctx2 = params_id ctx →
           JS.is_nullish (Req.playerID (body ctx2)) = false →
           JS.truthy (Req.playerName (body ctx2)) = true →
           players_get (players m) (Req.playerID (body ctx2)) = Some (i, q) →
           rejects 409 (join lobbyConfig ctx2 s') s').
Proof.
  split; [apply join_missing_field|]. split.
  { intros Hid Hname. split; [by apply join_no_room|]. intros m Hm.
    pose proof (join_key ctx s m Hid Hname Hm) as Hrun.
    split.
    - intros Hkey. by rewrite Hkey in Hrun.
    - intros key Hkey. rewrite Hkey in Hrun. split; [|split].
      + intros Hown Hproto. rewrite players_at_None in Hrun by done.
        by eexists.
      + intros Hproto Hne. rewrite players_at_Inherited in Hrun by done.
        unfold inherited_name in Hrun.
        rewrite bool_decide_eq_false_2 in Hrun by done.
        destruct (bool_decide (key = "constructor")).
        * simpl in Hrun. by eexists.
        * assert (JS.truthy (VStr key) = true) as Htruthy.
          { simpl. rewrite bool_decide_eq_false_2; [done|].
            intros ->. apply (bool_decide_eq_true_2 _) in Hproto.
            by vm_compute in Hproto. }
          rewrite Htruthy in Hrun. by eexists.
      + intros ->.
        by rewrite players_at_Inherited in Hrun
          by (apply (bool_decide_unpack _); by vm_compute). }
  intros m i p Hid Hname Hm Hp Hopen.
  pose proof (join_open ctx s m i p Hid Hname Hm Hp) as Hrun.
  rewrite Hopen in Hrun. specialize (Hrun eq_refl). simpl in Hrun.
  apply players_get_Some in Hp as [Hkey Hi].
  pose proof (lookup_lt_Some _ _ _ Hi) as Hlt.
  eexists _, _, _. split; [exact Hrun|]. simpl.
  split; [apply lookup_insert_eq|]. simpl.
  split; [by apply list_lookup_insert_eq|].
  do 3 (split; [done|]).
  split; [intros j Hj; by apply list_lookup_insert_ne|].
  intros ctx2 q Hgid Hid2 Hname2 Hq.
  eapply join_taken; [done|done| | |].
  - rewrite Hgid. simpl. apply lookup_insert_eq.
  - simpl. by eapply players_get_insert.
  - simpl. done.
Qed.

(** ** C6: leaving *)

Lemma leave_run ctx s m i p :
  JS.is_nullish (Req.playerID (body ctx)) = false →
  db s !! params_id ctx = Some m →
  players_get (players m) (Req.playerID (body ctx)) = Some (i, p) →
  JS.strict_eq (Req.credentials (body ctx)) (str_val (credentials p)) = true →
  let ps' := <[i := mkPlayer (id p) None None (data p)]> (players m) in
  leave ctx s
  = (Ok tt,
     mkServer (if existsb seated ps'
               then <[params_id ctx := set_players ps' m]> (db s)
               else delete (params_id ctx) (db s))
              (ticks s)).
Proof.
  intros Hid Hm (key & Hkey & Hp)%players_at_own Hcred. unfold leave. run_handler.
  rewrite Hid. simpl. rewrite Hm. simpl. rewrite Hkey. simpl. rewrite Hp. simpl.
  rewrite Hcred. simpl. unfold seated. by destruct (existsb _ _).
Qed.

Lemma getRoom_missing ctx s :
  db s !! params_id ctx = None → rejects 404 (getRoom ctx s) s.
Proof. intros H. unfold getRoom, rejects. run_handler. rewrite H. by eexists. Qed.

(** C6. A leave with the credentials of the slot clears the name and the
    credentials of that slot and of no other. When some slot is still
    seated afterwards the record with the cleared slot is what the store
    holds for the room; when none is, the store holds nothing for the room
    any more and fetching the room answers 404. Other rooms are as they
    were. *)
Theorem leave_clears_then_keeps_or_wipes ctx s m i p :
  JS.is_nullish (Req.playerID (body ctx)) = false →
  db s !! params_id ctx = Some m →
  players_get (players m) (Req.playerID (body ctx)) = Some (i, p) →
  JS.strict_eq (Req.credentials (body ctx)) (str_val (credentials p)) = true →
  ∃ s' ps' p',
    leave ctx s = (Ok tt, s')
    ∧ length ps' = length (players m)
    ∧ ps' !! i = Some p'
    ∧ name p' = None ∧ credentials p' = None ∧ id p' = id p ∧ data p' = data p
    ∧ (∀ j, j ≠ i → ps' !! j = players m !! j)
    ∧ (∀ g, g ≠ params_id ctx → db s' !! g = db s !! g)
    ∧ ((∃ q, q ∈ ps' ∧ seated q = true)
       ∧ db s' !! params_id ctx = Some (set_players ps' m)
       ∨ (∀ q, q ∈ ps' → seated q = false)
         ∧ db s' !! params_id ctx = None
         ∧ ∀ ctx2, params_id ctx2 = params_id ctx → rejects 404 (getRoom ctx2 s') s').
Proof.
  intros Hid Hm Hp Hcred.
  pose proof (leave_run ctx s m i p Hid Hm Hp Hcred) as Hrun. simpl in Hrun.
  apply players_get_Some in Hp as [_ Hi].
  pose proof (lookup_lt_Some _ _ _ Hi) as Hlt.
  set (ps' := <[i := mkPlayer (id p) None None (data p)]> (players m)) in *.
  eexists _, ps', _. split; [exact Hrun|].
  split; [apply length_insert|].
  split; [by apply list_lookup_insert_eq|].
  do 4 (split; [done|]).
  split; [intros j Hj; by apply list_lookup_insert_ne|].
  destruct (existsb seated ps') eqn:Hex; simpl.
  - split; [intros g Hg; by apply lookup_insert_ne|]. left.
    apply existsb_exists in Hex as (q & Hq & Hs).
    split; [exists q; split; [by apply list_elem_of_In|done]|].
    apply lookup_insert_eq.
  - split; [intros g Hg; by apply lookup_delete_ne|]. right.
    assert (∀ q, q ∈ ps' → seated q = false) as Hnone.
    { intros q Hq. destruct (seated q) eqn:Hs; [|done].
      assert (existsb seated ps' = true) as Hyes; [|congruence].
      apply existsb_exists. exists q. split; [by apply list_elem_of_In|done]. }
    split; [done|]. split; [apply lookup_delete_eq|].
    intros ctx2 Hgid. apply getRoom_missing. simpl. rewrite Hgid.
    apply lookup_delete_eq.
Qed.

(** ** C2: a credential that is not the stored one *)

Lemma leave_mismatch ctx s m i p :
  db s !! params_id ctx = Some m →
  players_get (players m) (Req.playerID (body ctx)) = Some (i, p) →
  JS.strict_eq (Req.credentials (body ctx)) (str_val (credentials p)) = false →
  JS.is_nullish (Req.playerID (body ctx)) = false →
  leave ctx s = (Throw (invalid_credentials (Req.credentials (body ctx))), s).
Proof.
  intros Hm (key & Hkey & Hp)%players_at_own Hcred Hid.
  unfold leave, invalid_credentials. run_handler.
  rewrite Hid. simpl. rewrite Hm. simpl. rewrite Hkey. simpl. rewrite Hp. simpl.
  rewrite Hcred. simpl. by destruct (JS.to_string (Req.credentials _)).
Qed.

Lemma playAgain_mismatch ctx s m i p :
  db s !! params_id ctx = Some m →
  players_get (players m) (Req.playerID (body ctx)) = Some (i, p) →
  JS.strict_eq (Req.credentials (body ctx)) (str_val (credentials p)) = false →
  JS.is_nullish (Req.playerID (body ctx)) = false →
  playAgain games lobbyConfig ctx s
  = (Throw (invalid_credentials (Req.credentials (body ctx))), s).
Proof.
  intros Hm (key & Hkey & Hp)%players_at_own Hcred Hid.
  unfold playAgain, invalid_credentials. run_handler.
  rewrite Hid. simpl. rewrite Hm. simpl. rewrite Hkey. simpl. rewrite Hp. simpl.
  rewrite Hcred. simpl. by destruct (JS.to_string (Req.credentials _)).
Qed.

Lemma update_mismatch ctx s m i p :
  db s !! params_id ctx = Some m →
  players_get (players m) (Req.playerID (body ctx)) = Some (i, p) →
  JS.strict_eq (Req.credentials (body ctx)) (str_val (credentials p)) = false →
  JS.is_undefined (Req.playerID (body ctx)) = false →
  JS.is_undefined (Req.data (body ctx)) && negb (JS.truthy (Req.newName (body ctx)))
    = false →
  JS.truthy (Req.newName (body ctx)) && negb (JS.is_string (Req.newName (body ctx)))
    = false →
  updatePlayerMetadata ctx s
  = (Throw (invalid_credentials (Req.credentials (body ctx))), s).
Proof.
  intros Hm (key & Hkey & Hp)%players_at_own Hcred Hid Hdata Hname.
  unfold updatePlayerMetadata, invalid_credentials. run_handler.
  rewrite Hid. simpl. rewrite Hdata. simpl. rewrite Hname. simpl.
  rewrite Hm. simpl. rewrite Hkey. simpl. rewrite Hp. simpl.
  rewrite Hcred. simpl. by destruct (JS.to_string (Req.credentials _)).
Qed.

Lemma rejoin_mismatch ctx s m i p :
  db s !! params_id ctx = Some m →
  list_find (λ q, JS.strict_eq (opt_val (name q)) (Req.playerName (body ctx)) = true)
            (players m) = Some (i, p) →
  JS.strict_eq (Req.credentials (body ctx)) (str_val (credentials p)) = false →
  JS.truthy (Req.playerName (body ctx)) = true →
  RejoinGame ctx s
  = (Throw (invalid_credentials (Req.credentials (body ctx))), s).
Proof.
  intros Hm Hp Hcred Hname. unfold RejoinGame, invalid_credentials. run_handler.
  rewrite Hname. simpl. rewrite Hm. simpl. rewrite Hp. simpl.
  rewrite Hcred. simpl. by destruct (JS.to_string (Req.credentials _)).
Qed.

(** The fields that leave and playAgain, update, and rejoin check before
    the credential. *)
Lemma leave_early ctx s :
  JS.is_nullish (Req.playerID (body ctx)) = true → rejects 403 (leave ctx s) s.
Proof.
  intros Hid. unfold leave, rejects. run_handler. rewrite Hid. by eexists.
Qed.

Lemma playAgain_early ctx s :
  JS.is_nullish (Req.playerID (body ctx)) = true →
  rejects 403 (playAgain games lobbyConfig ctx s) s.
Proof.
  intros Hid. unfold playAgain, rejects. run_handler. rewrite Hid. by eexists.
Qed.

Lemma update_early ctx s :
  JS.is_undefined (Req.playerID (body ctx))
  || JS.is_undefined (Req.data (body ctx)) && negb (JS.truthy (Req.newName (body ctx)))
  || JS.truthy (Req.newName (body ctx)) && negb (JS.is_string (Req.newName (body ctx)))
  = true →
  rejects 403 (updatePlayerMetadata ctx s) s.
Proof.
  intros H. unfold updatePlayerMetadata, rejects. run_handler.
  destruct (JS.is_undefined (Req.playerID _)); simpl; [by eexists|].
  destruct (_ && _); simpl; [by eexists|].
  destruct (_ && _); simpl; [by eexists|done].
Qed.

Lemma rejoin_early ctx s :
  JS.truthy (Req.playerName (body ctx)) = false → rejects 403 (RejoinGame ctx s) s.
Proof.
  intros Hname. unfold RejoinGame, rejects. run_handler. rewrite Hname. by eexists.
Qed.

(** A credential that has a string and is not the stored one is refused
    with 403, whatever the other fields are. *)
Lemma leave_refuses ctx s m i p text :
  db s !! params_id ctx = Some m →
  players_get (players m) (Req.playerID (body ctx)) = Some (i, p) →
  JS.strict_eq (Req.credentials (body ctx)) (str_val (credentials p)) = false →
  JS.to_string (Req.credentials (body ctx)) = Some text →
  rejects 403 (leave ctx s) s.
Proof.
  intros Hm Hp Hcred Htext.
  destruct (JS.is_nullish (Req.playerID (body ctx))) eqn:Hid; [by apply leave_early|].
  rewrite (leave_mismatch ctx s m i p) by done.
  unfold invalid_credentials. rewrite Htext. by eexists.
Qed.

Lemma playAgain_refuses ctx s m i p text :
  db s !! params_id ctx = Some m →
  players_get (players m) (Req.playerID (body ctx)) = Some (i, p) →
  JS.strict_eq (Req.credentials (body ctx)) (str_val (credentials p)) = false →
  JS.to_string (Req.credentials (body ctx)) = Some text →
  rejects 403 (playAgain games lobbyConfig ctx s) s.
Proof.
  intros Hm Hp Hcred Htext.
  destruct (JS.is_nullish (Req.playerID (body ctx))) eqn:Hid;
    [by apply playAgain_early|].
  rewrite (playAgain_mismatch ctx s m i p) by done.
  unfold invalid_credentials. rewrite Htext. by eexists.
Qed.

Lemma update_refuses ctx s m i p text :
  db s !! params_id ctx = Some m →
  players_get (players m) (Req.playerID (body ctx)) = Some (i, p) →
  JS.strict_eq (Req.credentials (body ctx)) (str_val (credentials p)) = false →
  JS.to_string (Req.credentials (body ctx)) = Some text →
  rejects 403 (updatePlayerMetadata ctx s) s.
Proof.
  intros Hm Hp Hcred Htext.
  destruct (JS.is_undefined (Req.playerID (body ctx))
            || JS.is_undefined (Req.data (body ctx))
               && negb (JS.truthy (Req.newName (body ctx)))
            || JS.truthy (Req.newName (body ctx))
               && negb (JS.is_string (Req.newName (body ctx)))) eqn:Hearly;
    [by apply update_early|].
  apply orb_false_elim in Hearly as [[H1 H2]%orb_false_elim H3].
  rewrite (update_mismatch ctx s m i p) by done.
  unfold invalid_credentials. rewrite Htext. by eexists.
Qed.

Lemma rejoin_refuses ctx s m i p text :
  db s !! params_id ctx = Some m →
  list_find (λ q, JS.strict_eq (opt_val (name q)) (Req.playerName (body ctx)) = true)
            (players m) = Some (i, p) →
  JS.strict_eq (Req.credentials (body ctx)) (str_val (credentials p)) = false →
  JS.to_string (Req.credentials (body ctx)) = Some text →
  rejects 403 (RejoinGame ctx s) s.
Proof.
  intros Hm Hp Hcred Htext.
  destruct (JS.truthy (Req.playerName (body ctx))) eqn:Hname;
    [|by apply rejoin_early].
  rewrite (rejoin_mismatch ctx s m i p) by done.
  unfold invalid_credentials. rewrite Htext. by eexists.
Qed.

(** C2. In an existing room, take a request whose credential is not
    strictly equal to the one stored on the slot it aims at (the slot of
    [playerID] for leave, update and playAgain, the first slot with the
    name [playerName] for rejoin). Each of the four handlers changes
    nothing, whatever the other fields are. When the credential converts
    to a string the handler ends with status 403, and with the error of
    the credential check, 'Invalid credentials ' followed by that string,
    when the fields checked before the credential are in order. When the
    credential does not convert to a string (an object with an own
    property [toString]) and the earlier fields are in order, building
    the message of the error throws and the handler ends in the uncaught
    [TypeError], not with status 403. *)
Theorem credential_mismatch_rejected ctx s m :
  db s !! params_id ctx = Some m →
  let supplied := Req.credentials (body ctx) in
  let early :=
    JS.is_undefined (Req.playerID (body ctx))
    || JS.is_undefined (Req.data (body ctx)) && negb (JS.truthy (Req.newName (body ctx)))
    || JS.truthy (Req.newName (body ctx)) && negb (JS.is_string (Req.newName (body ctx))) in
  (∀ i p,
     players_get (players m) (Req.playerID (body ctx)) = Some (i, p) →
     JS.strict_eq supplied (str_val (credentials p)) = false →
     (∀ text, JS.to_string supplied = Some text →
        let refusal := HttpError 403 ("Invalid credentials " +:+ text) in
        rejects 403 (leave ctx s) s
        ∧ rejects 403 (updatePlayerMetadata ctx s) s
        ∧ rejects 403 (playAgain games lobbyConfig ctx s) s
        ∧ (JS.is_nullish (Req.playerID (body ctx)) = false →
           leave ctx s = (Throw refusal, s)
           ∧ playAgain games lobbyConfig ctx s = (Throw refusal, s))
        ∧ (early = false → updatePlayerMetadata ctx s = (Throw refusal, s)))
     ∧ (JS.to_string supplied = None →
        (JS.is_nullish (Req.playerID (body ctx)) = false →
         leave ctx s = (Throw TypeError, s)
         ∧ playAgain games lobbyConfig ctx s = (Throw TypeError, s))
        ∧ (early = false → updatePlayerMetadata ctx s = (Throw TypeError, s))))
  ∧ (∀ i p,
     list_find (λ q, JS.strict_eq (opt_val (name q)) (Req.playerName (body ctx)) = true)
               (players m) = Some (i, p) →
     JS.strict_eq supplied (str_val (credentials p)) = false →
     (∀ text, JS.to_string supplied = Some text →
        rejects 403 (RejoinGame ctx s) s
        ∧ (JS.truthy (Req.playerName (body ctx)) = true →
           RejoinGame ctx s
           = (Throw (HttpError 403 ("Invalid credentials " +:+ text)), s)))
     ∧ (JS.to_string supplied = None →
        JS.truthy (Req.playerName (body ctx)) = true →
        RejoinGame ctx s = (Throw TypeError, s))).
Proof.
  intros Hm supplied early. split.
  - intros i p Hp Hcred.
    pose proof (leave_mismatch ctx s m i p Hm Hp Hcred) as Hl.
    pose proof (playAgain_mismatch ctx s m i p Hm Hp Hcred) as Hr.
    pose proof (update_mismatch ctx s m i p Hm Hp Hcred) as Hu.
    assert (early = false →
            updatePlayerMetadata ctx s = (Throw (invalid_credentials supplied), s))
      as Hu'.
    { unfold early. intros [[H1 H2]%orb_false_elim H3]%orb_false_elim.
      by apply Hu. }
    unfold invalid_credentials in Hl, Hr, Hu'. fold supplied in Hl, Hr, Hu'.
    split.
    + intros text Htext refusal. rewrite Htext in Hl, Hr, Hu'.
      split; [by eapply leave_refuses|].
      split; [by eapply update_refuses|].
      split; [by eapply playAgain_refuses|].
      split; [|done]. intros Hid. by rewrite Hl, Hr.
    + intros Htext. rewrite Htext in Hl, Hr, Hu'. split; [|done].
      intros Hid. by rewrite Hl, Hr.
  - intros i p Hp Hcred.
    pose proof (rejoin_mismatch ctx s m i p Hm Hp Hcred) as Hr.
    unfold invalid_credentials in Hr. fold supplied in Hr. split.
    + intros text Htext. rewrite Htext in Hr. split; [|done].
      by eapply rejoin_refuses.
    + intros Htext. by rewrite Htext in Hr.
Qed.

(** ** C4: asking for a successor twice *)

Lemma truthy_VStr s : JS.truthy (VStr s) = true ↔ s ≠ "".
Proof.
  simpl. unfold bool_decide. destruct (decide_rel _ _ _); simpl; split; congruence.
Qed.

(** A room that records a successor answers with it and changes nothing. *)
Lemma playAgain_recorded ctx s m next :
  db s !! params_id ctx = Some m →
  nextRoomID m = Some next →
  next ≠ "" →
  (∃ r, playAgain games lobbyConfig ctx s = (r, s) ∧ ∀ id2, r = Ok id2 → id2 = next)
  ∧ (∀ i p,
       JS.is_nullish (Req.playerID (body ctx)) = false →
       players_get (players m) (Req.playerID (body ctx)) = Some (i, p) →
       JS.strict_eq (Req.credentials (body ctx)) (str_val (credentials p)) = true →
       playAgain games lobbyConfig ctx s = (Ok next, s)).
Proof.
  intros Hm Hnext Hne. apply truthy_VStr in Hne.
  unfold playAgain. run_handler. rewrite Hm. split.
  - destruct (JS.is_nullish _); simpl; [by eexists|].
    destruct (JS.to_string (Req.playerID _)) as [key|]; simpl; [|by eexists].
    destruct (players_at _ _) as [member|]; simpl; [|by eexists].
    destruct (JS.strict_eq _ _); simpl.
    + rewrite Hnext, Hne. eexists. split; [done|]. by intros ? [= <-].
    + destruct (JS.to_string (Req.credentials _)); simpl; by eexists.
  - intros i p -> (key & -> & ->)%players_at_own Hcred. simpl.
    rewrite Hcred. simpl. by rewrite Hnext, Hne.
Qed.

(** What a successful playAgain leaves behind. *)
Lemma playAgain_records ctx s s1 id1 :
  (∀ n, uuid lobbyConfig n ≠ "") →
  playAgain games lobbyConfig ctx s = (Ok id1, s1) →
  id1 ≠ ""
  ∧ ∃ m m1, db s !! params_id ctx = Some m
            ∧ db s1 !! params_id ctx = Some m1
            ∧ nextRoomID m1 = Some id1
            ∧ players m1 = players m.
Proof.
  intros Huuid. unfold playAgain. run_handler.
  destruct (JS.is_nullish _); simpl; [done|].
  destruct (db s !! params_id ctx) as [m|] eqn:Hm; simpl; [|done].
  destruct (JS.to_string (Req.playerID _)) as [key|]; simpl; [|done].
  destruct (players_at _ _) as [member|]; simpl; [|done].
  destruct (JS.strict_eq _ _); simpl;
    [|by destruct (JS.to_string (Req.credentials _))].
  assert (fresh_room games lobbyConfig ctx m s = (Ok id1, s1) →
          id1 ≠ "" ∧ ∃ m0 m1, Some m = Some m0
            ∧ db s1 !! params_id ctx = Some m1 ∧ nextRoomID m1 = Some id1
            ∧ players m1 = players m0)
    as Hfresh.
  { unfold fresh_room. run_handler.
    destruct (parseInt (Req.numPlayers (body ctx))) as [numPlayers|]; [|done].
    destruct (find_game games (params_name ctx)) as [game|]; [|done].
    edestruct (CreateGame_run game) as (m' & -> & _). simpl.
    intros [= <- <-]. split; [apply Huuid|].
    eexists m, _. split; [done|]. simpl. split; [apply lookup_insert_eq|].
    by split. }
  destruct (nextRoomID m) as [existing|] eqn:Hnext; [|exact Hfresh].
  destruct (negb (bool_decide (existing = ""))) eqn:Htruthy; [|exact Hfresh].
  intros [= <- <-]. split; [apply truthy_VStr; exact Htruthy|].
  by eexists m, m.
Qed.

(** C4. Once a playAgain request has succeeded with [id1], the room
    records [id1] as its successor, and every later playAgain request for
    that room, whatever its arguments, leaves the whole server state as it
    is (no further room is created) and, unless it is refused, answers
    [id1]; it is not refused when it carries the credentials of the slot
    it names. The identifiers drawn from the lobby are non-empty strings. *)
Theorem playAgain_idempotent ctx1 ctx2 s s1 id1 :
  (∀ n, uuid lobbyConfig n ≠ "") →
  playAgain games lobbyConfig ctx1 s = (Ok id1, s1) →
  params_id ctx2 = params_id ctx1 →
  ∃ m1,
    db s1 !! params_id ctx1 = Some m1
    ∧ nextRoomID m1 = Some id1
    ∧ (∃ r, playAgain games lobbyConfig ctx2 s1 = (r, s1)
            ∧ ∀ id2, r = Ok id2 → id2 = id1)
    ∧ (∀ i p,
         JS.is_nullish (Req.playerID (body ctx2)) = false →
         players_get (players m1) (Req.playerID (body ctx2)) = Some (i, p) →
         JS.strict_eq (Req.credentials (body ctx2)) (str_val (credentials p)) = true →
         playAgain games lobbyConfig ctx2 s1 = (Ok id1, s1)).
Proof.
  intros Huuid Hfirst Hgid.
  destruct (playAgain_records ctx1 s s1 id1 Huuid Hfirst)
    as (Hne & m & m1 & Hm & Hm1 & Hnext & _).
  exists m1. do 2 (split; [done|]).
  rewrite <- Hgid in Hm1.
  exact (playAgain_recorded ctx2 s1 m1 id1 Hm1 Hnext Hne).
Qed.

End ApiFacts.

(** ** C10: a slot without [data] *)

Lemma scan_players_no_data ps ids i p playerArray adminArray :
  i ∈ ids →
  ps !! i = Some p →
  JS.is_nullish (opt_val (data p)) = true →
  scan_players ps ids playerArray adminArray = None.
Proof.
  intros Hin Hp Hdata. revert playerArray adminArray.
  induction ids as [|id ids IH]; intros playerArray adminArray.
  { by apply elem_of_nil in Hin. }
  simpl. destruct (decide (id = i)) as [->|Hne].
  - rewrite Hp. simpl. by destruct (opt_val (data p)).
  - apply elem_of_cons in Hin as [?|Hin]; [congruence|].
    destruct (ps !! id) as [q|]; simpl; [|done].
    destruct (JS.get_prop _ "player"); simpl; [|done].
    destruct (JS.get_prop _ "admin"); simpl; [|done].
    by apply IH.
Qed.

(** C10. In an existing room, for a request that names a number of teams,
    a single slot whose [data] is absent (the player joined without
    [data], or nobody joined) makes [CreateTeam] end in the uncaught
    [TypeError] of the eligibility scan, with nothing persisted: the slot
    is not skipped and the request is answered neither normally nor with
    403 or 404. *)
Theorem CreateTeam_slot_without_data ctx s m t i p :
  db s !! params_id ctx = Some m →
  Req.numOfTeams (body ctx) = Some t →
  players m !! i = Some p →
  JS.is_nullish (opt_val (data p)) = true →
  CreateTeam ctx s = (Throw TypeError, s).
Proof.
  intros Hm Ht Hp Hdata. unfold CreateTeam. run_handler.
  rewrite Ht, Hm. simpl. unfold form_teams.
  rewrite (scan_players_no_data (players m) _ i p); [done| |done|done].
  apply elem_of_seq. apply lookup_lt_Some in Hp. lia.
Qed.

(** ** C9: what [CreateTeam] validates *)

Lemma form_teams_players m t m' teams :
  form_teams m t = Some (m', teams) →
  form_teams (set_setupData None m) t
  = Some (set_setupData None (set_players (players m') m), teams).
Proof.
  unfold form_teams. simpl.
  destruct (scan_players _ _ _ _) as [[playerArray adminArray]|]; simpl; [|done].
  destruct (fill_teams _ _ _ _ _ _ _) as [[[[ps playerID] teams1] leaders]|];
    simpl; [|done].
  destruct (if negb _ then _ else _) as [[[ps2 playerID2] teams2]|]; simpl; [|done].
  destruct (JS.truthy (opt_val (setupData m))); simpl.
  - destruct (record_teams _ _ _ _ _); simpl; [|done]. by intros [= <- <-].
  - by intros [= <- <-].
Qed.

(** C9 (as amended). [CreateTeam] answers 403 exactly when [numOfTeams]
    is absent, and whenever it fails, with whatever error, nothing has been
    persisted. A room without [setupData] is not refused: where forming
    teams succeeds for a room, it succeeds for the same room stripped of
    its [setupData] too, with the same teams returned and the same player
    records persisted, and the stored record still has no [setupData]. *)
Theorem CreateTeam_validation ctx s :
  (Req.numOfTeams (body ctx) = None →
   CreateTeam ctx s = (Throw (HttpError 403 "Define number of team"), s))
  ∧ (∀ e s', CreateTeam ctx s = (Throw e, s') →
       s' = s ∧ ∀ message, e = HttpError 403 message →
                           Req.numOfTeams (body ctx) = None)
  ∧ (∀ m teams s',
       db s !! params_id ctx = Some m →
       CreateTeam ctx s = (Ok teams, s') →
       ∃ m',
         s' = mkServer (<[params_id ctx := m']> (db s)) (ticks s)
         ∧ let bare := mkServer (<[params_id ctx := set_setupData None m]> (db s))
                                (ticks s) in
           CreateTeam ctx bare
           = (Ok teams,
              mkServer (<[params_id ctx :=
                            set_setupData None (set_players (players m') m)]> (db bare))
                       (ticks s))).
Proof.
  unfold CreateTeam. run_handler. split; [by intros ->|]. split.
  - intros e s'. destruct (Req.numOfTeams (body ctx)) as [t|]; simpl.
    + destruct (db s !! params_id ctx) as [m|]; simpl.
      * destruct (form_teams m t) as [[m' teams]|]; simpl; [done|].
        intros [= <- <-]. split; [done|]. by intros.
      * intros [= <- <-]. split; [done|]. by intros.
    + by intros [= <- <-].
  - intros m teams s' Hm. rewrite Hm.
    destruct (Req.numOfTeams (body ctx)) as [t|]; simpl; [|done].
    destruct (form_teams m t) as [[m' teams']|] eqn:Hform; simpl; [|done].
    intros [= <- <-]. exists m'. split; [done|].
    rewrite lookup_insert_eq. simpl.
    by rewrite (form_teams_players m t m' teams').
Qed.

(** ** C2, C4, C5, C6, C9 and C10 at concrete rooms *)

Lemma join_contract_witness :
  let s := Demo.room 2 in
  rejects 403 (join Demo.lobby (Demo.ctx Req.empty) s) s
  ∧ rejects 404 (join Demo.lobby (Demo.ctx (Demo.join_body 7 "A" VUndefined)) s) s
  ∧ join Demo.lobby (Demo.ctx (Demo.join_as (VStr "__proto__") "A")) s
    = (Beyond "__proto__", s)
  ∧ rejects 409 (join Demo.lobby (Demo.ctx (Demo.join_as (VStr "constructor") "A")) s) s
  ∧ join Demo.lobby (Demo.ctx (Demo.join_as (VObj [("toString", VNum 1)]) "A")) s
    = (Throw TypeError, s)
  ∧ ∃ s' m' p',
      join Demo.lobby (Demo.ctx (Demo.join_body 0 "A" VUndefined)) s = (Ok "key1", s')
      ∧ db s' !! "room0" = Some m'
      ∧ players m' !! 0 = Some p'
      ∧ name p' = Some (VStr "A")
      ∧ credentials p' = Some "key1"
      ∧ rejects 409 (join Demo.lobby (Demo.ctx (Demo.join_body 0 "B" VUndefined)) s') s'.
Proof.
  intros s.
  pose (m := mkMetadata "tic-tac-toe" false (open_slots 2) (Some (VObj [])) None).
  assert (db s !! "room0" = Some m) as Hm by (vm_compute; reflexivity).
  pose proof (λ b Hid Hname,
                proj2 (proj1 (proj2 (join_contract Demo.lobby (Demo.ctx b) s))
                         Hid Hname) m Hm)
    as found.
  split; [|split; [|split; [|split; [|split]]]].
  - apply (proj1 (join_contract Demo.lobby (Demo.ctx Req.empty) s)).
    left. reflexivity.
  - apply (proj1 (proj2 (found (Demo.join_body 7 "A" VUndefined) eq_refl eq_refl)
                          "7" eq_refl));
      apply (bool_decide_unpack _); vm_compute; exact I.
  - apply (proj2 (proj2 (proj2 (found (Demo.join_as (VStr "__proto__") "A") eq_refl eq_refl)
                                 "__proto__" eq_refl))).
    reflexivity.
  - apply (proj1 (proj2 (proj2 (found (Demo.join_as (VStr "constructor") "A") eq_refl eq_refl)
                                 "constructor" eq_refl)));
      [apply (bool_decide_unpack _); vm_compute; exact I | discriminate].
  - apply (proj1 (found (Demo.join_as (VObj [("toString", VNum 1)]) "A") eq_refl eq_refl)).
    reflexivity.
  - destruct (proj2 (proj2 (join_contract Demo.lobby
                (Demo.ctx (Demo.join_body 0 "A" VUndefined)) s))
              m 0 (mkPlayer 0 None None None))
      as (s' & m' & p' & Hrun & Hm' & Hp' & _ & Hname & Hkey & _ & Htaken);
      [reflexivity | reflexivity | exact Hm
      | vm_compute; reflexivity | reflexivity |].
    exists s', m', p'. repeat split; try assumption.
    apply (Htaken (Demo.ctx (Demo.join_body 0 "B" VUndefined))
                  (mkPlayer 0 None None None));
      [reflexivity | reflexivity | reflexivity | vm_compute; reflexivity].
Defined.

Lemma leave_clears_then_keeps_or_wipes_witness :
  let s := Demo.seat [("A", Demo.player)] 0 (Demo.room 2) in
  let ctx := Demo.ctx (Demo.auth_body 0 (VStr "key1")) in
  ∃ s' (ps' : list PlayerMetadata) p',
    leave ctx s = (Ok tt, s')
    ∧ ps' !! 0 = Some p'
    ∧ name p' = None ∧ credentials p' = None
    ∧ ((∃ q, q ∈ ps' ∧ seated q = true)
       ∨ db s' !! "room0" = None
         ∧ rejects 404 (getRoom (Demo.ctx Req.empty) s') s').
Proof.
  intros s ctx.
  destruct (leave_clears_then_keeps_or_wipes ctx s
              (mkMetadata "tic-tac-toe" false
                 [mkPlayer 0 (Some (VStr "A")) (Some "key1") (Some Demo.player);
                  mkPlayer 1 None None None]
                 (Some (VObj [])) None)
              0 (mkPlayer 0 (Some (VStr "A")) (Some "key1") (Some Demo.player)))
    as (s' & ps' & p' & Hrun & _ & Hp' & Hname & Hkey & _ & _ & _ & _ & Hend);
    [reflexivity | vm_compute; reflexivity | vm_compute; reflexivity
    | reflexivity |].
  exists s', ps', p'. repeat split; try assumption.
  destruct Hend as [[Hq _]|(_ & Hgone & Hfetch)]; [by left|].
  right. split; [exact Hgone|]. by apply Hfetch.
Defined.

Lemma credential_mismatch_rejected_witness :
  let s := Demo.seat [("A", Demo.player); ("B", Demo.player)] 0 (Demo.room 2) in
  let ctx := Demo.ctx (Demo.update_body 0 (VStr "key2") (VStr "Z") VUndefined) in
  let again := Demo.ctx (Demo.rejoin_body "A" (VStr "key2")) in
  let object := VObj [("toString", VNum 1)] in
  let ctx' := Demo.ctx (Demo.update_body 0 object (VStr "Z") VUndefined) in
  let again' := Demo.ctx (Demo.rejoin_body "A" object) in
  (rejects 403 (leave ctx s) s
   ∧ rejects 403 (updatePlayerMetadata ctx s) s
   ∧ rejects 403 (playAgain Demo.games Demo.lobby ctx s) s
   ∧ rejects 403 (RejoinGame again s) s)
  ∧ leave ctx' s = (Throw TypeError, s)
  ∧ updatePlayerMetadata ctx' s = (Throw TypeError, s)
  ∧ playAgain Demo.games Demo.lobby ctx' s = (Throw TypeError, s)
  ∧ RejoinGame again' s = (Throw TypeError, s).
Proof.
  intros s ctx again object ctx' again'.
  pose (m := mkMetadata "tic-tac-toe" false
               [mkPlayer 0 (Some (VStr "A")) (Some "key1") (Some Demo.player);
                mkPlayer 1 (Some (VStr "B")) (Some "key2") (Some Demo.player)]
               (Some (VObj [])) None).
  pose (p := mkPlayer 0 (Some (VStr "A")) (Some "key1") (Some Demo.player)).
  assert (db s !! "room0" = Some m) as Hm by (vm_compute; reflexivity).
  pose proof (credential_mismatch_rejected Demo.games Demo.lobby) as Hcheck.
  cbv zeta in Hcheck.
  destruct (proj1 (proj1 (Hcheck ctx s m Hm) 0 p ltac:(vm_compute; reflexivity) eq_refl)
              "key2" eq_refl) as (Hl & Hu & Hp & _).
  destruct (proj1 (proj2 (Hcheck again s m Hm) 0 p ltac:(vm_compute; reflexivity) eq_refl)
              "key2" eq_refl) as [Hr _].
  destruct (proj2 (proj1 (Hcheck ctx' s m Hm) 0 p ltac:(vm_compute; reflexivity) eq_refl)
              eq_refl) as [Hl' Hu'].
  destruct (Hl' eq_refl) as [Hleave Hagain].
  pose proof (proj2 (proj2 (Hcheck again' s m Hm) 0 p ltac:(vm_compute; reflexivity) eq_refl)
                eq_refl eq_refl) as Hr'.
  split; [repeat split; assumption|].
  split; [exact Hleave|]. split; [exact (Hu' eq_refl)|]. split; [exact Hagain|exact Hr'].
Defined.

Lemma playAgain_idempotent_witness :
  let s := Demo.seat [("A", Demo.player); ("B", Demo.player)] 0 (Demo.room 2) in
  let first := Demo.ctx (Demo.auth_body 0 (VStr "key1")) in
  let s1 := Demo.after (playAgain Demo.games Demo.lobby first) s in
  let second :=
    mkCtx "chess" "room0" None
      (Req.mkBody (VNum 1) VUndefined VUndefined (VStr "key2") VUndefined
                  (VObj [("mode", VStr "fast")]) (VBool true) (VNum 5) None) in
  playAgain Demo.games Demo.lobby first s = (Ok "room3", s1)
  ∧ playAgain Demo.games Demo.lobby second s1 = (Ok "room3", s1).
Proof.
  intros s first s1 second.
  assert (playAgain Demo.games Demo.lobby first s = (Ok "room3", s1)) as Hfirst.
  { vm_compute. reflexivity. }
  split; [exact Hfirst|].
  destruct (playAgain_idempotent Demo.games Demo.lobby first second s s1 "room3")
    as (m1 & Hm1 & _ & _ & Hvalid); [by intros n | exact Hfirst | reflexivity |].
  assert (m1 = mkMetadata "tic-tac-toe" false
               [mkPlayer 0 (Some (VStr "A")) (Some "key1") (Some Demo.player);
                mkPlayer 1 (Some (VStr "B")) (Some "key2") (Some Demo.player)]
               (Some (VObj [])) (Some "room3")) as ->.
  { apply (inj Some). rewrite <- Hm1. vm_compute. reflexivity. }
  apply (Hvalid 1 (mkPlayer 1 (Some (VStr "B")) (Some "key2") (Some Demo.player)));
    [reflexivity | vm_compute; reflexivity | reflexivity].
Defined.

Lemma CreateTeam_slot_without_data_witness :
  let s := Demo.seat [("A", Demo.player); ("B", VUndefined)] 0 (Demo.room 2) in
  CreateTeam (Demo.ctx (Demo.teams_body 1)) s = (Throw TypeError, s).
Proof.
  intros s.
  apply (CreateTeam_slot_without_data (Demo.ctx (Demo.teams_body 1)) s
           (mkMetadata "tic-tac-toe" false
              [mkPlayer 0 (Some (VStr "A")) (Some "key1") (Some Demo.player);
               mkPlayer 1 (Some (VStr "B")) (Some "key2") None]
              (Some (VObj [])) None)
           1 1 (mkPlayer 1 (Some (VStr "B")) (Some "key2") None));
    [vm_compute; reflexivity | reflexivity | reflexivity | reflexivity].
Defined.

(** C9 as first stated fails: for a room that has no [setupData] the
    request is answered normally with the teams, and the team assignments
    written to the players are persisted. *)
Lemma CreateTeam_accepts_room_without_setupData :
  (∃ m, db bare_room !! "room0" = Some m ∧ setupData m = None)
  ∧ ∃ s', CreateTeam (Demo.ctx (Demo.teams_body 1)) bare_room
          = (Ok [mkTeam "0" ["0"; "1"]], s')
          ∧ db s' !! "room0" ≠ db bare_room !! "room0".
Proof.
  split.
  - eexists. split; [vm_compute; reflexivity | reflexivity].
  - eexists. split; [vm_compute; reflexivity|]. vm_compute. discriminate.
Qed.

Lemma CreateTeam_validation_witness :
  let ctx := Demo.ctx (Demo.teams_body 1) in
  let s := Demo.seat [("A", Demo.player); ("B", Demo.player)] 0 (Demo.room 2) in
  CreateTeam (Demo.ctx Req.empty) s
  = (Throw (HttpError 403 "Define number of team"), s)
  ∧ (∀ e s', CreateTeam (Demo.ctx (Demo.teams_body 1)) Demo.start = (Throw e, s') →
             s' = Demo.start)
  ∧ ∃ m', CreateTeam ctx bare_room
          = (Ok [mkTeam "0" ["0"; "1"]],
             mkServer (<["room0" := m']> (db bare_room)) (ticks bare_room))
          ∧ setupData m' = None.
Proof.
  intros ctx s. split; [|split].
  - apply (proj1 (CreateTeam_validation (Demo.ctx Req.empty) s)). reflexivity.
  - intros e s' H.
    apply (proj1 (proj2 (CreateTeam_validation
                           (Demo.ctx (Demo.teams_body 1)) Demo.start)) e s' H).
  - pose (m := mkMetadata "tic-tac-toe" false
                 [mkPlayer 0 (Some (VStr "A")) (Some "key1") (Some Demo.player);
                  mkPlayer 1 (Some (VStr "B")) (Some "key2") (Some Demo.player)]
                 (Some (VObj [])) None).
    destruct (proj2 (proj2 (CreateTeam_validation ctx s)) m
                [mkTeam "0" ["0"; "1"]] (Demo.after (CreateTeam ctx) s))
      as (m' & _ & Hbare); [vm_compute; reflexivity | vm_compute; reflexivity |].
    assert (mkServer (<[params_id ctx := set_setupData None m]> (db s)) (ticks s)
            = bare_room) as Hb by (vm_compute; reflexivity).
    cbv zeta in Hbare. rewrite Hb in Hbare.
    eexists. split; [exact Hbare | reflexivity].
Defined.

(** ** C3: a name without credentials *)

(** C3, the code at the failing input. In a new room nobody has joined,
    an update request for slot 0 that carries no credentials at all and a
    new name passes the credential check ([undefined] is what the open
    slot stores) and is persisted: the slot has a name and no
    credentials. *)
Lemma update_names_an_open_slot :
  ∃ s' m p,
    updatePlayerMetadata
      (Demo.ctx (Demo.update_body 0 VUndefined (VStr "eve") VUndefined))
      (Demo.room 2) = (Ok tt, s')
    ∧ db s' !! "room0" = Some m
    ∧ players m !! 0 = Some p
    ∧ name p = Some (VStr "eve")
    ∧ credentials p = None.
Proof.
  eexists _, _, _. split; [vm_compute; reflexivity|].
  split; [vm_compute; reflexivity|]. split; [reflexivity|]. split; reflexivity.
Qed.

(** ** C7: rotating the leader *)

(** The handler, once the room, the team and the members are known. *)
Lemma UpdateLeader_run random ctx s m tid old others :
  db s !! params_id ctx = Some m →
  params_team ctx = Some tid →
  check_team m tid s = (Ok tt, s) →
  classify (players m) (seq 0 (length (players m))) tid None [] = Some (old, others) →
  UpdateLeader random ctx s
  = match others with
    | [] => (Ok None, s)
    | _ :: _ =>
        match rotate m random old others with
        | Some (m', report) =>
            (Ok (Some report), mkServer (<[params_id ctx := m']> (db s)) (ticks s))
        | None => (Throw TypeError, s)
        end
    end.
Proof.
  intros Hm Htid Hcheck Hclass. unfold UpdateLeader, bind, fetch, required, ret.
  rewrite Hm, Htid, Hcheck, Hclass. unfold must, setMetadata.
  destruct others as [|x others]; [done|]. simpl.
  by destruct (rotate _ _ _ _) as [[m' report]|].
Qed.

(** Without a leader to demote the rotation throws. *)
Lemma rotate_no_leader m random others : rotate m random None others = None.
Proof.
  unfold rotate.
  destruct (write_data _ (others !! _) _) as [ps|]; [|done]. simpl.
  by destruct (write_data _ (others !! _) _) as [ps'|].
Qed.

(** C7, the code at the failing input. Three players form team "0" and
    the leader, slot 0, then sends an update with a new payload, which
    replaces its [data] and with it the team assignment. The room still
    records team "0" with the three slots and two of them still carry
    the assignment, none of them flagged leader: the loop leaves
    [playerID_oldLeader] at [''], the handler reads [data] of
    [players['']], and the rotation ends in the uncaught [TypeError]
    whatever the random draw: no new leader, and nothing persisted. *)
Lemma UpdateLeader_after_leader_update :
  (∃ m, db leader_updated !! "room0" = Some m
        ∧ (setupData m ≫= λ sd, JS.get_prop sd "teams")
          = Some (VArr [team_val (mkTeam "0" ["0"; "1"; "2"])] [])
        ∧ (λ p, role "0" (opt_val (data p))) <$> players m
          = [Some None; Some (Some false); Some (Some false)])
  ∧ ∀ random,
      UpdateLeader random (Demo.on_team "0") leader_updated
      = (Throw TypeError, leader_updated).
Proof.
  split.
  - eexists. split; [vm_compute; reflexivity|]. split; vm_compute; reflexivity.
  - intros random.
    destruct (db leader_updated !! "room0") as [m|] eqn:Hm;
      [|by vm_compute in Hm].
    rewrite (UpdateLeader_run random _ _ m "0" None [1; 2]);
      [by rewrite rotate_no_leader | exact Hm | reflexivity | |].
    + revert Hm. vm_compute. intros [= <-]. reflexivity.
    + revert Hm. vm_compute. intros [= <-]. reflexivity.
Qed.

(** *** The members of a team *)

Lemma elem_of_members tid flag ps i :
  i ∈ members tid flag ps ↔ role_at tid ps i = Some (Some flag).
Proof.
  unfold members. rewrite list_elem_of_filter, elem_of_seq. split; [by intros [? _]|].
  intros H. split; [done|]. unfold role_at in H.
  destruct (ps !! i) eqn:E; [|done]. apply lookup_lt_Some in E. lia.
Qed.

Lemma classify_spec ps tid ids old others :
  (∀ i, i ∈ ids → is_Some (role_at tid ps i)) →
  classify ps ids tid old others
  = Some (match last (filter (λ i, role_at tid ps i = Some (Some true)) ids) with
          | Some l => Some l
          | None => old
          end,
          others ++ filter (λ i, role_at tid ps i = Some (Some false)) ids).
Proof.
  revert old others. induction ids as [|id ids IH]; intros old others Hread.
  { simpl. by rewrite app_nil_r. }
  destruct (Hread id) as [r Hr]; [by left|].
  assert (∀ i, i ∈ ids → is_Some (role_at tid ps i)) as Hread'.
  { intros i Hi. apply Hread. by right. }
  simpl. unfold role_at in Hr.
  destruct (ps !! id) as [p|] eqn:Hp; simpl in Hr; [|done]. simpl. rewrite Hr. simpl.
  assert (role_at tid ps id = Some r) as Hat.
  { unfold role_at. by rewrite Hp. }
  destruct r as [[|]|]; rewrite IH by done.
  - rewrite filter_cons_True by done. rewrite filter_cons_False by congruence.
    rewrite last_cons. by destruct (last _).
  - rewrite filter_cons_False by congruence. rewrite filter_cons_True by done.
    by rewrite <- app_assoc.
  - by rewrite !filter_cons_False by congruence.
Qed.

Lemma classify_members ps tid :
  (∀ i p, ps !! i = Some p → is_Some (role tid (opt_val (data p)))) →
  classify ps (seq 0 (length ps)) tid None []
  = Some (last (members tid true ps), members tid false ps).
Proof.
  intros Hread. rewrite classify_spec.
  - unfold members. by destruct (last _).
  - intros i Hi%elem_of_seq. unfold role_at.
    destruct (lookup_lt_is_Some_2 ps i) as [p Hp]; [lia|].
    rewrite Hp. simpl. by eapply Hread.
Qed.

Lemma replace_leader_array items extra old new :
  replace_leader (VArr items extra) old new
  = Some (VArr (replace_first (VStr old) (VStr new) items) extra).
Proof.
  unfold replace_leader. f_equal.
  enough (∀ l, match list_find (λ x, JS.strict_eq x (VStr old) = true) l with
               | Some (index_old, _) => <[index_old := VStr new]> l
               | None => l
               end = replace_first (VStr old) (VStr new) l) as Hl.
  { rewrite <- Hl. by destruct (list_find _ _) as [[? ?]|]. }
  induction l as [|a l IH]; [done|]. simpl.
  destruct (decide (JS.strict_eq a (VStr old) = true)) as [->|Hne]; [done|].
  destruct (JS.strict_eq a (VStr old)); [done|]. rewrite <- IH.
  by destruct (list_find _ l) as [[? ?]|].
Qed.

(** *** Changing the leader flags of a member *)

Lemma role_member tid d b :
  role tid d = Some (Some b) →
  ∃ td t l,
    JS.has_own d "teamData" = Some true
    ∧ JS.get_prop d "teamData" = Some td
    ∧ JS.get_prop td "teamID" = Some t
    ∧ JS.strict_eq t (VStr tid) = true
    ∧ JS.get_prop td "leader" = Some l
    ∧ JS.truthy l = b.
Proof.
  unfold role. destruct (JS.has_own d "teamData") as [[|]|]; simpl; [|done..].
  destruct (JS.get_prop d "teamData") as [td|]; simpl; [|done].
  destruct (JS.get_prop td "teamID") as [t|] eqn:Hid; simpl; [|done].
  destruct (JS.strict_eq t (VStr tid)) eqn:Ht; [|done].
  destruct (JS.get_prop td "leader") as [l|] eqn:Hl; simpl; [|done].
  intros [= <-]. exists td, t, l. repeat split; done.
Qed.

(** The two assignments [data.teamData.leader = b; data.leader = b] on a
    member succeed and change its flag to [b], nothing else of its role. *)
Lemma flag_member tid d b0 b :
  role tid d = Some (Some b0) →
  ∃ d1 d2,
    assign_teamData_leader b d = Some d1
    ∧ assign_leader b d1 = Some d2
    ∧ role tid d2 = Some (Some b)
    ∧ JS.get_prop d2 "leader" = Some (VBool b).
Proof.
  intros (td & t & l & Hhas & Htd & Ht & Heq & Hl & _)%role_member.
  pose proof (has_own_true_object _ _ Hhas) as Hd.
  pose proof (get_prop_string_object _ _ _ _ Ht Heq) as Htdo.
  destruct (set_prop_object td "leader" (VBool b) Htdo) as [td1 Htd1].
  destruct (set_prop_object d "teamData" td1 Hd) as [d1 Hd1].
  destruct (set_prop_Some _ _ _ _ Hd1) as (_ & Hd1o & _).
  destruct (set_prop_object d1 "leader" (VBool b) Hd1o) as [d2 Hd2].
  exists d1, d2. unfold assign_teamData_leader, assign_leader.
  rewrite Htd. simpl. rewrite Htd1. simpl. rewrite Hd1, Hd2.
  do 2 (split; [done|]). split; [|by eapply get_prop_set_eq].
  unfold role.
  rewrite (has_own_set_ne d1 "leader" "teamData" _ d2) by done.
  rewrite (has_own_set_eq d "teamData" _ d1) by done. rewrite Hhas. simpl.
  rewrite (get_prop_set_ne d1 "leader" "teamData" _ d2) by done.
  rewrite (get_prop_set_eq d "teamData" _ d1) by done. simpl.
  rewrite (get_prop_set_ne td "leader" "teamID" _ td1) by done.
  rewrite Ht. simpl. rewrite Heq.
  rewrite (get_prop_set_eq td "leader" _ td1) by done. simpl. done.
Qed.

Lemma get_prop_defined_object v k x :
  JS.get_prop v k = Some x → x ≠ VUndefined → JS.is_object v = true.
Proof.
  unfold JS.get_prop. destruct v; simpl; try done; by intros [= <-].
Qed.

Lemma write_data_Some ps i p f d' :
  ps !! i = Some p →
  f (opt_val (data p)) = Some d' →
  write_data ps (Some i) f = Some (<[i := set_data (Some d') p]> ps).
Proof. intros Hp Hf. unfold write_data. simpl. rewrite Hp. simpl. by rewrite Hf. Qed.

(** The rotation itself, for a team with the leader [old] and the draw
    [new] among the other members. *)
Lemma rotate_run m random tid old others new pn po sd ls lex :
  others !! (random mod length others) = Some new →
  players m !! new = Some pn →
  players m !! old = Some po →
  new ≠ old →
  role tid (opt_val (data pn)) = Some (Some false) →
  role tid (opt_val (data po)) = Some (Some true) →
  setupData m = Some sd →
  JS.get_prop sd "leadersID" = Some (VArr ls lex) →
  ∃ dn dold sd',
    role tid dn = Some (Some true)
    ∧ JS.get_prop dn "leader" = Some (VBool true)
    ∧ role tid dold = Some (Some false)
    ∧ JS.get_prop dold "leader" = Some (VBool false)
    ∧ JS.set_prop sd "leadersID"
        (VArr (replace_first (VStr (pretty old)) (VStr (pretty new)) ls) lex)
      = Some sd'
    ∧ let ps' := <[old := set_data (Some dold) po]>
                   (<[new := set_data (Some dn) pn]> (players m)) in
      rotate m random (Some old) others
      = Some (set_setupData (Some sd') (set_players ps' m),
              mkReport (opt_val (name pn)) (pretty new)
                (VArr (replace_first (VStr (pretty old)) (VStr (pretty new)) ls) lex)
                ps').
Proof.
  intros Hdraw Hpn Hpo Hne Hrn Hro Hsd Hls.
  destruct (flag_member tid _ false true Hrn) as (dn1 & dn & Hn1 & Hn2 & Hrn' & Hln).
  destruct (flag_member tid _ true false Hro) as (do1 & dold & Ho1 & Ho2 & Hro' & Hlo).
  assert (JS.is_object sd = true) as Hobj by (by eapply get_prop_defined_object).
  destruct (set_prop_object sd "leadersID"
              (VArr (replace_first (VStr (pretty old)) (VStr (pretty new)) ls) lex) Hobj)
    as [sd' Hsd'].
  exists dn, dold, sd'. do 5 (split; [done|]). intros ps'.
  pose proof (lookup_lt_Some _ _ _ Hpn) as Hltn.
  pose proof (lookup_lt_Some _ _ _ Hpo) as Hlto.
  unfold rotate. rewrite Hdraw.
  rewrite (write_data_Some _ new pn _ dn1 Hpn Hn1). cbn [mbind option_bind].
  rewrite (write_data_Some _ new (set_data (Some dn1) pn) _ dn);
    [|by apply list_lookup_insert_eq|done].
  cbn [mbind option_bind]. rewrite list_insert_insert_eq.
  rewrite (write_data_Some _ old po _ do1);
    [|by rewrite list_lookup_insert_ne|done].
  cbn [mbind option_bind].
  rewrite (write_data_Some _ old (set_data (Some do1) po) _ dold);
    [|by apply list_lookup_insert_eq; rewrite length_insert|done].
  cbn [mbind option_bind]. rewrite list_insert_insert_eq.
  rewrite Hsd. cbn [mbind option_bind]. rewrite Hls. cbn [mbind option_bind].
  rewrite replace_leader_array. cbn [mbind option_bind].
  rewrite Hsd'. cbn [mbind option_bind].
  change (set_data (Some dn) (set_data (Some dn1) pn)) with (set_data (Some dn) pn).
  change (set_data (Some dold) (set_data (Some do1) po)) with (set_data (Some dold) po).
  fold ps'.
  assert (ps' !! new = Some (set_data (Some dn) pn)) as ->.
  { unfold ps'. rewrite list_lookup_insert_ne by done.
    by apply list_lookup_insert_eq. }
  done.
Qed.

Lemma check_team_found m tid sd ts ex team s :
  setupData m = Some sd →
  JS.truthy sd = true →
  JS.get_prop sd "teams" = Some (VArr ts ex) →
  find_team ts tid = Some (Some team) →
  check_team m tid s = (Ok tt, s).
Proof.
  intros Hsd Ht Hteams Hfind. unfold check_team. rewrite Hsd. simpl. rewrite Ht.
  unfold bind, must. rewrite Hteams. simpl. by rewrite Hfind.
Qed.

Lemma check_team_missing m tid sd ts ex s :
  setupData m = Some sd →
  JS.truthy sd = true →
  JS.get_prop sd "teams" = Some (VArr ts ex) →
  find_team ts tid = Some None →
  check_team m tid s
  = (Throw (HttpError 404 ("Team " +:+ tid +:+ " not found")), s).
Proof.
  intros Hsd Ht Hteams Hfind. unfold check_team. rewrite Hsd. simpl. rewrite Ht.
  unfold bind, must. rewrite Hteams. simpl. by rewrite Hfind.
Qed.

(** What the loop needs of a payload to read it without throwing. *)
Lemma role_is_Some tid d :
  is_Some (role tid d) ↔
  JS.is_nullish d = false
  ∧ JS.assoc_get "hasOwnProperty" (JS.own_props d) = None
  ∧ ∀ td, JS.assoc_get "teamData" (JS.own_props d) = Some td →
          JS.is_nullish td = false.
Proof.
  unfold role, JS.has_own, JS.get_prop.
  destruct (JS.is_nullish d) eqn:Hd; simpl.
  { split; [by intros [? ?]|by intros [? _]]. }
  destruct (JS.assoc_get "hasOwnProperty" _); simpl.
  { split; [by intros [? ?]|by intros (_ & ? & _)]. }
  destruct (JS.assoc_get "teamData" _) as [td|] eqn:Htd; simpl.
  - destruct (JS.is_nullish td) eqn:Hn; simpl.
    + split; [by intros [? ?]|]. intros (_ & _ & H). specialize (H td eq_refl). congruence.
    + split.
      * intros _. split; [done|]. split; [done|]. by intros ? [= <-].
      * intros _. by destruct (JS.strict_eq _ _).
  - split; [by intros _|by eexists].
Qed.

Lemma role_at_Some tid ps i r :
  role_at tid ps i = Some r →
  ∃ p, ps !! i = Some p ∧ role tid (opt_val (data p)) = Some r.
Proof.
  unfold role_at. destruct (ps !! i) as [p|]; simpl; [|done]. by exists p.
Qed.

(** X26. The rotation where it works. In a room whose [setupData]
    records teams:
    - a team that is not among the recorded ones is answered 404, nothing
      changed;
    - for a recorded team, the members being the slots whose
      [data.teamData.teamID] is the team, and the loop of the handler
      being able to read every slot of the room (the [data] of the slot
      is neither [undefined] nor [null] and has no own property
      [hasOwnProperty], and its [teamData], when it has one, is neither
      [undefined] nor [null]): with at most one member the stored state
      stays as it is; with exactly one member flagged leader, at least
      one other member, and the leader list [leadersID] recorded, the
      rotation picks one of the other members, different from the old
      leader, flags it leader and unflags the old one, so that it is the
      only leader of the team, keeps the same members, leaves all other
      slots and the recorded teams as they were, replaces the first
      occurrence of the old leader in [leadersID] by the new one, and
      persists the result. *)
Theorem UpdateLeader_rotates random ctx s m tid sd ts ex :
  db s !! params_id ctx = Some m →
  params_team ctx = Some tid →
  setupData m = Some sd →
  JS.truthy sd = true →
  JS.get_prop sd "teams" = Some (VArr ts ex) →
  (find_team ts tid = Some None → rejects 404 (UpdateLeader random ctx s) s)
  ∧ (∀ team,
       find_team ts tid = Some (Some team) →
       (∀ i p, players m !! i = Some p → is_Some (role tid (opt_val (data p)))) →
       (length (members tid true (players m) ++ members tid false (players m)) ≤ 1 →
        ∃ r, UpdateLeader random ctx s = (r, s))
       ∧ (∀ old ls lex,
            members tid true (players m) = [old] →
            members tid false (players m) ≠ [] →
            JS.get_prop sd "leadersID" = Some (VArr ls lex) →
            ∃ new report m' sd',
              UpdateLeader random ctx s
              = (Ok (Some report),
                 mkServer (<[params_id ctx := m']> (db s)) (ticks s))
              ∧ new ∈ members tid false (players m)
              ∧ new ≠ old
              ∧ playerID_newLeader report = pretty new
              ∧ (∀ i, role_at tid (players m') i = Some (Some true) ↔ i = new)
              ∧ role_at tid (players m') old = Some (Some false)
              ∧ (∀ i, (∃ b, role_at tid (players m') i = Some (Some b))
                      ↔ (∃ b, role_at tid (players m) i = Some (Some b)))
              ∧ (∀ i, i ≠ new → i ≠ old → players m' !! i = players m !! i)
              ∧ setupData m' = Some sd'
              ∧ JS.get_prop sd' "teams" = Some (VArr ts ex)
              ∧ JS.get_prop sd' "leadersID"
                = Some (VArr (replace_first (VStr (pretty old)) (VStr (pretty new)) ls)
                             lex))).
Proof.
  intros Hm Htid Hsd Htruthy Hteams. split.
  { intros Hfind. unfold UpdateLeader, rejects, bind, fetch, required, ret.
    rewrite Hm, Htid. erewrite check_team_missing by done. by eexists. }
  intros team Hfind Hread.
  pose proof (check_team_found m tid sd ts ex team s Hsd Htruthy Hteams Hfind) as Hcheck.
  pose proof (classify_members (players m) tid Hread) as Hclass.
  pose proof (UpdateLeader_run random ctx s m tid _ _ Hm Htid Hcheck Hclass) as Hrun.
  split.
  - intros Hsize. rewrite Hrun.
    destruct (members tid false (players m)) as [|x others]; [by eexists|].
    destruct (members tid true (players m)) as [|l leaders];
      [|simpl in Hsize; rewrite length_app in Hsize; simpl in Hsize; lia].
    simpl. rewrite rotate_no_leader. by eexists.
  - intros old ls lex Hleaders Hothers Hls.
    rewrite Hleaders in Hrun. simpl in Hrun.
    destruct (members tid false (players m)) as [|x others] eqn:Ho; [done|].
    clear Hothers.
    destruct (lookup_lt_is_Some_2 (x :: others) (random mod length (x :: others)))
      as [new Hdraw].
    { apply Nat.mod_upper_bound. simpl. lia. }
    assert (new ∈ x :: others) as Hnew' by (by eapply list_elem_of_lookup_2).
    assert (new ∈ members tid false (players m)) as Hnew by (by rewrite Ho).
    assert (old ∈ members tid true (players m)) as Hold.
    { rewrite Hleaders. by left. }
    pose proof Hnew as Hrn. pose proof Hold as Hro.
    apply elem_of_members in Hrn, Hro.
    assert (new ≠ old) as Hne by (intros ->; congruence).
    destruct (role_at_Some _ _ _ _ Hrn) as (pn & Hpn & Hrn').
    destruct (role_at_Some _ _ _ _ Hro) as (po & Hpo & Hro').
    destruct (rotate_run m random tid old (x :: others) new pn po sd ls lex
                Hdraw Hpn Hpo Hne Hrn' Hro' Hsd Hls)
      as (dn & dold & sd' & Hdn & _ & Hdo & _ & Hsd' & Hrot).
    cbv zeta in Hrot. rewrite Hrot in Hrun.
    pose proof (lookup_lt_Some _ _ _ Hpn) as Hltn.
    pose proof (lookup_lt_Some _ _ _ Hpo) as Hlto.
    set (ps' := <[old := set_data (Some dold) po]>
                  (<[new := set_data (Some dn) pn]> (players m))) in *.
    assert (role_at tid ps' new = Some (Some true)) as Hnew2.
    { unfold role_at, ps'. rewrite list_lookup_insert_ne by done.
      rewrite list_lookup_insert_eq by done. done. }
    assert (role_at tid ps' old = Some (Some false)) as Hold'.
    { unfold role_at, ps'.
      rewrite list_lookup_insert_eq by (by rewrite length_insert). done. }
    assert (∀ i, i ≠ new → i ≠ old → ps' !! i = players m !! i) as Hframe.
    { intros i Hin Hio. unfold ps'. by rewrite !list_lookup_insert_ne. }
    eexists new, _, _, sd'. split; [exact Hrun|]. simpl.
    do 3 (split; [done|]). split; [|split; [done|split; [|split; [done|]]]].
    + intros i. split; [|by intros ->].
      intros Hi. destruct (decide (i = new)) as [|Hin]; [done|]. exfalso.
      destruct (decide (i = old)) as [->|Hio]; [congruence|].
      assert (i ∈ members tid true (players m)) as Hmem.
      { apply elem_of_members. unfold role_at in *. by rewrite <- Hframe. }
      rewrite Hleaders in Hmem. by apply list_elem_of_singleton in Hmem.
    + intros i. destruct (decide (i = new)) as [->|Hin]; [split; eauto|].
      destruct (decide (i = old)) as [->|Hio]; [split; eauto|].
      unfold role_at. by rewrite Hframe.
    + split; [done|]. split.
      * rewrite (get_prop_set_ne sd "leadersID" "teams" _ sd') by done. done.
      * by eapply get_prop_set_eq.
Qed.

Lemma UpdateLeader_rotates_witness :
  rejects 404 (UpdateLeader 1 (Demo.on_team "7") one_team) one_team
  ∧ (∃ r, UpdateLeader 1 (Demo.on_team "0") lone_team = (r, lone_team))
  ∧ ∃ new report s',
      UpdateLeader 1 (Demo.on_team "0") one_team = (Ok (Some report), s')
      ∧ new ∈ [1; 2]
      ∧ new ≠ 0
      ∧ playerID_newLeader report = pretty new.
Proof.
  split; [|split].
  - edestruct (UpdateLeader_rotates 1 (Demo.on_team "7") one_team) as [Hmissing _];
      [vm_compute; reflexivity | reflexivity | reflexivity | reflexivity
      | vm_compute; reflexivity |].
    apply Hmissing. vm_compute. reflexivity.
  - edestruct (UpdateLeader_rotates 1 (Demo.on_team "0") lone_team) as [_ Hteam];
      [vm_compute; reflexivity | reflexivity | reflexivity | reflexivity
      | vm_compute; reflexivity |].
    edestruct Hteam as [Hsmall _]; [vm_compute; reflexivity | |].
    + intros i p Hp%list_elem_of_lookup_2.
      repeat (apply elem_of_cons in Hp as [->|Hp]; [vm_compute; eauto|]).
      by apply elem_of_nil in Hp.
    + apply Hsmall. vm_compute. lia.
  - edestruct (UpdateLeader_rotates 1 (Demo.on_team "0") one_team) as [_ Hteam];
      [vm_compute; reflexivity | reflexivity | reflexivity | reflexivity
      | vm_compute; reflexivity |].
    edestruct Hteam as [_ Hrot]; [vm_compute; reflexivity | |].
    + intros i p Hp%list_elem_of_lookup_2.
      repeat (apply elem_of_cons in Hp as [->|Hp]; [vm_compute; eauto|]).
      by apply elem_of_nil in Hp.
    + edestruct (Hrot 0) as (new & report & m' & sd' & Hrun & Hnew & Hne & Hid & _);
        [vm_compute; reflexivity | vm_compute; discriminate
        | vm_compute; reflexivity |].
      exists new, report. eexists. split; [exact Hrun|]. split; [exact Hnew|].
      split; [exact Hne | exact Hid].
Defined.

(** ** C1: forming teams *)

(** *** The scan *)

Lemma filter_flag_cons k ps id ids :
  filter (λ i, flag_at k ps i = true) (id :: ids)
  = if flag_at k ps id
    then id :: filter (λ i, flag_at k ps i = true) ids
    else filter (λ i, flag_at k ps i = true) ids.
Proof.
  rewrite filter_cons.
  destruct (flag_at k ps id); [by rewrite decide_True | by rewrite decide_False].
Qed.

Lemma flag_at_read k ps i p :
  ps !! i = Some p →
  JS.is_nullish (opt_val (data p)) = false →
  ∃ v, JS.get_prop (opt_val (data p)) k = Some v ∧ flag_at k ps i = JS.truthy v.
Proof.
  intros Hp Hd. unfold flag_at, JS.get_prop. rewrite Hp, Hd. by eexists.
Qed.

Lemma scan_players_spec ps ids playerArray adminArray :
  (∀ i, i ∈ ids → ∃ p, ps !! i = Some p ∧ JS.is_nullish (opt_val (data p)) = false) →
  scan_players ps ids playerArray adminArray
  = Some (playerArray ++ filter (λ i, flag_at "player" ps i = true) ids,
          adminArray ++ filter (λ i, flag_at "admin" ps i = true) ids).
Proof.
  revert playerArray adminArray.
  induction ids as [|id ids IH]; intros playerArray adminArray Hread.
  { simpl. by rewrite !app_nil_r. }
  destruct (Hread id) as (p & Hp & Hd); [by left|].
  assert (∀ i, i ∈ ids → ∃ p, ps !! i = Some p
                              ∧ JS.is_nullish (opt_val (data p)) = false) as Hread'.
  { intros i Hi. apply Hread. by right. }
  destruct (flag_at_read "player" ps id p Hp Hd) as (vp & Hvp & Hfp).
  destruct (flag_at_read "admin" ps id p Hp Hd) as (va & Hva & Hfa).
  cbn [scan_players player_data mbind option_bind]. rewrite Hp.
  cbn [mbind option_bind]. rewrite Hvp, Hva. cbn [mbind option_bind].
  rewrite IH by done. rewrite <- Hfp, <- Hfa, !filter_flag_cons.
  destruct (flag_at "player" ps id), (flag_at "admin" ps id);
    by rewrite <- ?app_assoc.
Qed.

(** *** What the writes of the filling loops keep *)

Lemma same_flags_refl ps : same_flags ps ps.
Proof. by split. Qed.

Lemma same_flags_trans ps1 ps2 ps3 :
  same_flags ps1 ps2 → same_flags ps2 ps3 → same_flags ps1 ps3.
Proof.
  intros [Hl1 H1] [Hl2 H2]. split; [congruence|].
  intros i. destruct (H1 i), (H2 i). split; congruence.
Qed.

Lemma flag_at_obj k ps i : flag_at k ps i = true → obj_at ps i = true.
Proof.
  unfold flag_at, obj_at, JS.get_prop. destruct (ps !! i) as [p|]; [|done].
  by destruct (opt_val (data p)).
Qed.

Lemma obj_at_Some ps i :
  obj_at ps i = true →
  ∃ p, ps !! i = Some p ∧ JS.is_object (opt_val (data p)) = true.
Proof. unfold obj_at. destruct (ps !! i) as [p|]; [|done]. by exists p. Qed.

Lemma same_flags_insert ps i p d' :
  ps !! i = Some p →
  JS.is_object (opt_val (data p)) = true →
  JS.is_object d' = true →
  JS.get_prop d' "admin" = JS.get_prop (opt_val (data p)) "admin" →
  same_flags ps (<[i := set_data (Some d') p]> ps).
Proof.
  intros Hp Hobj Hobj' Hadmin. split; [apply length_insert|].
  intros j. unfold flag_at, obj_at.
  destruct (decide (j = i)) as [->|Hne].
  - rewrite list_lookup_insert_eq by (by eapply lookup_lt_Some).
    rewrite Hp. simpl. by rewrite Hadmin, Hobj, Hobj'.
  - by rewrite list_lookup_insert_ne.
Qed.

Lemma lands_same_flags ps ps' c e :
  same_flags ps ps' → lands ps' c e = lands ps c e.
Proof.
  intros [_ H]. unfold lands. by rewrite (proj1 (H e)), (proj1 (H c)).
Qed.

Lemma walk_same_flags ps ps' c es :
  same_flags ps ps' → walk ps' c es = walk ps c es.
Proof.
  intros H. revert c. induction es as [|e es IH]; intros c; [done|].
  simpl. by rewrite (lands_same_flags ps ps'), IH.
Qed.

(** One write [data.k = x] on a slot whose [data] is an object. *)
Lemma write_set_prop ps i p k x :
  ps !! i = Some p →
  JS.is_object (opt_val (data p)) = true →
  k ≠ "admin" →
  ∃ d',
    write_data ps (Some i) (λ d, JS.set_prop d k x)
    = Some (<[i := set_data (Some d') p]> ps)
    ∧ JS.is_object d' = true
    ∧ JS.get_prop d' k = Some x
    ∧ (∀ k', k' ≠ k → JS.get_prop d' k' = JS.get_prop (opt_val (data p)) k')
    ∧ same_flags ps (<[i := set_data (Some d') p]> ps).
Proof.
  intros Hp Hobj Hk.
  destruct (set_prop_object _ k x Hobj) as [d' Hd'].
  exists d'. split; [by apply write_data_Some|].
  destruct (set_prop_Some _ _ _ _ Hd') as (_ & Hobj' & _).
  split; [done|]. split; [by eapply get_prop_set_eq|].
  split; [intros k' Hk'; by eapply get_prop_set_ne|].
  apply same_flags_insert; [done..|]. by eapply get_prop_set_ne.
Qed.

(** The assignment of a slot to a team. *)
Lemma assign_team_spec team_no ps e p :
  ps !! e = Some p →
  JS.is_object (opt_val (data p)) = true →
  ∃ d',
    assign_team team_no ps (Some e) = Some (<[e := set_data (Some d') p]> ps)
    ∧ JS.get_prop d' "teamData" = Some (team_data team_no false)
    ∧ JS.get_prop d' "leader" = Some (VBool false)
    ∧ same_flags ps (<[e := set_data (Some d') p]> ps).
Proof.
  intros Hp Hobj. pose proof (lookup_lt_Some _ _ _ Hp) as Hlt.
  destruct (write_set_prop ps e p "teamData" (team_data team_no false) Hp Hobj)
    as (d1 & Hw1 & Hobj1 & Hget1 & Hframe1 & Hflags1); [done|].
  destruct (write_set_prop (<[e := set_data (Some d1) p]> ps) e
              (set_data (Some d1) p) "leader" (VBool false))
    as (d2 & Hw2 & Hobj2 & Hget2 & Hframe2 & Hflags2);
    [by apply list_lookup_insert_eq | done | done |].
  rewrite list_insert_insert_eq in Hw2, Hflags2. simpl in Hframe2.
  exists d2. unfold assign_team, assign_teamData, assign_leader, team_data in *.
  rewrite Hw1. cbn [mbind option_bind]. rewrite Hw2.
  split; [done|]. split; [by rewrite Hframe2|]. split; [done|].
  by eapply same_flags_trans.
Qed.

Lemma assigned_frame ps ps' e team_no b :
  ps' !! e = ps !! e → assigned ps e team_no b → assigned ps' e team_no b.
Proof. intros Heq (p & d & Hp & H). exists p, d. by rewrite Heq. Qed.

(** One round of a filling loop: the optional skip, then the assignment. *)
Lemma slot_step team_no ps c e :
  lands ps c e = true →
  obj_at ps e = true →
  ∃ ps1 ps2,
    skip_admin ps (Some c) = Some (ps1, Some e)
    ∧ assign_team team_no ps1 (Some e) = Some ps2
    ∧ same_flags ps ps2
    ∧ assigned ps2 e team_no false
    ∧ (∀ i, i < c → ps2 !! i = ps !! i)
    ∧ c ≤ e.
Proof.
  unfold lands. intros [Hna Hc]%andb_true_iff He.
  apply negb_true_iff in Hna.
  destruct (obj_at_Some _ _ He) as (p & Hp & Hobj).
  pose proof (lookup_lt_Some _ _ _ Hp) as Hlt.
  apply orb_true_iff in Hc as [Hc|[Hc Hadmin]%andb_true_iff].
  - apply bool_decide_eq_true in Hc as ->.
    destruct (assign_team_spec team_no ps e p Hp Hobj)
      as (d' & Hassign & Htd & Hl & Hflags).
    exists ps, (<[e := set_data (Some d') p]> ps).
    split.
    { unfold skip_admin, player_data. cbn [mbind option_bind]. rewrite Hp.
      cbn [mbind option_bind]. unfold flag_at in Hna. rewrite Hp in Hna.
      destruct (JS.get_prop _ "admin") as [v|] eqn:Hv; cbn [mbind option_bind].
      - by rewrite Hna.
      - unfold JS.get_prop in Hv.
        by rewrite (is_object_not_nullish _ Hobj) in Hv. }
    split; [done|]. split; [done|]. split.
    { exists (set_data (Some d') p), d'.
      by rewrite list_lookup_insert_eq. }
    split; [|done]. intros i Hi. apply list_lookup_insert_ne. lia.
  - apply bool_decide_eq_true in Hc as <-.
    destruct (obj_at_Some _ _ (flag_at_obj _ _ _ Hadmin)) as (pc & Hpc & Hobjc).
    destruct (write_set_prop ps c pc "leader" (VBool false) Hpc Hobjc)
      as (dc & Hwc & _ & _ & _ & Hflagsc); [done|].
    set (ps1 := <[c := set_data (Some dc) pc]> ps) in *.
    assert (ps1 !! S c = Some p) as Hp1.
    { unfold ps1. rewrite list_lookup_insert_ne by lia. done. }
    destruct (assign_team_spec team_no ps1 (S c) p Hp1 Hobj)
      as (d' & Hassign & Htd & Hl & Hflags).
    exists ps1, (<[S c := set_data (Some d') p]> ps1).
    split.
    { unfold skip_admin, player_data. cbn [mbind option_bind]. rewrite Hpc.
      cbn [mbind option_bind]. unfold flag_at in Hadmin. rewrite Hpc in Hadmin.
      destruct (JS.get_prop _ "admin") as [v|] eqn:Hv; [|done].
      cbn [mbind option_bind]. rewrite Hadmin.
      unfold assign_leader. rewrite Hwc. done. }
    split; [done|]. split; [by eapply same_flags_trans|]. split.
    { exists (set_data (Some d') p), d'.
      rewrite list_lookup_insert_eq by (unfold ps1; by rewrite length_insert).
      done. }
    split; [|lia]. intros i Hi.
    rewrite list_lookup_insert_ne by lia. unfold ps1.
    apply list_lookup_insert_ne. lia.
Qed.

Lemma walk_bounds ps c es e :
  walk ps c es = true → e ∈ es → c ≤ e ∧ e < next_cursor c es.
Proof.
  revert c. induction es as [|e' es IH]; intros c Hwalk Hin.
  { by apply elem_of_nil in Hin. }
  simpl in Hwalk. apply andb_true_iff in Hwalk as [Hland Hwalk].
  assert (c ≤ e') as Hce.
  { unfold lands in Hland. apply andb_true_iff in Hland as [_ Hc].
    apply orb_true_iff in Hc as [Hc|[Hc _]%andb_true_iff];
      apply bool_decide_eq_true in Hc; lia. }
  assert (∀ c' l, walk ps c' l = true → c' ≤ next_cursor c' l) as Hmono.
  { clear. intros c' l. revert c'. induction l as [|x l IH]; intros c' H; [done|].
    simpl in *. apply andb_true_iff in H as [Hland H].
    specialize (IH _ H).
    unfold lands in Hland. apply andb_true_iff in Hland as [_ Hc].
    apply orb_true_iff in Hc as [Hc|[Hc _]%andb_true_iff];
      apply bool_decide_eq_true in Hc; lia. }
  simpl. apply elem_of_cons in Hin as [->|Hin].
  - split; [done|]. specialize (Hmono _ _ Hwalk). lia.
  - destruct (IH _ Hwalk Hin). split; lia.
Qed.

(** The inner loop over the slots [es]. *)
Lemma fill_team_spec team_no ps c es tmp tp :
  walk ps c es = true →
  (∀ e, e ∈ es → obj_at ps e = true) →
  ∃ ps',
    fill_team (length es) team_no ps (Some c) tmp tp
    = Some (ps', Some (next_cursor c es), tmp ++ es, tp ++ (pretty <$> es))
    ∧ same_flags ps ps'
    ∧ (∀ e, e ∈ es → assigned ps' e team_no false)
    ∧ (∀ i, i < c → ps' !! i = ps !! i).
Proof.
  revert ps c tmp tp. induction es as [|e es IH]; intros ps c tmp tp Hwalk Hobj.
  { exists ps. simpl. rewrite !app_nil_r. split; [done|].
    split; [apply same_flags_refl|]. split; [|done].
    intros e He. by apply elem_of_nil in He. }
  simpl in Hwalk. apply andb_true_iff in Hwalk as [Hland Hwalk].
  destruct (slot_step team_no ps c e Hland) as
    (ps1 & ps2 & Hskip & Hassign & Hflags & Has & Hframe & Hce);
    [apply Hobj; by left|].
  destruct (IH ps2 (S e) (tmp ++ [e]) (tp ++ [pretty e])) as
    (ps' & Hrun & Hflags' & Has' & Hframe').
  { by rewrite (walk_same_flags ps ps2). }
  { intros e' He'. rewrite (proj2 (proj2 Hflags e')). apply Hobj. by right. }
  exists ps'. split.
  { cbn [fill_team length]. rewrite Hskip. cbn [mbind option_bind].
    rewrite Hassign. cbn [mbind option_bind]. rewrite Hrun.
    by rewrite <- !app_assoc. }
  split; [by eapply same_flags_trans|]. split.
  - intros e' [->|He']%elem_of_cons; [|by apply Has'].
    eapply assigned_frame; [|exact Has]. apply Hframe'. lia.
  - intros i Hi. rewrite Hframe' by lia. by apply Hframe.
Qed.

(** *** The loop over the teams *)

Lemma walk_app ps c es1 es2 :
  walk ps c (es1 ++ es2) = walk ps c es1 && walk ps (next_cursor c es1) es2.
Proof.
  revert c. induction es1 as [|e es1 IH]; intros c; [done|].
  simpl. by rewrite IH, andb_assoc.
Qed.

Lemma next_cursor_app c es1 es2 :
  next_cursor c (es1 ++ es2) = next_cursor (next_cursor c es1) es2.
Proof. revert c. induction es1 as [|e es1 IH]; intros c; [done|]. simpl. apply IH. Qed.

(** Making the first slot of a team its leader. *)
Lemma crown_spec ps e team_no :
  assigned ps e team_no false →
  obj_at ps e = true →
  ∃ ps1 ps2,
    write_data ps (Some e) (assign_teamData_leader true) = Some ps1
    ∧ write_data ps1 (Some e) (assign_leader true) = Some ps2
    ∧ assigned ps2 e team_no true
    ∧ same_flags ps ps2
    ∧ (∀ i, i ≠ e → ps2 !! i = ps !! i).
Proof.
  intros (p & d & Hp & Hd & Htd & _) Hobj.
  pose proof (lookup_lt_Some _ _ _ Hp) as Hlt.
  unfold obj_at in Hobj. rewrite Hp, Hd in Hobj. simpl in Hobj.
  destruct (set_prop_object d "teamData" (team_data team_no true) Hobj) as [d1 Hd1].
  destruct (set_prop_Some _ _ _ _ Hd1) as (_ & Hobj1 & _).
  destruct (set_prop_object d1 "leader" (VBool true) Hobj1) as [d2 Hd2].
  destruct (set_prop_Some _ _ _ _ Hd2) as (_ & Hobj2 & _).
  exists (<[e := set_data (Some d1) p]> ps), (<[e := set_data (Some d2) p]> ps).
  split.
  { apply write_data_Some; [done|]. rewrite Hd. simpl.
    unfold assign_teamData_leader. rewrite Htd. done. }
  split.
  { rewrite (write_data_Some _ e (set_data (Some d1) p) _ d2);
      [by rewrite list_insert_insert_eq | by apply list_lookup_insert_eq | done]. }
  split.
  { exists (set_data (Some d2) p), d2. rewrite list_lookup_insert_eq by done.
    do 2 (split; [done|]). split; [|by eapply get_prop_set_eq].
    rewrite (get_prop_set_ne d1 "leader" "teamData" (VBool true) d2) by done.
    by eapply get_prop_set_eq. }
  split.
  { apply same_flags_insert; [done|by rewrite Hd|done|]. rewrite Hd. simpl.
    rewrite (get_prop_set_ne d1 "leader" "admin" (VBool true) d2) by done.
    by rewrite (get_prop_set_ne d "teamData" "admin" (team_data team_no true) d1). }
  intros i Hi. by apply list_lookup_insert_ne.
Qed.

Lemma fill_teams_spec base j0 ps c css teams leaders :
  walk ps c (concat css) = true →
  (∀ e, e ∈ concat css → obj_at ps e = true) →
  Forall (λ cs, length cs = S base) css →
  ∃ ps',
    fill_teams (length css) j0 (S base) ps (Some c) teams leaders
    = Some (ps', Some (next_cursor c (concat css)),
            teams ++ mk_teams j0 css, leaders ++ leaders_of css)
    ∧ same_flags ps ps'
    ∧ (∀ r cs e, css !! r = Some cs → e ∈ cs →
         assigned ps' e (j0 + r) (bool_decide (head cs = Some e)))
    ∧ (∀ i, i < c → ps' !! i = ps !! i).
Proof.
  revert j0 ps c teams leaders.
  induction css as [|cs css IH]; intros j0 ps c teams leaders Hwalk Hobj Hlen.
  { exists ps. simpl. rewrite !app_nil_r. split; [done|].
    split; [apply same_flags_refl|]. split; [|done]. by intros r cs e. }
  apply Forall_cons in Hlen as [Hcs Hlen].
  simpl in Hwalk. rewrite walk_app in Hwalk.
  apply andb_true_iff in Hwalk as [Hwalk1 Hwalk2].
  destruct (fill_team_spec j0 ps c cs [] [] Hwalk1) as
    (ps1 & Hrun1 & Hflags1 & Has1 & Hframe1).
  { intros e He. apply Hobj. simpl. apply elem_of_app. by left. }
  destruct cs as [|e0 cs']; [done|].
  assert (∀ e, e ∈ cs' → e0 < e) as Hlater.
  { intros e He. simpl in Hwalk1. apply andb_true_iff in Hwalk1 as [_ Hw].
    destruct (walk_bounds _ _ _ _ Hw He). lia. }
  destruct (crown_spec ps1 e0 j0) as (ps1' & ps2 & Hw1 & Hw2 & Has2 & Hflags2 & Hframe2).
  { apply Has1. by left. }
  { rewrite (proj2 (proj2 Hflags1 e0)). apply Hobj. by left. }
  assert (same_flags ps ps2) as Hflags by (by eapply same_flags_trans).
  destruct (IH (S j0) ps2 (next_cursor c (e0 :: cs'))
              (teams ++ [mkTeam (pretty j0) (pretty <$> e0 :: cs')])
              (leaders ++ [pretty e0]))
    as (ps' & Hrun & Hflags' & Has' & Hframe'); [| |done|].
  { by rewrite (walk_same_flags ps ps2). }
  { intros e He. rewrite (proj2 (proj2 Hflags e)). apply Hobj.
    simpl. apply elem_of_cons. right. apply elem_of_app. by right. }
  exists ps'. split.
  { cbn [fill_teams length]. rewrite Hcs in Hrun1. rewrite Hrun1.
    cbn [mbind option_bind app head]. rewrite Hw1. cbn [mbind option_bind].
    rewrite Hw2. cbn [mbind option_bind]. rewrite Hrun.
    cbn [concat mk_teams leaders_of omap head fmap option_fmap option_map].
    rewrite next_cursor_app. by rewrite <- !app_assoc. }
  split; [by eapply same_flags_trans|]. split.
  - intros [|r] cs e Hcs' He.
    + injection Hcs' as <-. rewrite Nat.add_0_r.
      destruct (walk_bounds _ _ _ _ Hwalk1 He) as [_ Hup].
      eapply assigned_frame; [by apply Hframe'|].
      apply elem_of_cons in He as [->|He].
      * by rewrite bool_decide_eq_true_2.
      * rewrite bool_decide_eq_false_2.
        -- eapply assigned_frame; [|by apply Has1; right].
           apply Hframe2. specialize (Hlater _ He). lia.
        -- simpl. intros [= ->]. specialize (Hlater _ He). lia.
    + replace (j0 + S r) with (S j0 + r) by lia. by eapply Has'.
  - intros i Hi.
    destruct (walk_bounds _ _ _ e0 Hwalk1) as [Hce Hup]; [by left|].
    rewrite Hframe' by lia. rewrite Hframe2 by lia. by apply Hframe1.
Qed.

(** *** Handing out the remainder *)

Lemma find_named teams j tm :
  named teams →
  teams !! j = Some tm →
  list_find (λ team, teamID team = pretty j) teams = Some (j, tm).
Proof.
  intros Hnamed Htm. apply list_find_Some. split; [done|].
  split; [by apply Hnamed|].
  intros i y Hy Hij Heq. rewrite (Hnamed i y Hy) in Heq.
  apply (inj pretty) in Heq. lia.
Qed.

Lemma distribute_spec j0 ps c es T1 T2 :
  walk ps c es = true →
  (∀ e, e ∈ es → obj_at ps e = true) →
  length T1 = j0 →
  length es ≤ length T2 →
  named (T1 ++ T2) →
  ∃ ps',
    distribute (length es) j0 ps (Some c) (T1 ++ T2)
    = Some (ps', Some (next_cursor c es), T1 ++ append_each T2 es)
    ∧ same_flags ps ps'
    ∧ (∀ k e, es !! k = Some e → assigned ps' e (j0 + k) false)
    ∧ (∀ i, i < c → ps' !! i = ps !! i).
Proof.
  revert j0 ps c T1 T2.
  induction es as [|e es IH]; intros j0 ps c T1 T2 Hwalk Hobj HT1 Hlen Hnamed.
  { exists ps. simpl. split; [by destruct T2|].
    split; [apply same_flags_refl|]. split; [|done]. by intros k e. }
  destruct T2 as [|tm T2]; [simpl in Hlen; lia|].
  simpl in Hwalk. apply andb_true_iff in Hwalk as [Hland Hwalk].
  destruct (slot_step j0 ps c e Hland) as
    (ps1 & ps2 & Hskip & Hassign & Hflags & Has & Hframe & Hce);
    [apply Hobj; by left|].
  set (tm' := mkTeam (teamID tm) (playersID tm ++ [pretty e])).
  assert (named ((T1 ++ [tm']) ++ T2)) as Hnamed'.
  { intros i y Hy. rewrite <- app_assoc in Hy. simpl in Hy.
    destruct (decide (i = length T1)) as [->|Hi].
    - rewrite list_lookup_middle in Hy by done. injection Hy as <-.
      simpl. apply Hnamed. by rewrite list_lookup_middle.
    - apply Hnamed. rewrite <- Hy.
      destruct (decide (i < length T1)).
      + by rewrite !lookup_app_l.
      + rewrite !lookup_app_r by lia.
        destruct (i - length T1) eqn:E; [lia|done]. }
  destruct (IH (S j0) ps2 (S e) (T1 ++ [tm']) T2) as
    (ps' & Hrun & Hflags' & Has' & Hframe'); [| | | |done|].
  { by rewrite (walk_same_flags ps ps2). }
  { intros e' He'. rewrite (proj2 (proj2 Hflags e')). apply Hobj. by right. }
  { rewrite length_app. simpl. lia. }
  { simpl in Hlen. lia. }
  exists ps'. split.
  { cbn [distribute length]. rewrite Hskip. cbn [mbind option_bind].
    rewrite Hassign. cbn [mbind option_bind].
    rewrite (find_named _ j0 tm Hnamed) by (by rewrite <- HT1, list_lookup_middle).
    cbn [mbind option_bind].
    fold tm'.
    assert (<[j0 := tm']> (T1 ++ tm :: T2) = (T1 ++ [tm']) ++ T2) as ->.
    { rewrite <- HT1, insert_app_r_alt, Nat.sub_diag by lia.
      by rewrite <- app_assoc. }
    rewrite Hrun. by rewrite <- app_assoc. }
  split; [by eapply same_flags_trans|]. split.
  - intros [|k] e' He'.
    + injection He' as <-. rewrite Nat.add_0_r.
      eapply assigned_frame; [|exact Has]. apply Hframe'. lia.
    + replace (j0 + S k) with (S j0 + k) by lia. by apply Has'.
  - intros i Hi. rewrite Hframe' by lia. by apply Hframe.
Qed.

(** *** The teams as lists *)

Lemma chunks_spec r base l :
  r * base ≤ length l →
  length (chunks r base l) = r
  ∧ Forall (λ cs, length cs = base) (chunks r base l)
  ∧ concat (chunks r base l) = take (r * base) l.
Proof.
  revert l. induction r as [|r IH]; intros l Hlen; [done|].
  simpl in *. destruct (IH (drop base l)) as (Hl & Hall & Hcat).
  { rewrite length_drop. lia. }
  split; [by rewrite Hl|]. split.
  - constructor; [|done]. rewrite length_take. lia.
  - by rewrite Hcat, take_take_drop.
Qed.

Lemma elem_of_concat (x : nat) (ls : list (list nat)) :
  x ∈ concat ls ↔ ∃ l, l ∈ ls ∧ x ∈ l.
Proof.
  induction ls as [|l ls IH]; simpl.
  - split; [by intros ?%elem_of_nil | by intros (? & ?%elem_of_nil & _)].
  - rewrite elem_of_app, IH. split.
    + intros [H|(l' & Hl' & H)]; [exists l; split; [by left|done]|].
      exists l'. split; [by right|done].
    + intros (l' & [->|Hl']%elem_of_cons & H); [by left|]. right. by exists l'.
Qed.

Lemma mk_teams_length j0 css : length (mk_teams j0 css) = length css.
Proof. revert j0. induction css as [|cs css IH]; intros j0; simpl; [done|]. by rewrite IH. Qed.

Lemma mk_teams_lookup j0 css r :
  mk_teams j0 css !! r
  = (λ cs, mkTeam (pretty (j0 + r)) (pretty <$> cs)) <$> css !! r.
Proof.
  revert j0 r. induction css as [|cs css IH]; intros j0 [|r]; simpl; [done..| |].
  - by rewrite Nat.add_0_r.
  - rewrite IH. by replace (S j0 + r) with (j0 + S r) by lia.
Qed.

Lemma mk_teams_named css : named (mk_teams 0 css).
Proof.
  intros i tm. rewrite mk_teams_lookup.
  destruct (css !! i); simpl; [|done]. by intros [= <-].
Qed.

Lemma mk_teams_concat j0 css :
  concat (playersID <$> mk_teams j0 css) = pretty <$> concat css.
Proof.
  revert j0. induction css as [|cs css IH]; intros j0; simpl; [done|].
  by rewrite IH, fmap_app.
Qed.

Lemma append_each_nil T : append_each T [] = T.
Proof. by destruct T. Qed.

Lemma append_each_length T es : length (append_each T es) = length T.
Proof.
  revert es. induction T as [|tm T IH]; intros [|e es]; simpl; [done..|].
  by rewrite IH.
Qed.

Lemma append_each_lookup T es j :
  append_each T es !! j
  = (λ tm, match es !! j with
           | Some e => mkTeam (teamID tm) (playersID tm ++ [pretty e])
           | None => tm
           end) <$> T !! j.
Proof.
  revert es j. induction T as [|tm T IH]; intros es j; [by destruct es|].
  destruct es as [|e es], j as [|j]; simpl; [done| |done|apply IH].
  by destruct (T !! j).
Qed.

Lemma append_each_perm T es :
  length es ≤ length T →
  concat (playersID <$> append_each T es)
  ≡ₚ concat (playersID <$> T) ++ (pretty <$> es).
Proof.
  revert es. induction T as [|tm T IH]; intros [|e es] Hlen; simpl in *;
    rewrite ?app_nil_r; try done; [lia|].
  rewrite IH by lia. rewrite <- !app_assoc. f_equiv. simpl.
  by rewrite Permutation_middle.
Qed.

Lemma record_teams_object sd teams adminArray playerArray leaders :
  JS.is_object sd = true →
  is_Some (record_teams sd teams adminArray playerArray leaders).
Proof.
  intros Hobj. unfold record_teams.
  destruct (set_prop_object sd "teams" (VArr (team_val <$> teams) []) Hobj) as [sd1 H1].
  rewrite H1. cbn [mbind option_bind].
  destruct (set_prop_Some _ _ _ _ H1) as (_ & Hobj1 & _).
  destruct (set_prop_object sd1 "adminsID" (keys_val adminArray) Hobj1) as [sd2 H2].
  rewrite H2. cbn [mbind option_bind].
  destruct (set_prop_Some _ _ _ _ H2) as (_ & Hobj2 & _).
  destruct (set_prop_object sd2 "playersID" (keys_val playerArray) Hobj2) as [sd3 H3].
  rewrite H3. cbn [mbind option_bind].
  destruct (set_prop_Some _ _ _ _ H3) as (_ & Hobj3 & _).
  by apply set_prop_object.
Qed.

Lemma player_slots_obj ps e : e ∈ player_slots ps → obj_at ps e = true.
Proof.
  unfold player_slots. intros [H _]%list_elem_of_filter. by eapply flag_at_obj.
Qed.

Lemma walkable_unfold ps :
  walkable ps = true →
  (∀ i, i ∈ seq 0 (length ps) →
        ∃ p, ps !! i = Some p ∧ JS.is_nullish (opt_val (data p)) = false)
  ∧ ∀ e es, player_slots ps = e :: es → walk ps e (e :: es) = true.
Proof.
  unfold walkable. intros [Hread Hwalk]%andb_true_iff. split.
  - intros i Hi%elem_of_seq.
    destruct (lookup_lt_is_Some_2 ps i) as [p Hp]; [lia|]. exists p. split; [done|].
    rewrite forallb_forall in Hread. apply negb_true_iff, Hread.
    apply list_elem_of_In. by eapply list_elem_of_lookup_2.
  - intros e es Heq. by rewrite Heq in Hwalk.
Qed.

Lemma quotient_nat n t : quotient n (Z.of_nat t) = n / t.
Proof. unfold quotient. by rewrite <- Nat2Z.inj_div, Nat2Z.id. Qed.

Lemma remainder_nat n t :
  0 < t → remainder n (Z.of_nat t) = VNum (Z.of_nat (n mod t)).
Proof.
  intros Ht. unfold remainder.
  destruct (Z.eqb_spec (Z.of_nat t) 0) as [|_]; [lia|].
  rewrite Z.rem_mod_nonneg by lia. by rewrite Nat2Z.inj_mod.
Qed.

(** Everything between the fetch and [setMetadata], on a walkable room. *)
Lemma form_teams_spec m t :
  walkable (players m) = true →
  (JS.truthy (opt_val (setupData m)) = true →
   JS.is_object (opt_val (setupData m)) = true) →
  1 ≤ t ≤ length (player_slots (players m)) →
  ∃ m' css rs,
    form_teams m (Z.of_nat t) = Some (m', append_each (mk_teams 0 css) rs)
    ∧ player_slots (players m) = concat css ++ rs
    ∧ length css = t
    ∧ Forall (λ cs, length cs = length (player_slots (players m)) / t) css
    ∧ length rs = length (player_slots (players m)) mod t
    ∧ (∀ r cs e, css !! r = Some cs → e ∈ cs →
         assigned (players m') e r (bool_decide (head cs = Some e)))
    ∧ (∀ k e, rs !! k = Some e → assigned (players m') e k false)
    ∧ (∀ e e', e ∈ concat css → e' ∈ rs → e < e').
Proof.
  intros Hwalkable Hsd [Ht1 Htn].
  destruct (walkable_unfold _ Hwalkable) as [Hread Hwalk].
  set (ps := players m) in *.
  remember (player_slots ps) as E eqn:HE.
  assert (∃ e0, head E = Some e0 ∧ walk ps e0 E = true) as (e0 & Hhead & Hwalk0).
  { destruct E as [|e0 E']; [simpl in Htn; lia|]. exists e0. split; [done|].
    by apply Hwalk. }
  clear Hwalk. rename Hwalk0 into Hwalk.
  set (n := length E) in *.
  assert (0 < n / t) as Hbase by (apply Nat.div_str_pos; lia).
  destruct (n / t) as [|base] eqn:Hdiv; [lia|].
  pose proof (Nat.div_mod_eq n t) as Hdm. rewrite Hdiv in Hdm.
  destruct (chunks_spec t (S base) E) as (Hclen & Hcall & Hccat); [fold n; lia|].
  set (css := chunks t (S base) E) in *.
  set (rs := drop (t * S base) E).
  assert (E = concat css ++ rs) as Hsplit.
  { rewrite Hccat. unfold rs. by rewrite take_drop. }
  assert (length rs = n mod t) as Hrs.
  { unfold rs. rewrite length_drop. fold n. lia. }
  rewrite Hsplit, walk_app in Hwalk.
  apply andb_true_iff in Hwalk as [Hwalk1 Hwalk2].
  assert (∀ e, e ∈ E → obj_at ps e = true) as Hobj.
  { intros e He. apply player_slots_obj. by rewrite <- HE. }
  destruct (fill_teams_spec base 0 ps e0 css [] [] Hwalk1) as
    (ps1 & Hrun1 & Hflags1 & Has1 & Hframe1); [|done|].
  { intros e He. apply Hobj. rewrite Hsplit. apply elem_of_app. by left. }
  destruct (distribute_spec 0 ps1 (next_cursor e0 (concat css)) rs [] (mk_teams 0 css))
    as (ps2 & Hrun2 & Hflags2 & Has2 & Hframe2).
  { by rewrite (walk_same_flags ps ps1). }
  { intros e He. rewrite (proj2 (proj2 Hflags1 e)). apply Hobj.
    rewrite Hsplit. apply elem_of_app. by right. }
  { done. }
  { rewrite mk_teams_length, Hclen, Hrs. apply Nat.lt_le_incl, Nat.mod_upper_bound. lia. }
  { apply mk_teams_named. }
  simpl in Hrun1, Hrun2.
  set (ps' := ps2).
  assert (∃ m', (if JS.truthy (opt_val (setupData (set_players ps' m)))
                 then sd ← record_teams (opt_val (setupData (set_players ps' m)))
                             (append_each (mk_teams 0 css) rs)
                             (filter (λ i, flag_at "admin" ps i = true)
                                     (seq 0 (length ps)))
                             E (leaders_of css);
                      Some (set_setupData (Some sd) (set_players ps' m))
                 else Some (set_players ps' m)) = Some m'
                ∧ players m' = ps') as (m' & Hm' & Hps').
  { simpl. destruct (JS.truthy (opt_val (setupData m))) eqn:Htruthy.
    - destruct (record_teams_object (opt_val (setupData m))
                  (append_each (mk_teams 0 css) rs)
                  (filter (λ i, flag_at "admin" ps i = true) (seq 0 (length ps)))
                  E (leaders_of css) (Hsd eq_refl)) as [sd ->].
      by eexists.
    - by eexists. }
  exists m', css, rs. split.
  { unfold form_teams. fold ps. rewrite scan_players_spec by done.
    cbn [mbind option_bind app]. fold (player_slots ps). rewrite <- HE. fold n.
    rewrite quotient_nat, Hdiv, Nat2Z.id, (remainder_nat n t) by lia.
    rewrite Hhead. rewrite <- Hclen at 1. rewrite Hrun1.
    cbn [mbind option_bind].
    lazymatch goal with
    | |- ?x ≫= _ = _ =>
        assert (x = Some (ps2, Some (next_cursor (next_cursor e0 (concat css)) rs),
                          append_each (mk_teams 0 css) rs)) as ->
    end.
    { simpl. rewrite Nat2Z.id, <- Hrs.
      destruct (Z.eqb_spec (Z.of_nat (length rs)) 0) as [Hz|_]; simpl; [|done].
      destruct rs; [|simpl in Hz; lia]. simpl in Hrun2.
      rewrite append_each_nil in *. exact Hrun2. }
    cbn [mbind option_bind]. fold ps'. rewrite Hm'. done. }
  rewrite Hps'. unfold ps'.
  do 4 (split; [done|]). split; [|split; [done|]].
  - intros r cs e Hcs He. eapply assigned_frame; [|by eapply (Has1 r)].
    apply Hframe2.
    assert (e ∈ concat css) as Hin.
    { apply elem_of_concat. exists cs. split; [|done].
      by eapply list_elem_of_lookup_2. }
    by destruct (walk_bounds _ _ _ _ Hwalk1 Hin).
  - intros e e' He He'.
    destruct (walk_bounds _ _ _ _ Hwalk1 He).
    destruct (walk_bounds _ _ _ _ Hwalk2 He'). lia.
Qed.

(** C1 (as amended). Take a room in which every slot has a [data], no slot
    flagged player is flagged admin, and two successive player-flagged
    slots are neighbours or have a single admin slot between them, and
    whose [setupData] is absent or an object. For a number of teams [t]
    between 1 and the number [n] of player-flagged slots (seated or not),
    [CreateTeam] answers with [t] teams and persists the record; the teams
    are named "0" .. "t-1", their members together are exactly the
    player-flagged slots, each once; team [j] has [n / t] members, one more
    when [j < n mod t]; and every member carries the assignment to its
    team, flagged leader exactly when it is the first member of the team. *)
Theorem CreateTeam_partitions ctx s m (t : nat) :
  db s !! params_id ctx = Some m →
  Req.numOfTeams (body ctx) = Some (Z.of_nat t) →
  walkable (players m) = true →
  (JS.truthy (opt_val (setupData m)) = true →
   JS.is_object (opt_val (setupData m)) = true) →
  1 ≤ t ≤ length (player_slots (players m)) →
  ∃ teams m',
    CreateTeam ctx s
    = (Ok teams, mkServer (<[params_id ctx := m']> (db s)) (ticks s))
    ∧ length teams = t
    ∧ concat (playersID <$> teams) ≡ₚ pretty <$> player_slots (players m)
    ∧ NoDup (concat (playersID <$> teams))
    ∧ ∀ j tm,
        teams !! j = Some tm →
        teamID tm = pretty j
        ∧ length (playersID tm)
          = length (player_slots (players m)) / t
            + (if decide (j < length (player_slots (players m)) mod t) then 1 else 0)
        ∧ ∀ e, pretty e ∈ playersID tm →
               assigned (players m') e j
                 (bool_decide (head (playersID tm) = Some (pretty e))).
Proof.
  intros Hm Ht Hwalkable Hsd Hrange.
  destruct (form_teams_spec m t Hwalkable Hsd Hrange)
    as (m' & css & rs & Hform & Hsplit & Hclen & Hcall & Hrs & Has1 & Has2 & Hlt).
  set (E := player_slots (players m)) in *.
  assert (length rs ≤ length (mk_teams 0 css)) as Hle.
  { rewrite mk_teams_length, Hclen, Hrs.
    apply Nat.lt_le_incl, Nat.mod_upper_bound. lia. }
  assert (concat (playersID <$> append_each (mk_teams 0 css) rs) ≡ₚ pretty <$> E)
    as Hperm.
  { rewrite append_each_perm by done.
    by rewrite mk_teams_concat, <- fmap_app, <- Hsplit. }
  exists (append_each (mk_teams 0 css) rs), m'. split.
  { unfold CreateTeam, bind, fetch, required, must, setMetadata, ret.
    rewrite Ht, Hm. simpl. by rewrite Hform. }
  split; [by rewrite append_each_length, mk_teams_length|].
  split; [done|]. split.
  { rewrite Hperm. apply (NoDup_fmap_2 _). apply NoDup_filter, NoDup_seq. }
  intros j tm. rewrite append_each_lookup, mk_teams_lookup.
  destruct (css !! j) as [cs|] eqn:Hcs; [|done]. simpl.
  intros [= <-].
  assert (length cs = length E / t) as Hcslen.
  { by eapply (proj1 (Forall_lookup _ _) Hcall). }
  assert (cs ≠ []) as Hne.
  { intros ->. simpl in Hcslen. symmetry in Hcslen.
    apply Nat.div_small_iff in Hcslen; lia. }
  destruct (rs !! j) as [r|] eqn:Hr; simpl.
  - split; [done|]. split.
    { rewrite length_app, length_fmap, Hcslen. simpl.
      apply lookup_lt_Some in Hr. rewrite Hrs in Hr. by rewrite decide_True. }
    intros e [He|He]%elem_of_app.
    + apply (list_elem_of_fmap_inj (@pretty nat _)) in He.
      destruct cs as [|c0 cs']; [done|]. simpl.
      replace (bool_decide (Some (pretty c0) = Some (pretty e)))
        with (bool_decide (head (c0 :: cs') = Some e)); [by eapply Has1|].
      simpl. apply bool_decide_ext. split; [by intros [= ->]|].
      by intros [= ->%(inj pretty)].
    + apply list_elem_of_singleton in He. apply (inj pretty) in He as ->.
      destruct cs as [|c0 cs']; [done|]. simpl.
      rewrite bool_decide_eq_false_2.
      * replace j with (0 + j) at 1 by done. by apply Has2.
      * intros [= Heq%(inj pretty)].
        assert (c0 < r); [|lia]. apply Hlt.
        -- apply elem_of_concat. exists (c0 :: cs'). split; [|by left].
           by eapply list_elem_of_lookup_2.
        -- by eapply list_elem_of_lookup_2.
  - split; [done|]. split.
    { rewrite length_fmap, Hcslen.
      apply lookup_ge_None in Hr. rewrite Hrs in Hr.
      rewrite decide_False by lia. lia. }
    intros e He. apply (list_elem_of_fmap_inj (@pretty nat _)) in He.
    destruct cs as [|c0 cs']; [done|]. simpl.
    replace (bool_decide (Some (pretty c0) = Some (pretty e)))
      with (bool_decide (head (c0 :: cs') = Some e)); [by eapply Has1|].
    simpl. apply bool_decide_ext. split; [by intros [= ->]|].
    by intros [= ->%(inj pretty)].
Qed.

(** C1 as first stated fails: one eligible seated player (slot 0), one
    team asked for, and the team returned holds slot 0 and the vacated
    slot 1 as well. *)
Lemma CreateTeam_counts_a_vacated_slot :
  (∃ m, db vacated !! "room0" = Some m
        ∧ eligible_keys (players m) = ["0"]
        ∧ seated <$> players m = [true; false])
  ∧ ∃ s', CreateTeam (Demo.ctx (Demo.teams_body 1)) vacated
          = (Ok [mkTeam "0" ["0"; "1"]], s').
Proof.
  split.
  - eexists. split; [vm_compute; reflexivity|]. split; vm_compute; reflexivity.
  - eexists. vm_compute. reflexivity.
Qed.

Lemma CreateTeam_partitions_witness :
  ∃ teams m',
    CreateTeam (Demo.ctx (Demo.teams_body 2)) with_admin
    = (Ok teams, mkServer (<["room0" := m']> (db with_admin)) (ticks with_admin))
    ∧ length teams = 2
    ∧ concat (playersID <$> teams) ≡ₚ ["0"; "2"; "3"]
    ∧ NoDup (concat (playersID <$> teams))
    ∧ ∀ j tm,
        teams !! j = Some tm →
        teamID tm = pretty j
        ∧ length (playersID tm) = 1 + (if decide (j < 1) then 1 else 0)
        ∧ ∀ e, pretty e ∈ playersID tm →
               assigned (players m') e j
                 (bool_decide (head (playersID tm) = Some (pretty e))).
Proof.
  edestruct (CreateTeam_partitions (Demo.ctx (Demo.teams_body 2)) with_admin)
    with (t := 2) as (teams & m' & H);
    [vm_compute; reflexivity | reflexivity | vm_compute; reflexivity
    | intros _; vm_compute; reflexivity | vm_compute; lia |].
  exists teams, m'. exact H.
Defined.

(** *** Two admin slots in a row *)

(** Outside the rooms of the theorem the cursor goes astray. The player
    slots are 0 and 3 and one team is asked for; the team returned and
    recorded holds slot 0 and the admin slot 2, slot 3 is in no team, while
    the [playersID] list recorded next to the teams names 0 and 3. *)
Lemma CreateTeam_two_admins_in_a_row :
  (∃ m, db two_admins !! "room0" = Some m
        ∧ eligible_keys (players m) = ["0"; "3"])
  ∧ ∃ s' m',
      CreateTeam (Demo.ctx (Demo.teams_body 1)) two_admins
      = (Ok [mkTeam "0" ["0"; "2"]], s')
      ∧ db s' !! "room0" = Some m'
      ∧ (setupData m' ≫= λ sd, JS.get_prop sd "playersID")
        = Some (strings_val ["0"; "3"])
      ∧ (setupData m' ≫= λ sd, JS.get_prop sd "teams")
        = Some (VArr [team_val (mkTeam "0" ["0"; "2"])] []).
Proof.
  split.
  - eexists. split; vm_compute; reflexivity.
  - eexists _, _. split; [vm_compute; reflexivity|].
    split; [vm_compute; reflexivity|]. split; vm_compute; reflexivity.
Qed.

(** ** C3: the requests that keep the seated invariant *)

Lemma seat_of_insert (ps : list PlayerMetadata) (i : nat) p p' :
  ps !! i = Some p → seat_of p' = seat_of p →
  seat_of <$> <[i := p']> ps = seat_of <$> ps.
Proof.
  intros Hp Heq. rewrite list_fmap_insert, Heq.
  apply list_insert_id. by rewrite list_lookup_fmap, Hp.
Qed.

Lemma write_data_seats ps c f ps' :
  write_data ps c f = Some ps' → seat_of <$> ps' = seat_of <$> ps.
Proof.
  unfold write_data. destruct c as [i|]; simpl; [|done].
  destruct (ps !! i) as [p|] eqn:Hp; simpl; [|done].
  destruct (f _) as [d|]; simpl; [|done]. intros [= <-].
  by apply (seat_of_insert ps i p).
Qed.

Lemma skip_admin_seats ps c ps' c' :
  skip_admin ps c = Some (ps', c') → seat_of <$> ps' = seat_of <$> ps.
Proof.
  unfold skip_admin. destruct (player_data ps c); simpl; [|done].
  destruct (JS.get_prop _ _) as [v|]; simpl; [|done].
  destruct (JS.truthy v); [|by intros [= <- _]].
  destruct (write_data _ _ _) as [ps1|] eqn:Hw; simpl; [|done].
  intros [= <- _]. by eapply write_data_seats.
Qed.

Lemma assign_team_seats team_no ps c ps' :
  assign_team team_no ps c = Some ps' → seat_of <$> ps' = seat_of <$> ps.
Proof.
  unfold assign_team. destruct (write_data _ _ _) as [ps1|] eqn:Hw1; simpl; [|done].
  intros Hw2%write_data_seats. rewrite Hw2. by eapply write_data_seats.
Qed.

Lemma fill_team_seats rounds team_no ps c tmp tp ps' c' tmp' tp' :
  fill_team rounds team_no ps c tmp tp = Some (ps', c', tmp', tp') →
  seat_of <$> ps' = seat_of <$> ps.
Proof.
  revert ps c tmp tp. induction rounds as [|rounds IH]; intros ps c tmp tp; simpl.
  { by intros [= <- _ _ _]. }
  destruct (skip_admin ps c) as [[ps1 c1]|] eqn:Hskip; simpl; [|done].
  destruct (assign_team _ _ _) as [ps2|] eqn:Hassign; simpl; [|done].
  destruct c1 as [i|]; simpl; [|done].
  intros H%IH. rewrite H.
  rewrite (assign_team_seats _ _ _ _ Hassign). by eapply skip_admin_seats.
Qed.

Lemma fill_teams_seats rounds team_no base ps c teams leaders r :
  fill_teams rounds team_no base ps c teams leaders = Some r →
  seat_of <$> r.1.1.1 = seat_of <$> ps.
Proof.
  revert team_no ps c teams leaders.
  induction rounds as [|rounds IH]; intros team_no ps c teams leaders; simpl.
  { by intros [= <-]. }
  destruct (fill_team _ _ _ _ _ _) as [[[[ps1 c1] tmp] tp]|] eqn:Hfill; simpl; [|done].
  destruct (write_data ps1 _ _) as [ps2|] eqn:Hw1; simpl; [|done].
  destruct (write_data ps2 _ _) as [ps3|] eqn:Hw2; simpl; [|done].
  destruct (head tmp) as [i|]; simpl; [|done].
  intros H%IH. rewrite H.
  rewrite (write_data_seats _ _ _ _ Hw2), (write_data_seats _ _ _ _ Hw1).
  by eapply fill_team_seats.
Qed.

Lemma distribute_seats rounds team_no ps c teams r :
  distribute rounds team_no ps c teams = Some r →
  seat_of <$> r.1.1 = seat_of <$> ps.
Proof.
  revert team_no ps c teams.
  induction rounds as [|rounds IH]; intros team_no ps c teams; simpl.
  { by intros [= <-]. }
  destruct (skip_admin ps c) as [[ps1 c1]|] eqn:Hskip; simpl; [|done].
  destruct (assign_team _ _ _) as [ps2|] eqn:Hassign; simpl; [|done].
  destruct (list_find _ _) as [[j team]|]; simpl; [|done].
  destruct c1 as [i|]; simpl; [|done].
  intros H%IH. rewrite H.
  rewrite (assign_team_seats _ _ _ _ Hassign). by eapply skip_admin_seats.
Qed.

Lemma form_teams_seats m t m' teams :
  form_teams m t = Some (m', teams) →
  seat_of <$> players m' = seat_of <$> players m.
Proof.
  unfold form_teams.
  destruct (scan_players _ _ _ _) as [[playerArray adminArray]|]; simpl; [|done].
  destruct (fill_teams _ _ _ _ _ _ _) as [[[[ps1 c1] teams1] leaders]|] eqn:Hfill;
    simpl; [|done].
  apply fill_teams_seats in Hfill. simpl in Hfill.
  destruct (if negb _ then _ else _) as [[[ps2 c2] teams2]|] eqn:Hdist; simpl; [|done].
  assert (seat_of <$> ps2 = seat_of <$> ps1) as Hps2.
  { destruct (negb _); [|by injection Hdist as <- _ _].
    by apply distribute_seats in Hdist. }
  destruct (JS.truthy _); simpl.
  - destruct (record_teams _ _ _ _ _); simpl; [|done].
    intros [= <- _]. simpl. congruence.
  - intros [= <- _]. simpl. congruence.
Qed.

Lemma rotate_seats m random old others m' report :
  rotate m random old others = Some (m', report) →
  seat_of <$> players m' = seat_of <$> players m.
Proof.
  unfold rotate.
  destruct (write_data _ _ _) as [ps1|] eqn:H1; simpl; [|done].
  destruct (write_data ps1 _ _) as [ps2|] eqn:H2; simpl; [|done].
  destruct (write_data ps2 _ _) as [ps3|] eqn:H3; simpl; [|done].
  destruct (write_data ps3 _ _) as [ps4|] eqn:H4; simpl; [|done].
  destruct (others !! _); simpl; [|done]. destruct old; simpl; [|done].
  destruct (setupData m); simpl; [|done].
  destruct (JS.get_prop _ _); simpl; [|done].
  destruct (replace_leader _ _ _); simpl; [|done].
  destruct (JS.set_prop _ _ _); simpl; [|done].
  destruct (ps4 !! _); simpl; [|done]. intros [= <- _]. simpl.
  rewrite (write_data_seats _ _ _ _ H4), (write_data_seats _ _ _ _ H3).
  by rewrite (write_data_seats _ _ _ _ H2), (write_data_seats _ _ _ _ H1).
Qed.

Lemma db_inv_insert s g m n :
  db_inv s → seated_inv m → db_inv (mkServer (<[g := m]> (db s)) n).
Proof.
  intros Hs Hm g' m'. simpl. destruct (decide (g = g')) as [->|Hne].
  - rewrite lookup_insert_eq. by intros [= <-].
  - rewrite lookup_insert_ne by done. apply Hs.
Qed.

Lemma db_inv_delete s g n : db_inv s → db_inv (mkServer (delete g (db s)) n).
Proof.
  intros Hs g' m'. simpl. destruct (decide (g = g')) as [->|Hne].
  - by rewrite lookup_delete_eq.
  - rewrite lookup_delete_ne by done. apply Hs.
Qed.

Lemma seated_inv_players m ps :
  seat_of <$> ps = seat_of <$> players m → seated_inv m →
  ∀ sd next, seated_inv (mkMetadata (gameName m) (unlisted m) ps sd next).
Proof. unfold seated_inv. simpl. by intros ->. Qed.

Lemma seated_inv_seat m i p' :
  seated_inv m →
  (is_Some (name p') ↔ is_Some (credentials p')) →
  seated_inv (set_players (<[i := p']> (players m)) m).
Proof.
  unfold seated_inv. simpl. intros Hm Hp. rewrite list_fmap_insert.
  by apply Forall_insert.
Qed.

Lemma seated_inv_lookup m i p :
  seated_inv m → players m !! i = Some p →
  is_Some (name p) ↔ is_Some (credentials p).
Proof.
  unfold seated_inv. intros Hm Hp.
  apply (proj1 (Forall_lookup _ _) Hm i (seat_of p)).
  by rewrite list_lookup_fmap, Hp.
Qed.

Lemma open_slots_inv k : Forall (λ sc, is_Some (fst sc) ↔ is_Some (snd sc))
                                (seat_of <$> open_slots k).
Proof.
  unfold open_slots. rewrite <- list_fmap_compose. apply Forall_fmap, Forall_forall.
  intros i _. simpl. split; by intros [? ?].
Qed.

Lemma CreateGame_inv game numPlayers setupData cfg unlisted s :
  db_inv s → db_inv (snd (CreateGame game numPlayers setupData cfg unlisted s)).
Proof.
  intros Hs. destruct game as [game|]; [|done].
  destruct (CreateGame_run game numPlayers setupData cfg unlisted s)
    as (m & -> & _ & _ & Hps).
  apply db_inv_insert; [done|]. unfold seated_inv. rewrite Hps. apply open_slots_inv.
Qed.

Section Invariant.

Context (games : list Game) (lobbyConfig : LobbyConfig).

Lemma create_inv ctx s : db_inv s → db_inv (snd (create games lobbyConfig ctx s)).
Proof.
  intros Hs. unfold create. run_handler.
  destruct (parseInt (Req.numPlayers (body ctx))) as [numPlayers|]; simpl; [|done].
  destruct (bool_decide _); simpl; [done|].
  pose proof (CreateGame_inv (find_game games (params_name ctx))
                numPlayers (Req.setupData (body ctx))
                lobbyConfig (Req.unlisted (body ctx)) s Hs) as H.
  by destruct (CreateGame _ _ _ _ _ s) as [[?|?|?] ?].
Qed.

Lemma join_inv ctx s : db_inv s → db_inv (snd (join lobbyConfig ctx s)).
Proof.
  intros Hs. unfold join. run_handler.
  destruct (JS.is_nullish _); simpl; [done|].
  destruct (negb _); simpl; [done|].
  destruct (db s !! params_id ctx) as [m|] eqn:Hm; simpl; [|done].
  destruct (JS.to_string (Req.playerID _)) as [key|]; simpl; [|done].
  destruct (players_at _ _) as [[i p|k]|]; simpl; [| |done].
  - destruct (JS.truthy (opt_val (name p))); simpl; [done|].
    apply db_inv_insert; [done|]. apply seated_inv_seat; [by eapply Hs|].
    simpl. split; by eexists.
  - by destruct (JS.truthy (inherited_name k)).
Qed.

Lemma leave_inv ctx s : db_inv s → db_inv (snd (leave ctx s)).
Proof.
  intros Hs. unfold leave. run_handler.
  destruct (JS.is_nullish _); simpl; [done|].
  destruct (db s !! params_id ctx) as [m|] eqn:Hm; simpl; [|done].
  destruct (JS.to_string (Req.playerID _)) as [key|]; simpl; [|done].
  destruct (players_at _ _) as [[i p|k]|]; simpl; [| |done];
    (destruct (negb _); simpl;
     [by destruct (JS.to_string (Req.credentials _))|]); [|done].
  destruct (existsb _ _); simpl.
  - apply db_inv_insert; [done|]. apply seated_inv_seat; [by eapply Hs|].
    simpl. split; by intros [? ?].
  - by apply db_inv_delete.
Qed.

Lemma update_inv ctx s :
  aims_at_seated (ReqUpdate ctx) s →
  db_inv s → db_inv (snd (updatePlayerMetadata ctx s)).
Proof.
  intros Haim Hs. unfold updatePlayerMetadata. run_handler.
  destruct (JS.is_undefined _); simpl; [done|].
  destruct (_ && _); simpl; [done|]. destruct (_ && _); simpl; [done|].
  destruct (db s !! params_id ctx) as [m|] eqn:Hm; simpl; [|done].
  destruct (JS.to_string (Req.playerID _)) as [key|] eqn:Hkey; simpl; [|done].
  destruct (players_at _ _) as [[i p|k]|] eqn:Hat; simpl; [| |done];
    (destruct (negb _); simpl;
     [by destruct (JS.to_string (Req.credentials _))|]).
  - apply db_inv_insert; [done|]. apply seated_inv_seat; [by eapply Hs|].
    pose proof (players_get_own _ _ _ _ _ Hkey Hat) as Hp.
    specialize (Haim m i p eq_refl Hp).
    apply players_get_Some in Hp as [_ Hp].
    pose proof (seated_inv_lookup m i p (Hs _ _ Hm) Hp) as Hiff.
    destruct (JS.truthy (Req.newName _)), (JS.truthy (Req.data _)); simpl;
      try done; split; by eauto.
  - destruct (_ || _); simpl; [done|].
    apply db_inv_insert; [done|]. by eapply Hs.
Qed.

Lemma rejoin_inv ctx s : db_inv s → db_inv (snd (RejoinGame ctx s)).
Proof.
  intros Hs. unfold RejoinGame. run_handler.
  destruct (negb _); simpl; [done|].
  destruct (db s !! params_id ctx) as [m|] eqn:Hm; simpl; [|done].
  destruct (list_find _ _) as [[i p]|]; simpl; [|done].
  destruct (negb _); simpl; [by destruct (JS.to_string (Req.credentials _))|].
  apply db_inv_insert; [done|]. by eapply Hs.
Qed.

Lemma playAgain_inv ctx s : db_inv s → db_inv (snd (playAgain games lobbyConfig ctx s)).
Proof.
  intros Hs. unfold playAgain. run_handler.
  destruct (JS.is_nullish _); simpl; [done|].
  destruct (db s !! params_id ctx) as [m|] eqn:Hm; simpl; [|done].
  destruct (JS.to_string (Req.playerID _)) as [key|]; simpl; [|done].
  destruct (players_at _ _) as [member|]; simpl; [|done].
  destruct (negb _); simpl; [by destruct (JS.to_string (Req.credentials _))|].
  assert (db_inv (snd (fresh_room games lobbyConfig ctx m s))) as Hfresh.
  { unfold fresh_room. run_handler.
    destruct (parseInt (Req.numPlayers (body ctx))) as [numPlayers|]; [|done].
    destruct (find_game games (params_name ctx)) as [game|]; [|done].
    edestruct (CreateGame_run game) as (m' & -> & _ & _ & Hps). simpl.
    assert (seated_inv m') as Hm'.
    { unfold seated_inv. rewrite Hps. apply open_slots_inv. }
    exact (db_inv_insert
             (mkServer (<[uuid lobbyConfig (ticks s) := m']> (db s)) (S (ticks s)))
             (params_id ctx) (set_nextRoomID (Some (uuid lobbyConfig (ticks s))) m)
             (S (ticks s))
             (db_inv_insert s _ m' (S (ticks s)) Hs Hm') (Hs _ _ Hm)). }
  destruct (nextRoomID m) as [existing|]; [|done].
  by destruct (negb (bool_decide (existing = ""))).
Qed.

End Invariant.

Lemma CreateTeam_inv ctx s : db_inv s → db_inv (snd (CreateTeam ctx s)).
Proof.
  intros Hs. unfold CreateTeam. run_handler.
  destruct (Req.numOfTeams _) as [t|]; simpl; [|done].
  destruct (db s !! params_id ctx) as [m|] eqn:Hm; simpl; [|done].
  destruct (form_teams m t) as [[m' teams]|] eqn:Hform; simpl; [|done].
  apply db_inv_insert; [done|]. unfold seated_inv.
  rewrite (form_teams_seats _ _ _ _ Hform). by apply (Hs _ _ Hm).
Qed.

Lemma UpdateLeader_inv random ctx s :
  db_inv s → db_inv (snd (UpdateLeader random ctx s)).
Proof.
  intros Hs. unfold UpdateLeader, bind, fetch, required, ret, throw.
  destruct (params_team ctx) as [tid|]; simpl; [|done].
  destruct (db s !! params_id ctx) as [m|] eqn:Hm; simpl; [|done].
  assert (∃ r, check_team m tid s = (r, s)) as [r ->].
  { unfold check_team, bind, must, when, throw, ret.
    destruct (JS.truthy _); [|by eexists].
    destruct (JS.get_prop _ _); simpl; [|by eexists].
    destruct (teams_find _ _); simpl; [|by eexists].
    destruct (bool_decide _); by eexists. }
  destruct r; [|done|done]. unfold must.
  destruct (classify _ _ _ _ _) as [[old others]|]; simpl; [|done].
  destruct (bool_decide _); simpl; [|done].
  destruct (rotate _ _ _ _) as [[m' report]|] eqn:Hrot; simpl; [|done].
  apply db_inv_insert; [done|]. unfold seated_inv.
  rewrite (rotate_seats _ _ _ _ _ _ Hrot). by apply (Hs _ _ Hm).
Qed.

(** Every request keeps the seated invariant of every room, the update
    requests provided they name a slot that has credentials: an update
    that names an open slot and carries no credentials is the only request
    that can break it in the store. (A request that ends in [Beyond] is
    followed no further: the store is taken as the request found it.) *)
Lemma seated_invariant_kept games lobbyConfig r s :
  db_inv s → aims_at_seated r s → db_inv (serve games lobbyConfig r s).
Proof.
  intros Hs Haim. destruct r; simpl.
  - by apply create_inv.
  - by apply join_inv.
  - by apply leave_inv.
  - by apply update_inv.
  - by apply rejoin_inv.
  - by apply playAgain_inv.
  - by apply CreateTeam_inv.
  - by apply UpdateLeader_inv.
Qed.

(** * Further properties of the handlers *)

(** ** A request that fails persists nothing *)

Ltac closed := rewrite ?CreateGame_no_game; simpl; intros; by simplify_eq.

Lemma server_eta s : mkServer (db s) (ticks s) = s.
Proof. by destruct s. Qed.

(** Storing the record the store already holds changes nothing. *)
Lemma store_same s g m :
  db s !! g = Some m → mkServer (<[g := m]> (db s)) (ticks s) = s.
Proof. intros H. rewrite insert_id by done. apply server_eta. Qed.

Lemma fail_closed_reply {A} (m : M A) (f : A → Reply) :
  fail_closed m → fail_closed (do a <- m; ret (f a)).
Proof.
  intros Hm s e s'. unfold bind, ret.
  destruct (m s) as [[a|e0|key] s0] eqn:Hrun; [done| |done].
  intros [= <- <-]. by eapply Hm.
Qed.

Lemma CreateGame_fail_closed game numPlayers setupData cfg unlisted :
  fail_closed (CreateGame game numPlayers setupData cfg unlisted).
Proof.
  intros s e s'. destruct game as [game|]; [|closed].
  by destruct (CreateGame_run game numPlayers setupData cfg unlisted s) as (m & -> & _).
Qed.

Lemma check_team_pure m tid s : ∃ r, check_team m tid s = (r, s).
Proof.
  unfold check_team, bind, must, when, throw, ret.
  destruct (JS.truthy _); [|by eexists].
  destruct (JS.get_prop _ _); simpl; [|by eexists].
  destruct (teams_find _ _); simpl; [|by eexists].
  destruct (bool_decide _); by eexists.
Qed.

Lemma list_rooms_pure gameList rooms s : ∃ r, list_rooms gameList rooms s = (r, s).
Proof.
  revert rooms. induction gameList as [|g gameList IH]; intros rooms; simpl.
  { by eexists. }
  unfold bind, fetch, must. destruct (db s !! g) as [m|]; [|by eexists]. apply IH.
Qed.

Lemma getRooms_pure listGames ctx s : ∃ r, getRooms listGames ctx s = (r, s).
Proof. unfold getRooms, bind. apply list_rooms_pure. Qed.

Section Closed.

Context (games : list Game) (lobbyConfig : LobbyConfig).

Lemma create_fail_closed ctx : fail_closed (create games lobbyConfig ctx).
Proof.
  intros s e s'. unfold create. run_handler.
  destruct (parseInt (Req.numPlayers (body ctx))) as [numPlayers|]; simpl; [|closed].
  destruct (bool_decide _); simpl; [closed|].
  pose proof (CreateGame_fail_closed (find_game games (params_name ctx))
                numPlayers (Req.setupData (body ctx))
                lobbyConfig (Req.unlisted (body ctx)) s) as H.
  destruct (CreateGame _ _ _ _ _ s) as [[?|e0|?] s0]; [done| |done].
  intros [= <- <-]. by eapply H.
Qed.

Lemma getRoom_fail_closed ctx : fail_closed (getRoom ctx).
Proof.
  intros s e s'. unfold getRoom. run_handler.
  destruct (db s !! params_id ctx); simpl; closed.
Qed.

Lemma join_fail_closed ctx : fail_closed (join lobbyConfig ctx).
Proof.
  intros s e s'. unfold join. run_handler.
  destruct (JS.is_nullish _); simpl; [closed|].
  destruct (negb _); simpl; [closed|].
  destruct (db s !! params_id ctx) as [m|]; simpl; [|closed].
  destruct (JS.to_string (Req.playerID _)) as [key|]; simpl; [|closed].
  destruct (players_at _ _) as [[i p|k]|]; simpl; [| |closed].
  - destruct (JS.truthy (opt_val (name p))); simpl; closed.
  - destruct (JS.truthy (inherited_name k)); simpl; closed.
Qed.

Lemma leave_fail_closed ctx : fail_closed (leave ctx).
Proof.
  intros s e s'. unfold leave. run_handler.
  destruct (JS.is_nullish _); simpl; [closed|].
  destruct (db s !! params_id ctx) as [m|]; simpl; [|closed].
  destruct (JS.to_string (Req.playerID _)) as [key|]; simpl; [|closed].
  destruct (players_at _ _) as [[i p|k]|]; simpl; [| |closed];
    (destruct (negb _); simpl;
     [destruct (JS.to_string (Req.credentials _)); closed|]); [|closed].
  destruct (existsb _ _); simpl; closed.
Qed.

Lemma fresh_room_fail_closed ctx m : fail_closed (fresh_room games lobbyConfig ctx m).
Proof.
  intros s e s'. unfold fresh_room. run_handler.
  destruct (parseInt (Req.numPlayers (body ctx))) as [numPlayers|]; [|closed].
  destruct (find_game games (params_name ctx)) as [game|]; [|closed].
  by edestruct (CreateGame_run game) as (m' & -> & _).
Qed.

Lemma playAgain_fail_closed ctx : fail_closed (playAgain games lobbyConfig ctx).
Proof.
  intros s e s'. unfold playAgain. run_handler.
  destruct (JS.is_nullish _); simpl; [closed|].
  destruct (db s !! params_id ctx) as [m|]; simpl; [|closed].
  destruct (JS.to_string (Req.playerID _)) as [key|]; simpl; [|closed].
  destruct (players_at _ _) as [member|]; simpl; [|closed].
  destruct (negb _); simpl; [destruct (JS.to_string (Req.credentials _)); closed|].
  destruct (nextRoomID m) as [existing|]; [|apply fresh_room_fail_closed].
  destruct (negb (bool_decide (existing = ""))); [closed|apply fresh_room_fail_closed].
Qed.

Lemma update_fail_closed ctx : fail_closed (updatePlayerMetadata ctx).
Proof.
  intros s e s'. unfold updatePlayerMetadata. run_handler.
  destruct (JS.is_undefined _); simpl; [closed|].
  destruct (_ && _); simpl; [closed|]. destruct (_ && _); simpl; [closed|].
  destruct (db s !! params_id ctx) as [m|]; simpl; [|closed].
  destruct (JS.to_string (Req.playerID _)) as [key|]; simpl; [|closed].
  destruct (players_at _ _) as [[i p|k]|]; simpl; [| |closed];
    (destruct (negb _); simpl;
     [destruct (JS.to_string (Req.credentials _)); closed|]); [closed|].
  destruct (_ || _); simpl; closed.
Qed.

Lemma rejoin_fail_closed ctx : fail_closed (RejoinGame ctx).
Proof.
  intros s e s'. unfold RejoinGame. run_handler.
  destruct (negb _); simpl; [closed|].
  destruct (db s !! params_id ctx) as [m|]; simpl; [|closed].
  destruct (list_find _ _) as [[i p]|]; simpl; [|closed].
  destruct (negb _); simpl; [destruct (JS.to_string (Req.credentials _))|]; closed.
Qed.

End Closed.

Lemma CreateTeam_fail_closed ctx : fail_closed (CreateTeam ctx).
Proof.
  intros s e s'. unfold CreateTeam. run_handler.
  destruct (Req.numOfTeams _) as [t|]; simpl; [|closed].
  destruct (db s !! params_id ctx) as [m|]; simpl; [|closed].
  destruct (form_teams m t) as [[m' teams]|]; simpl; closed.
Qed.

Lemma UpdateLeader_fail_closed random ctx : fail_closed (UpdateLeader random ctx).
Proof.
  intros s e s'. unfold UpdateLeader, bind, fetch, required, ret, throw.
  destruct (params_team ctx) as [tid|]; simpl; [|closed].
  destruct (db s !! params_id ctx) as [m|]; simpl; [|closed].
  destruct (check_team_pure m tid s) as [r ->].
  destruct r; [|closed|closed]. unfold must.
  destruct (classify _ _ _ _ _) as [[old others]|]; simpl; [|closed].
  destruct (bool_decide _); simpl; [|closed].
  destruct (rotate _ _ _ _) as [[m' report]|]; simpl; closed.
Qed.

(** X1. Whatever the route and the request, a request that ends in an
    error, an HTTP error thrown by the handler or an uncaught one, leaves
    the store exactly as it was: no handler can fail once it has written
    to the store (the store handing out copies of its records, as in the
    conventions above). *)
Theorem failed_request_changes_nothing games lobbyConfig listGames e s err s' :
  route games lobbyConfig listGames e s = (Throw err, s') → s' = s.
Proof.
  revert s err s'. change (fail_closed (route games lobbyConfig listGames e)).
  destruct e; simpl; try apply fail_closed_reply.
  - closed.
  - apply create_fail_closed.
  - intros s err s' H. destruct (getRooms_pure listGames ctx s) as [r Hr].
    rewrite Hr in H. by simplify_eq.
  - apply getRoom_fail_closed.
  - apply join_fail_closed.
  - apply leave_fail_closed.
  - apply playAgain_fail_closed.
  - apply update_fail_closed.
  - apply update_fail_closed.
  - apply CreateTeam_fail_closed.
  - apply UpdateLeader_fail_closed.
  - apply rejoin_fail_closed.
Qed.

Ltac refused :=
  eexists _, _; (split; [|reflexivity]); first [by left | by right].

(** X2. A request about a room the store does not hold is always answered
    with 403 (when the body fails the validation that comes first) or 404,
    never with a success or an uncaught error, and changes nothing. *)
Theorem missing_room_is_refused games lobbyConfig listGames e s g :
  room_of e = Some g → db s !! g = None →
  ∃ status message,
    (status = 403 ∨ status = 404)
    ∧ route games lobbyConfig listGames e s = (Throw (HttpError status message), s).
Proof.
  intros He Hg.
  destruct e; simpl in He; try done; injection He as <-; simpl.
  - unfold getRoom. run_handler. rewrite Hg. simpl. refused.
  - unfold join. run_handler.
    destruct (JS.is_nullish _); simpl; [refused|].
    destruct (negb _); simpl; [refused|]. rewrite Hg. simpl. refused.
  - unfold leave. run_handler.
    destruct (JS.is_nullish _); simpl; [refused|]. rewrite Hg. simpl. refused.
  - unfold playAgain. run_handler.
    destruct (JS.is_nullish _); simpl; [refused|]. rewrite Hg. simpl. refused.
  - unfold rename, updatePlayerMetadata. run_handler.
    destruct (JS.is_undefined (Req.playerID _)); simpl; [refused|].
    destruct (_ && _); simpl; [refused|]. destruct (_ && _); simpl; [refused|].
    rewrite Hg. simpl. refused.
  - unfold updatePlayerMetadata. run_handler.
    destruct (JS.is_undefined (Req.playerID _)); simpl; [refused|].
    destruct (_ && _); simpl; [refused|]. destruct (_ && _); simpl; [refused|].
    rewrite Hg. simpl. refused.
  - unfold CreateTeam. run_handler.
    destruct (Req.numOfTeams _); simpl; [|refused]. rewrite Hg. simpl. refused.
  - unfold UpdateLeader. run_handler.
    destruct (params_team ctx); simpl; [|refused]. rewrite Hg. simpl. refused.
  - unfold RejoinGame. run_handler.
    destruct (negb _); simpl; [refused|]. rewrite Hg. simpl. refused.
Qed.

(** X3. The API secret. Without [API_SECRET] in the environment, or with
    an empty one, every request reaches its route. With a secret, a
    request whose [api-secret] header is that very string reaches its
    route, and any other request (no header, another string, a value that
    is not a string) is answered 403 before any handler runs. *)
Theorem request_checks_the_secret games lobbyConfig listGames API_SECRET header e s :
  (API_SECRET = None ∨ API_SECRET = Some "" →
   request games lobbyConfig listGames API_SECRET header e s
   = route games lobbyConfig listGames e s)
  ∧ (∀ secret, API_SECRET = Some secret → secret ≠ "" →
       (header = VStr secret →
        request games lobbyConfig listGames API_SECRET header e s
        = route games lobbyConfig listGames e s)
       ∧ (header ≠ VStr secret →
          request games lobbyConfig listGames API_SECRET header e s
          = (Throw (HttpError 403 "Invalid API secret"), s))).
Proof.
  unfold request, api_secret, bind, when, throw, ret. split.
  - by intros [-> | ->].
  - intros secret -> Hne%truthy_VStr. cbn [str_val]. rewrite Hne. split.
    + intros ->. cbn [JS.strict_eq]. by rewrite bool_decide_eq_true_2.
    + intros Hh.
      assert (JS.strict_eq header (VStr secret) = false) as ->; [|done].
      destruct header; try done. simpl. apply bool_decide_eq_false_2. congruence.
Qed.

(** ** Decimal numerals read back *)

Lemma digit_value_char (d : N) :
  (d < 10)%N → ParseInt.digit_value 10 (pretty_N_char d) = Some (Z.of_N d).
Proof.
  intros Hd.
  assert (d = 0 ∨ d = 1 ∨ d = 2 ∨ d = 3 ∨ d = 4 ∨ d = 5 ∨ d = 6 ∨ d = 7 ∨ d = 8
          ∨ d = 9)%N as H by lia.
  repeat destruct H as [->|H]; try subst d; reflexivity.
Qed.

Lemma digits_pretty_go (x : N) :
  (0 < x)%N →
  ∃ k : Z, ∀ s acc,
    ParseInt.digits 10 (pretty_N_go x s) acc
    = ParseInt.digits 10 s (Some (default 0 acc * k + Z.of_N x)%Z).
Proof.
  induction (N.lt_wf_0 x) as [x _ IH]. intros Hx.
  assert (x `mod` 10 < 10)%N as Hmod by (apply N.mod_lt; lia).
  pose proof (N.div_mod x 10 ltac:(lia)) as Hdm.
  destruct (decide (x `div` 10 = 0)%N) as [Hz|Hnz].
  - exists 10%Z. intros s acc. rewrite pretty_N_go_step, Hz, pretty_N_go_0 by done.
    simpl. rewrite digit_value_char by done. do 2 f_equal. lia.
  - destruct (IH (x `div` 10)%N) as [k Hk]; [apply N.div_lt; lia|lia|].
    exists (k * 10)%Z. intros s acc. rewrite pretty_N_go_step, Hk by done.
    simpl. rewrite digit_value_char by done. do 2 f_equal. simpl. lia.
Qed.

Lemma to_double_small (n : Z) : (n < 2 ^ 53)%Z → JS.to_double n = n.
Proof.
  intros Hn. unfold JS.to_double. by destruct (Z.ltb_spec n (2 ^ 53)); [|lia].
Qed.

(** Below [2 ^ 53] a number is printed with all its digits. *)
Lemma Number_toString_small (n : Z) :
  (- 2 ^ 53 < n < 2 ^ 53)%Z → JS.Number_toString n = pretty n.
Proof.
  intros Hn. unfold JS.Number_toString.
  destruct (Z.ltb_spec n 0) as [Hneg|Hpos].
  - destruct (Z.ltb_spec (- n) (2 ^ 53)); [|lia]. by destruct n.
  - by destruct (Z.ltb_spec n (2 ^ 53)); [|lia].
Qed.

(** The conversion at some values: numbers beyond [2 ^ 53], an array, an
    object, and an object with an own [toString], bare and inside an
    array. *)
Lemma to_string_examples :
  JS.to_string (VNum (2 ^ 53)) = Some "9007199254740992"
  ∧ JS.to_string (VNum (2 ^ 64)) = Some "18446744073709552000"
  ∧ JS.to_string (VNum (10 ^ 21)) = Some "1e+21"
  ∧ JS.to_string (VNum (- 2 ^ 70)) = Some "-1.1805916207174113e+21"
  ∧ JS.to_string (VArr [VNum 1; VNull; VArr [VStr "a"; VBool true] []] [])
    = Some "1,,a,true"
  ∧ JS.to_string (VObj [("valueOf", VNum 1)]) = Some "[object Object]"
  ∧ JS.to_string (VObj [("toString", VNum 1)]) = None
  ∧ JS.to_string (VArr [VNum 0; VObj [("toString", VNull)]] []) = None
  ∧ parseInt (VNum (10 ^ 21)) = Some (VNum 1)
  ∧ parseInt (VStr "9007199254740993") = Some (VNum 9007199254740992).
Proof. repeat split; vm_compute; reflexivity. Qed.

Lemma parse_pretty_N (x : N) :
  (Z.of_N x < 2 ^ 53)%Z → ParseInt.parse (pretty x) = VNum (Z.of_N x).
Proof.
  intros Hsmall.
  unfold pretty, pretty_N. destruct (decide (x = 0)%N) as [->|Hx]; [done|].
  destruct (pretty_go_head x "") as (d & r & Hd & Heq); [lia|].
  destruct (digits_pretty_go x) as [k Hk]; [lia|].
  pose proof (Hk "" None) as Hdigits. simpl in Hdigits.
  rewrite Heq in *.
  assert (d = 1 ∨ d = 2 ∨ d = 3 ∨ d = 4 ∨ d = 5 ∨ d = 6 ∨ d = 7 ∨ d = 8
          ∨ d = 9)%N as H by lia.
  unfold ParseInt.parse.
  repeat destruct H as [->|H]; try subst d;
    cbn [pretty_N_char ParseInt.skip_spaces];
    (lazymatch goal with
     | |- context [ParseInt.is_space ?c] =>
         replace (ParseInt.is_space c) with false by (by vm_compute)
     end);
    simpl in Hdigits |- *; rewrite Hdigits; f_equal;
    rewrite to_double_small by lia; lia.
Qed.

(** [parseInt] of the decimal numeral of a natural number, and of the
    number. *)
Lemma parseInt_numeral (n : Z) :
  (0 ≤ n < 2 ^ 53)%Z → parseInt (VStr (pretty n)) = Some (VNum n).
Proof.
  intros Hn. unfold parseInt. simpl. f_equal. destruct n as [|p|p]; [done| |lia].
  change (pretty (Z.pos p)) with (pretty (N.pos p)).
  rewrite parse_pretty_N; [done|]. change (Z.of_N (N.pos p)) with (Z.pos p). lia.
Qed.

Lemma parseInt_number (n : Z) :
  (0 ≤ n < 2 ^ 53)%Z → parseInt (VNum n) = Some (VNum n).
Proof.
  intros Hn. rewrite <- (parseInt_numeral n) by done. unfold parseInt. simpl.
  by rewrite Number_toString_small by lia.
Qed.

(** A key denotes slot [i] when it is the numeral of [i]. *)
Lemma key_index_pretty ps key i :
  key_index ps key = Some i ↔ i < length ps ∧ key = pretty i.
Proof.
  unfold key_index, Object_keys. split.
  - intros ([j k] & Hfind & ->)%fmap_Some. simpl.
    apply list_find_Some in Hfind as (Hj & <- & _).
    rewrite list_lookup_fmap in Hj.
    destruct (seq 0 (length ps) !! j) as [j'|] eqn:Hseq; simplify_eq/=.
    apply lookup_seq in Hseq as [-> Hlt]. done.
  - intros [Hlt ->]. apply fmap_Some. exists (i, pretty i). split; [|done].
    apply list_find_Some. split; [|split; [done|]].
    + by rewrite list_lookup_fmap, lookup_seq_lt.
    + intros j y Hj Hji. rewrite list_lookup_fmap in Hj.
      destruct (seq 0 (length ps) !! j) as [j'|] eqn:Hseq; simplify_eq/=.
      apply lookup_seq in Hseq as [-> _]. simpl.
      intros Heq%(inj pretty). lia.
Qed.

Lemma open_player p : name p = None → credentials p = None →
  mkPlayer (id p) None None (data p) = p.
Proof. destruct p. simpl. by intros -> ->. Qed.

Lemma existsb_seated ps : existsb seated ps = true ↔ ∃ q, q ∈ ps ∧ seated q = true.
Proof.
  rewrite existsb_exists. split; intros (q & Hq & Hs); exists q; split; try done;
    by apply list_elem_of_In.
Qed.

(** ** The listing loop *)

Lemma list_rooms_spec gameList rooms s :
  (∀ g, g ∈ gameList → is_Some (db s !! g)) →
  list_rooms gameList rooms s = (Ok (rooms ++ omap (shown s) gameList), s).
Proof.
  revert rooms. induction gameList as [|g gameList IH]; intros rooms Hall; simpl.
  { by rewrite app_nil_r. }
  destruct (Hall g) as [m Hm]; [by left|].
  unfold bind, fetch, must. rewrite Hm. rewrite IH by (intros; apply Hall; by right).
  unfold shown at 2. rewrite Hm. simpl.
  destruct (unlisted m); simpl; [done|]. by rewrite <- app_assoc.
Qed.

Lemma list_rooms_missing gameList rooms s g :
  g ∈ gameList → db s !! g = None →
  list_rooms gameList rooms s = (Throw TypeError, s).
Proof.
  revert rooms. induction gameList as [|g' gameList IH]; intros rooms Hin Hg.
  { by apply elem_of_nil in Hin. }
  simpl. unfold bind, fetch, must.
  destruct (db s !! g') as [m|] eqn:Hm; [|done].
  apply IH; [|done]. apply elem_of_cons in Hin as [->|]; [congruence|done].
Qed.

Section More.

Context (games : list Game) (lobbyConfig : LobbyConfig).

(** ** Creating and listing *)

Lemma find_game_None name :
  find_game games name = None ↔ name ∉ game_name <$> games.
Proof.
  unfold find_game. rewrite fmap_None, list_find_None, list_elem_of_fmap, Forall_forall.
  split.
  - intros H (g & -> & Hg). by eapply H.
  - intros H g Hg Heq. apply H. by exists g.
Qed.

Lemma find_game_Some name game :
  find_game games name = Some game → game_name game = name ∧ game ∈ games.
Proof.
  unfold find_game. intros ([i g] & H & ->)%fmap_Some. simpl.
  apply list_find_Some in H as (Hi & Hname & _). split; [done|].
  by eapply list_elem_of_lookup_2.
Qed.

(** X4. The games POST /games/:name/create accepts are exactly the ones
    GET /games lists: a name that is not listed is answered 404 with
    nothing changed, a listed name always gets its room, stored under the
    id drawn from the generator. This is so when [numPlayers] can be
    read: the handler calls [parseInt] on it before it looks the name up,
    and a [numPlayers] that does not convert to a string (an object with
    an own property [toString]) ends the request in the uncaught
    [TypeError], whatever the name. *)
Theorem create_knows_the_listed_games ctx s :
  ∃ names,
    getGames games s = (Ok names, s)
    ∧ (JS.to_string (Req.numPlayers (body ctx)) = None →
       create games lobbyConfig ctx s = (Throw TypeError, s))
    ∧ (is_Some (JS.to_string (Req.numPlayers (body ctx))) →
       (params_name ctx ∉ names →
        create games lobbyConfig ctx s
        = (Throw (HttpError 404 ("Game " +:+ params_name ctx +:+ " not found")), s))
       ∧ (params_name ctx ∈ names →
          ∃ m, create games lobbyConfig ctx s
               = (Ok (uuid lobbyConfig (ticks s)),
                  mkServer (<[uuid lobbyConfig (ticks s) := m]> (db s)) (S (ticks s)))
               ∧ gameName m = params_name ctx)).
Proof.
  exists (game_name <$> games). split; [done|]. split.
  { intros Hnum. unfold create, parseInt. run_handler. by rewrite Hnum. }
  intros [text Hnum]. split.
  - intros Hname%find_game_None. unfold create, parseInt. run_handler.
    rewrite Hnum. simpl. by rewrite Hname.
  - intros Hname. destruct (find_game games (params_name ctx)) as [game|] eqn:Hgame.
    + destruct (CreateGame_run game (ParseInt.parse text)
                  (Req.setupData (body ctx)) lobbyConfig (Req.unlisted (body ctx)) s)
        as (m & Hrun & Hgn & _).
      exists m. split.
      * unfold create, parseInt, bind, must, when, ret. rewrite Hnum. cbn [fmap option_fmap option_map].
        rewrite Hgame.
        rewrite bool_decide_eq_false_2 by done. by rewrite Hrun.
      * rewrite Hgn. by apply find_game_Some in Hgame as [? _].
    + by apply find_game_None in Hgame.
Qed.

(** X5. Creating a room and fetching it. For a known game and a number of
    players [k] of at least 1 (and within the integers a JavaScript number
    holds exactly), given as a number or as its decimal numeral, or
    absent (then [k] is 2), the create request stores under
    the fresh id a room of that game with the [k] open slots [{ id }],
    the [setupData] of the request when it has one, no successor, and
    [unlisted] as the truth value of what the request says; GET on the new
    id then answers with these [k] slots and that [setupData]. *)
Theorem create_room ctx s game (k : nat) :
  find_game games (params_name ctx) = Some game →
  (0 < k ∧ (Z.of_nat k < 2 ^ 53)%Z
   ∧ (Req.numPlayers (body ctx) = VNum (Z.of_nat k)
      ∨ Req.numPlayers (body ctx) = VStr (pretty k)))
  ∨ (k = 2 ∧ Req.numPlayers (body ctx) = VUndefined) →
  let gameID := uuid lobbyConfig (ticks s) in
  let sd := if JS.is_undefined (Req.setupData (body ctx)) then None
            else Some (Req.setupData (body ctx)) in
  let s1 := mkServer
              (<[gameID := mkMetadata (params_name ctx)
                             (JS.truthy (Req.unlisted (body ctx)))
                             (open_slots k) sd None]> (db s))
              (S (ticks s)) in
  create games lobbyConfig ctx s = (Ok gameID, s1)
  ∧ ∀ ctx2, params_id ctx2 = gameID →
            getRoom ctx2 s1 = (Ok (gameID, open_slots k, sd), s1).
Proof.
  intros Hgame Hk gameID sd s1. pose proof (find_game_Some _ _ Hgame) as [Hname _].
  assert (parseInt (Req.numPlayers (body ctx)) = Some (VNum (Z.of_nat k))
          ∧ 0 < k ∨ parseInt (Req.numPlayers (body ctx)) = Some VNaN ∧ k = 2)
    as Hparse.
  { destruct Hk as [(Hpos & Hsmall & [-> | ->])|[-> ->]].
    - left. split; [|done]. apply parseInt_number. lia.
    - left. split; [|done]. rewrite <- pretty_Z_of_nat. apply parseInt_numeral. lia.
    - by right. }
  split.
  - unfold s1, sd, gameID, create, CreateGame. run_handler. rewrite Hgame. simpl.
    rewrite Hname.
    destruct Hparse as [[-> Hpos]|[-> ->]]; simpl.
    + destruct (Z.eqb_spec (Z.of_nat k) 0) as [|_]; [lia|]. simpl. rewrite Nat2Z.id.
      by destruct (JS.is_undefined _).
    + by destruct (JS.is_undefined _).
  - intros ctx2 Hid2. unfold getRoom, s1. run_handler.
    rewrite Hid2, lookup_insert_eq. simpl.
    do 3 f_equal. unfold open_slots. by rewrite <- list_fmap_compose.
Qed.

(** X6. GET /games/:name/:id shows every slot of the room, in order, with
    its id, name and payload, never its credentials, and changes
    nothing. *)
Theorem getRoom_hides_credentials ctx s m :
  db s !! params_id ctx = Some m →
  ∃ ps,
    getRoom ctx s = (Ok (params_id ctx, ps, setupData m), s)
    ∧ length ps = length (players m)
    ∧ ∀ i p, players m !! i = Some p →
             ps !! i = Some (mkPlayer (id p) (name p) None (data p)).
Proof.
  intros Hm. eexists. split.
  { unfold getRoom. run_handler. by rewrite Hm. }
  split; [by rewrite length_fmap|].
  intros i p Hp. by rewrite list_lookup_fmap, Hp.
Qed.

(** X7. GET /games/:name, when the store holds every room it lists: the
    answer has, in the order of the listing, exactly the listed rooms that
    are not unlisted, each with its slots and [setupData]; no credentials
    appear in it; nothing is changed. *)
Theorem getRooms_lists_public_rooms listGames ctx s :
  (∀ g, g ∈ listGames (params_name ctx) s → is_Some (db s !! g)) →
  ∃ rooms,
    getRooms listGames ctx s = (Ok rooms, s)
    ∧ rooms = omap (shown s) (listGames (params_name ctx) s)
    ∧ (∀ g ps sd, (g, ps, sd) ∈ rooms ↔
         g ∈ listGames (params_name ctx) s
         ∧ ∃ m, db s !! g = Some m ∧ unlisted m = false
                ∧ ps = set_credentials None <$> players m ∧ sd = setupData m)
    ∧ (∀ g ps sd p, (g, ps, sd) ∈ rooms → p ∈ ps → credentials p = None).
Proof.
  intros Hall. eexists. split.
  { unfold getRooms, bind. by rewrite list_rooms_spec. }
  simpl. split; [done|].
  assert (∀ g ps sd, (g, ps, sd) ∈ omap (shown s) (listGames (params_name ctx) s) ↔
            g ∈ listGames (params_name ctx) s
            ∧ ∃ m, db s !! g = Some m ∧ unlisted m = false
                   ∧ ps = set_credentials None <$> players m ∧ sd = setupData m) as Hin.
  { intros g ps sd. rewrite list_elem_of_omap. unfold shown. split.
    - intros (g' & Hg' & Hshown). destruct (db s !! g') as [m|] eqn:Hm; [|done].
      simpl in Hshown. destruct (unlisted m) eqn:Hun; [done|].
      injection Hshown as <- <- <-. split; [done|]. by exists m.
    - intros (Hg & m & Hm & Hun & -> & ->). exists g. split; [done|].
      rewrite Hm. simpl. by rewrite Hun. }
  split; [exact Hin|].
  intros g ps sd p (_ & m & _ & _ & -> & _)%Hin (q & -> & _)%list_elem_of_fmap. done.
Qed.

(** X8. GET /games/:name when the store lists a room it does not hold:
    the loop reads [unlisted] of [undefined], the request ends in the
    uncaught [TypeError], whatever the other rooms are. *)
Theorem getRooms_unfetchable listGames ctx s g :
  g ∈ listGames (params_name ctx) s → db s !! g = None →
  getRooms listGames ctx s = (Throw TypeError, s).
Proof. intros Hin Hg. unfold getRooms, bind. by eapply list_rooms_missing. Qed.

(** ** Seats: joining, leaving, coming back *)

(** X9. The slot a join names. In an existing room, a join with a name
    whose [playerID] is an integer [n], given as a number or as its
    decimal numeral, is answered 404 exactly when [n] is not the index of
    a slot of the room. ([n] is within the integers a JavaScript number
    holds exactly, which are printed with all their digits.) *)
Theorem join_finds_the_slot ctx s m (n : Z) :
  Req.playerID (body ctx) = VNum n ∨ Req.playerID (body ctx) = VStr (pretty n) →
  (- 2 ^ 53 < n < 2 ^ 53)%Z →
  JS.truthy (Req.playerName (body ctx)) = true →
  db s !! params_id ctx = Some m →
  (rejects 404 (join lobbyConfig ctx s) s
   ↔ ¬ (0 ≤ n < Z.of_nat (length (players m)))%Z).
Proof.
  intros Hpid Hsmall Hname Hm.
  assert (JS.to_string (Req.playerID (body ctx)) = Some (pretty n)) as Hkey.
  { destruct Hpid as [-> | ->]; [|done]. simpl. by rewrite Number_toString_small. }
  assert (JS.is_nullish (Req.playerID (body ctx)) = false) as Hid.
  { by destruct Hpid as [-> | ->]. }
  assert ((∃ i, i < length (players m) ∧ pretty n = pretty i)
          ↔ (0 ≤ n < Z.of_nat (length (players m)))%Z) as Hslot.
  { split.
    - intros (i & Hlt & Heq). rewrite <- pretty_Z_of_nat in Heq.
      apply (inj pretty) in Heq. lia.
    - intros Hn. exists (Z.to_nat n). split; [lia|].
      rewrite <- pretty_Z_of_nat. f_equal. lia. }
  rewrite <- Hslot. clear Hslot. split.
  - intros [msg Hrej] (i & Hlt & Hi).
    destruct (lookup_lt_is_Some_2 (players m) i Hlt) as [p Hp].
    assert (players_get (players m) (Req.playerID (body ctx)) = Some (i, p)) as Hget.
    { apply players_get_Some. split; [|done]. exists (pretty n).
      split; [done|]. by apply key_index_pretty. }
    destruct (JS.truthy (opt_val (name p))) eqn:Hseated.
    + destruct (join_taken lobbyConfig ctx s m i p Hid Hname Hm Hget Hseated) as [? H].
      congruence.
    + pose proof (join_open lobbyConfig ctx s m i p Hid Hname Hm Hget Hseated) as H.
      simpl in H. congruence.
  - intros Hnone.
    pose proof (join_key lobbyConfig ctx s m Hid Hname Hm) as Hrun.
    rewrite Hkey in Hrun.
    rewrite players_at_None in Hrun; [by eexists| |apply numeral_not_inherited].
    intros (i & Heq & Hi%elem_of_seq)%list_elem_of_fmap.
    apply Hnone. exists i. split; [lia|done].
Qed.

(** X10. Joining and leaving again. A player joins an open slot without a
    payload and then leaves with the credentials the join returned: if
    another slot of the room is seated, the store is back to what it was
    before the join (only a draw of the credential generator is spent);
    if none is, the room is gone. *)
Theorem join_then_leave ctx ctx2 s m i p :
  JS.is_nullish (Req.playerID (body ctx)) = false →
  JS.truthy (Req.playerName (body ctx)) = true →
  JS.truthy (Req.data (body ctx)) = false →
  db s !! params_id ctx = Some m →
  players_get (players m) (Req.playerID (body ctx)) = Some (i, p) →
  name p = None →
  credentials p = None →
  params_id ctx2 = params_id ctx →
  Req.playerID (body ctx2) = Req.playerID (body ctx) →
  ∃ key s1,
    join lobbyConfig ctx s = (Ok key, s1)
    ∧ (Req.credentials (body ctx2) = VStr key →
       leave ctx2 s1
       = (Ok tt,
          mkServer (if existsb seated (players m) then db s
                    else delete (params_id ctx) (db s))
                   (S (ticks s)))).
Proof.
  intros Hid Hname Hdata Hm Hp Hopen Hnocred Hgid Hpid.
  pose proof (join_open lobbyConfig ctx s m i p Hid Hname Hm Hp) as Hjoin.
  rewrite Hopen in Hjoin. specialize (Hjoin eq_refl). simpl in Hjoin.
  rewrite Hdata in Hjoin.
  eexists _, _. split; [exact Hjoin|]. intros Hkey.
  set (p' := mkPlayer (id p) (Some (Req.playerName (body ctx)))
                      (Some (generateCredentials lobbyConfig (ticks s))) (data p)) in *.
  pose proof (proj1 (players_get_Some _ _ _ _) Hp) as [_ Hi].
  rewrite (leave_run ctx2 _ (set_players (<[i := p']> (players m)) m) i p').
  - simpl. rewrite list_insert_insert_eq. rewrite (open_player p) by done.
    rewrite list_insert_id by done. rewrite Hgid.
    replace (set_players (players m) (set_players (<[i:=p']> (players m)) m))
      with m by by destruct m.
    destruct (existsb seated (players m)); [|by rewrite delete_insert_eq].
    by rewrite insert_insert_eq, insert_id.
  - by rewrite Hpid.
  - simpl. rewrite Hgid. apply lookup_insert_eq.
  - simpl. rewrite Hpid. by eapply players_get_insert.
  - rewrite Hkey. simpl. by apply bool_decide_eq_true_2.
Qed.

(** X11. What a vacated slot keeps. When a player leaves a room in which
    somebody else stays, the slot keeps the payload [data] it had, and the
    next player who joins that slot without a payload of their own is
    seated with the payload of the one who left. *)
Theorem vacated_slot_passes_its_payload ctx ctx2 s m i p j q :
  JS.is_nullish (Req.playerID (body ctx)) = false →
  db s !! params_id ctx = Some m →
  players_get (players m) (Req.playerID (body ctx)) = Some (i, p) →
  JS.strict_eq (Req.credentials (body ctx)) (str_val (credentials p)) = true →
  players m !! j = Some q → j ≠ i → seated q = true →
  params_id ctx2 = params_id ctx →
  Req.playerID (body ctx2) = Req.playerID (body ctx) →
  JS.truthy (Req.playerName (body ctx2)) = true →
  JS.truthy (Req.data (body ctx2)) = false →
  ∃ s1 s2 m2,
    leave ctx s = (Ok tt, s1)
    ∧ join lobbyConfig ctx2 s1 = (Ok (generateCredentials lobbyConfig (ticks s)), s2)
    ∧ db s2 !! params_id ctx = Some m2
    ∧ players m2 !! i
      = Some (mkPlayer (id p) (Some (Req.playerName (body ctx2)))
                       (Some (generateCredentials lobbyConfig (ticks s))) (data p)).
Proof.
  intros Hid Hm Hp Hcred Hq Hne Hseated Hgid Hpid Hname Hdata.
  pose proof (leave_run ctx s m i p Hid Hm Hp Hcred) as Hleave. simpl in Hleave.
  pose proof (proj1 (players_get_Some _ _ _ _) Hp) as [_ Hi].
  assert (existsb seated (<[i := mkPlayer (id p) None None (data p)]> (players m)) = true)
    as Hstay.
  { apply existsb_seated. exists q. split; [|done].
    apply (list_elem_of_lookup_2 _ j). by rewrite list_lookup_insert_ne. }
  rewrite Hstay in Hleave.
  eexists _, _, _. split; [exact Hleave|].
  set (p0 := mkPlayer (id p) None None (data p)) in *.
  pose proof (join_open lobbyConfig ctx2
                (mkServer (<[params_id ctx := set_players (<[i := p0]> (players m)) m]>
                             (db s)) (ticks s))
                (set_players (<[i := p0]> (players m)) m) i p0)
    as Hjoin.
  simpl in Hjoin. rewrite Hdata in Hjoin. rewrite Hjoin.
  - split; [done|]. simpl. rewrite Hgid, lookup_insert_eq. split; [done|]. simpl.
    rewrite list_insert_insert_eq. apply list_lookup_insert_eq.
    by apply lookup_lt_Some in Hi.
  - by rewrite Hpid.
  - done.
  - rewrite Hgid. apply lookup_insert_eq.
  - rewrite Hpid. by eapply players_get_insert.
  - done.
Qed.

(** X12. Leaving revokes the credentials. After a seated player has left
    a room in which somebody else stays, the credentials that player held
    are refused with 403 on that slot by leave, playAgain and update,
    whatever else the request carries. *)
Theorem leave_revokes_credentials ctx s m i p key j q :
  JS.is_nullish (Req.playerID (body ctx)) = false →
  db s !! params_id ctx = Some m →
  players_get (players m) (Req.playerID (body ctx)) = Some (i, p) →
  credentials p = Some key →
  Req.credentials (body ctx) = VStr key →
  players m !! j = Some q → j ≠ i → seated q = true →
  ∃ s1,
    leave ctx s = (Ok tt, s1)
    ∧ ∀ ctx2,
        params_id ctx2 = params_id ctx →
        Req.playerID (body ctx2) = Req.playerID (body ctx) →
        Req.credentials (body ctx2) = VStr key →
        rejects 403 (leave ctx2 s1) s1
        ∧ rejects 403 (playAgain games lobbyConfig ctx2 s1) s1
        ∧ rejects 403 (updatePlayerMetadata ctx2 s1) s1.
Proof.
  intros Hid Hm Hp Hkey Hcred Hq Hne Hseated.
  assert (JS.strict_eq (Req.credentials (body ctx)) (str_val (credentials p)) = true)
    as Hok.
  { rewrite Hkey, Hcred. simpl. by apply bool_decide_eq_true_2. }
  pose proof (leave_run ctx s m i p Hid Hm Hp Hok) as Hleave. simpl in Hleave.
  pose proof (proj1 (players_get_Some _ _ _ _) Hp) as [_ Hi].
  assert (existsb seated (<[i := mkPlayer (id p) None None (data p)]> (players m)) = true)
    as Hstay.
  { apply existsb_seated. exists q. split; [|done].
    apply (list_elem_of_lookup_2 _ j). by rewrite list_lookup_insert_ne. }
  rewrite Hstay in Hleave. eexists. split; [exact Hleave|].
  intros ctx2 Hgid Hpid Hcred2.
  set (p0 := mkPlayer (id p) None None (data p)) in *.
  set (m1 := set_players (<[i := p0]> (players m)) m).
  assert (db (mkServer (<[params_id ctx := m1]> (db s)) (ticks s)) !! params_id ctx2
          = Some m1) as Hm1.
  { simpl. rewrite Hgid. apply lookup_insert_eq. }
  assert (players_get (players m1) (Req.playerID (body ctx2)) = Some (i, p0)) as Hp1.
  { simpl. rewrite Hpid. by eapply players_get_insert. }
  assert (JS.strict_eq (Req.credentials (body ctx2)) (str_val (credentials p0)) = false)
    as Hbad.
  { by rewrite Hcred2. }
  assert (JS.to_string (Req.credentials (body ctx2)) = Some key) as Htext.
  { by rewrite Hcred2. }
  split; [by eapply leave_refuses|].
  split; [by eapply playAgain_refuses|by eapply update_refuses].
Qed.

(** X13. Joining and coming back. A player who joined an open slot under
    a name that no slot before it carries can rejoin with that name and
    the credentials the join returned: the rejoin succeeds and changes
    nothing. *)
Theorem join_then_rejoin ctx ctx2 s m i p n :
  JS.is_nullish (Req.playerID (body ctx)) = false →
  Req.playerName (body ctx) = VStr n → n ≠ "" →
  db s !! params_id ctx = Some m →
  players_get (players m) (Req.playerID (body ctx)) = Some (i, p) →
  JS.truthy (opt_val (name p)) = false →
  (∀ j q, players m !! j = Some q → j < i → name q ≠ Some (VStr n)) →
  params_id ctx2 = params_id ctx →
  Req.playerName (body ctx2) = VStr n →
  ∃ key s1,
    join lobbyConfig ctx s = (Ok key, s1)
    ∧ (Req.credentials (body ctx2) = VStr key → RejoinGame ctx2 s1 = (Ok true, s1)).
Proof.
  intros Hid Hname Hn Hm Hp Hopen Hfirst Hgid Hname2.
  assert (JS.truthy (Req.playerName (body ctx)) = true) as Htruthy.
  { rewrite Hname. by apply truthy_VStr. }
  pose proof (join_open lobbyConfig ctx s m i p Hid Htruthy Hm Hp Hopen) as Hjoin.
  simpl in Hjoin. eexists _, _. split; [exact Hjoin|]. intros Hkey.
  pose proof (proj1 (players_get_Some _ _ _ _) Hp) as [_ Hi].
  pose proof (lookup_lt_Some _ _ _ Hi) as Hlt.
  match type of Hjoin with _ = (_, mkServer (<[_ := set_players (<[_ := ?q]> _) _]> _) _) =>
    set (p' := q) in * end.
  unfold RejoinGame. run_handler. rewrite Hname2. simpl.
  rewrite (bool_decide_eq_false_2 (n = "")) by done. simpl.
  rewrite Hgid, lookup_insert_eq. simpl.
  assert (list_find (λ q, JS.strict_eq (opt_val (name q)) (VStr n) = true)
                    (<[i := p']> (players m)) = Some (i, p')) as ->.
  { apply list_find_Some. split; [by apply list_lookup_insert_eq|]. split.
    - unfold p'. simpl. rewrite Hname. simpl. by apply bool_decide_eq_true_2.
    - intros j q Hq Hji. rewrite list_lookup_insert_ne in Hq by lia.
      specialize (Hfirst j q Hq Hji). destruct (name q) as [[]|]; simpl; try done.
      intros Heq%bool_decide_eq_true_1. congruence. }
  simpl. rewrite Hkey. unfold p'. simpl. rewrite bool_decide_eq_true_2 by done. simpl.
  by rewrite insert_insert_eq.
Qed.

(** X14. A rejoin never changes the state, whatever it answers; it
    answers [rejoined: true] exactly when the request has a name, the
    room exists, and the credentials are those of the first slot that
    carries the name. *)
Theorem RejoinGame_only_reads ctx s :
  ∃ r, RejoinGame ctx s = (r, s)
       ∧ (r = Ok true ↔
          JS.truthy (Req.playerName (body ctx)) = true
          ∧ ∃ m i p,
              db s !! params_id ctx = Some m
              ∧ players m !! i = Some p
              ∧ JS.strict_eq (opt_val (name p)) (Req.playerName (body ctx)) = true
              ∧ (∀ j q, players m !! j = Some q → j < i →
                   JS.strict_eq (opt_val (name q)) (Req.playerName (body ctx)) = false)
              ∧ JS.strict_eq (Req.credentials (body ctx)) (str_val (credentials p))
                = true).
Proof.
  unfold RejoinGame. run_handler.
  destruct (JS.truthy (Req.playerName _)) eqn:Hname; simpl;
    [|eexists; split; [done|]; split; [done|by intros [? _]]].
  destruct (db s !! params_id ctx) as [m|] eqn:Hm; simpl;
    [|eexists; split; [done|]; split; [done|by intros (_ & ? & ? & ? & ? & _)]].
  destruct (list_find _ _) as [[i p]|] eqn:Hfind; simpl.
  - apply list_find_Some in Hfind as (Hi & Hp & Hfirst).
    destruct (JS.strict_eq (Req.credentials _) _) eqn:Hcred; simpl.
    + eexists. split; [by rewrite store_same|]. split; [|done]. intros _.
      split; [done|]. exists m, i, p. do 3 (split; [done|]). split; [|done].
      intros j q Hq Hlt. specialize (Hfirst j q Hq Hlt). by apply not_true_is_false.
    + exists (Throw (invalid_credentials (Req.credentials (body ctx)))).
      unfold invalid_credentials.
      split; [by destruct (JS.to_string (Req.credentials _))|].
      split; [done|].
      intros (_ & m' & i' & p' & [= <-] & Hi' & Hp' & Hfirst' & Hcred').
      destruct (Nat.lt_trichotomy i i') as [Hlt|[->|Hlt]].
      * specialize (Hfirst' i p Hi Hlt). congruence.
      * congruence.
      * specialize (Hfirst i' p' Hi' Hlt). congruence.
  - apply list_find_None in Hfind. eexists. split; [done|]. split; [done|].
    intros (_ & m' & i' & p' & [= <-] & Hi' & Hp' & _).
    rewrite Forall_forall in Hfind. destruct (Hfind p'); [|done].
    by eapply list_elem_of_lookup_2.
Qed.

(** X15. Two players under one name. The rejoin looks the player up by
    name and stops at the first slot that carries it: a player seated at a
    later slot under the same name, whose credentials are not those of an
    earlier namesake, is refused with 403 even with their own valid
    credentials. *)
Theorem rejoin_refuses_the_second_namesake ctx s m i p j q key :
  db s !! params_id ctx = Some m →
  JS.truthy (Req.playerName (body ctx)) = true →
  players m !! i = Some p → players m !! j = Some q → i < j →
  JS.strict_eq (opt_val (name p)) (Req.playerName (body ctx)) = true →
  JS.strict_eq (opt_val (name q)) (Req.playerName (body ctx)) = true →
  credentials q = Some key →
  (∀ k r, players m !! k = Some r → k ≤ i →
     JS.strict_eq (opt_val (name r)) (Req.playerName (body ctx)) = true →
     credentials r ≠ Some key) →
  Req.credentials (body ctx) = VStr key →
  RejoinGame ctx s = (Throw (invalid_credentials (VStr key)), s).
Proof.
  intros Hm Hname Hp Hq Hlt Hnp Hnq Hkey Hdiff Hcred.
  destruct (list_find (λ r, JS.strict_eq (opt_val (name r)) (Req.playerName (body ctx))
                            = true) (players m)) as [[k r]|] eqn:Hfind.
  - pose proof Hfind as (Hk & Hr & Hfirst)%list_find_Some.
    assert (k ≤ i) as Hle.
    { destruct (decide (k ≤ i)); [done|]. destruct (Hfirst i p Hp); [lia|done]. }
    rewrite <- Hcred. apply (rejoin_mismatch ctx s m k r Hm Hfind); [|done].
    rewrite Hcred. specialize (Hdiff k r Hk Hle Hr).
    destruct (credentials r) as [c|]; [|done]. simpl.
    apply bool_decide_eq_false_2. congruence.
  - apply list_find_None in Hfind. rewrite Forall_forall in Hfind.
    destruct (Hfind p); [|done]. by eapply list_elem_of_lookup_2.
Qed.

(** X16. The update request. Its body is validated before the room is
    looked up: no [playerID], neither [newName] nor [data], or a
    [newName] that is not a string are answered 403 whether the room
    exists or not. A valid request with the credentials of the slot
    replaces the name when [newName] is given and the whole payload when
    [data] is truthy, and touches neither the id nor the credentials of
    the slot, nor any other slot; with no [newName] and a falsy [data]
    ([null], [false], 0) it succeeds and leaves the state as it was. *)
Theorem update_contract ctx s :
  (JS.is_undefined (Req.playerID (body ctx)) = true →
   updatePlayerMetadata ctx s = (Throw (HttpError 403 "playerID is required"), s))
  ∧ (JS.is_undefined (Req.playerID (body ctx)) = false →
     JS.is_undefined (Req.data (body ctx)) = true →
     JS.truthy (Req.newName (body ctx)) = false →
     updatePlayerMetadata ctx s
     = (Throw (HttpError 403 "newName or data is required"), s))
  ∧ (JS.is_undefined (Req.playerID (body ctx)) = false →
     JS.truthy (Req.newName (body ctx)) = true →
     JS.is_string (Req.newName (body ctx)) = false →
     updatePlayerMetadata ctx s
     = (Throw (HttpError 403 ("newName must be a string, got "
                              +:+ JS.typeof (Req.newName (body ctx)))), s))
  ∧ (∀ m i p,
       JS.is_undefined (Req.playerID (body ctx)) = false →
       JS.is_undefined (Req.data (body ctx)) && negb (JS.truthy (Req.newName (body ctx)))
         = false →
       JS.truthy (Req.newName (body ctx)) && negb (JS.is_string (Req.newName (body ctx)))
         = false →
       db s !! params_id ctx = Some m →
       players_get (players m) (Req.playerID (body ctx)) = Some (i, p) →
       JS.strict_eq (Req.credentials (body ctx)) (str_val (credentials p)) = true →
       let p' := mkPlayer (id p)
                   (if JS.truthy (Req.newName (body ctx))
                    then Some (Req.newName (body ctx)) else name p)
                   (credentials p)
                   (if JS.truthy (Req.data (body ctx))
                    then Some (Req.data (body ctx)) else data p) in
       updatePlayerMetadata ctx s
       = (Ok tt,
          mkServer (<[params_id ctx := set_players (<[i := p']> (players m)) m]> (db s))
                   (ticks s))
       ∧ (JS.truthy (Req.newName (body ctx)) = false →
          JS.truthy (Req.data (body ctx)) = false →
          updatePlayerMetadata ctx s = (Ok tt, s))).
Proof.
  split; [|split; [|split; [|]]].
  - intros H. unfold updatePlayerMetadata. run_handler. by rewrite H.
  - intros H1 H2 H3. unfold updatePlayerMetadata. run_handler. by rewrite H1, H2, H3.
  - intros H1 H2 H3. unfold updatePlayerMetadata. run_handler. rewrite H1, H2, H3.
    simpl. by rewrite andb_false_r.
  - intros m i p H1 H2 H3 Hm Hp Hcred p'.
    assert (updatePlayerMetadata ctx s
            = (Ok tt,
               mkServer (<[params_id ctx := set_players (<[i := p']> (players m)) m]>
                           (db s)) (ticks s))) as Hrun.
    { destruct (players_at_own _ _ _ _ Hp) as (key & Hkey & Hat).
      unfold updatePlayerMetadata. run_handler. rewrite H1. simpl. rewrite H2. simpl.
      rewrite H3. simpl. rewrite Hm. simpl. rewrite Hkey. simpl. rewrite Hat. simpl.
      rewrite Hcred. simpl. unfold p'.
      by destruct p, (JS.truthy (Req.newName _)), (JS.truthy (Req.data _)). }
    split; [exact Hrun|]. intros Hn Hd. rewrite Hrun. unfold p'. rewrite Hn, Hd.
    apply players_get_Some in Hp as [_ Hi].
    replace (mkPlayer (id p) (name p) (credentials p) (data p)) with p by by destruct p.
    rewrite list_insert_id by done.
    replace (set_players (players m) m) with m by by destruct m.
    by rewrite store_same.
Qed.

(** X17. The successor room. A first playAgain request with the
    credentials of a slot, for a known game and without [numPlayers],
    answers the fresh id and stores two records: under the fresh id a
    room of the game named in the path with as many open slots as the
    old room has slots, the [setupData] of the request or else that of the
    old room, and no successor; under the old id the old record with
    [nextRoomID] set to the fresh id and nothing else changed. *)
Theorem playAgain_creates_successor ctx s m i p game :
  JS.is_nullish (Req.playerID (body ctx)) = false →
  db s !! params_id ctx = Some m →
  players_get (players m) (Req.playerID (body ctx)) = Some (i, p) →
  JS.strict_eq (Req.credentials (body ctx)) (str_val (credentials p)) = true →
  nextRoomID m = None →
  find_game games (params_name ctx) = Some game →
  Req.numPlayers (body ctx) = VUndefined →
  let next := uuid lobbyConfig (ticks s) in
  let sd := JS.or_else (Req.setupData (body ctx)) (opt_val (setupData m)) in
  playAgain games lobbyConfig ctx s
  = (Ok next,
     mkServer
       (<[params_id ctx := set_nextRoomID (Some next) m]>
          (<[next := mkMetadata (params_name ctx) (JS.truthy (Req.unlisted (body ctx)))
                       (open_slots (length (players m)))
                       (if JS.is_undefined sd then None else Some sd) None]> (db s)))
       (S (ticks s))).
Proof.
  intros Hid Hm Hp Hcred Hnext Hgame Hnum next sd.
  pose proof (find_game_Some _ _ Hgame) as [Hname _].
  pose proof (proj1 (players_get_Some _ _ _ _) Hp) as [_ Hi].
  apply lookup_lt_Some in Hi.
  destruct (players_at_own _ _ _ _ Hp) as (key & Hkey & Hat).
  unfold playAgain. run_handler. rewrite Hid. simpl. rewrite Hm. simpl.
  rewrite Hkey. simpl. rewrite Hat. simpl.
  rewrite Hcred. simpl. rewrite Hnext.
  unfold fresh_room, CreateGame. run_handler. rewrite Hnum.
  change (parseInt VUndefined) with (Some VNaN). simpl. rewrite Hgame. simpl.
  unfold Object_keys. rewrite length_fmap, length_seq.
  destruct (Z.eqb_spec (Z.of_nat (length (players m))) 0) as [|_]; [lia|]. simpl.
  rewrite Nat2Z.id, Hname. fold sd. by destruct (JS.is_undefined sd).
Qed.

(** X18. An unknown game name in the path. The create request checks the
    name and answers 404, once it has read [numPlayers] (a [numPlayers]
    that does not convert to a string ends it in the uncaught
    [TypeError] before that); the playAgain request does not check the
    name: with valid credentials and no successor recorded, it reads
    [name] of [undefined], ends in the uncaught [TypeError], and persists
    nothing. *)
Theorem playAgain_unknown_game ctx s m i p :
  JS.is_nullish (Req.playerID (body ctx)) = false →
  db s !! params_id ctx = Some m →
  players_get (players m) (Req.playerID (body ctx)) = Some (i, p) →
  JS.strict_eq (Req.credentials (body ctx)) (str_val (credentials p)) = true →
  nextRoomID m = None →
  params_name ctx ∉ game_name <$> games →
  playAgain games lobbyConfig ctx s = (Throw TypeError, s)
  ∧ create games lobbyConfig ctx s
    = (Throw (match JS.to_string (Req.numPlayers (body ctx)) with
              | Some _ => HttpError 404 ("Game " +:+ params_name ctx +:+ " not found")
              | None => TypeError
              end), s).
Proof.
  intros Hid Hm Hp Hcred Hnext Hgame%find_game_None. split.
  - destruct (players_at_own _ _ _ _ Hp) as (key & Hkey & Hat).
    unfold playAgain. run_handler. rewrite Hid. simpl. rewrite Hm. simpl.
    rewrite Hkey. simpl. rewrite Hat. simpl.
    rewrite Hcred. simpl. rewrite Hnext.
    unfold fresh_room. run_handler.
    destruct (parseInt (Req.numPlayers (body ctx))); simpl; [|done].
    by rewrite Hgame.
  - unfold create, parseInt. run_handler.
    destruct (JS.to_string (Req.numPlayers (body ctx))); simpl; [|done].
    by rewrite Hgame.
Qed.

(** X27. A successor without credentials. The playAgain request looks for
    the slot through [players[playerID]] and compares the credentials of
    the request with those of what it finds. A [playerID] that names a
    member of [Object.prototype] finds that member, which has no
    [credentials]: a request without credentials then passes the check,
    whatever the slots of the room hold, and creates the successor room
    as a request with the credentials of a slot does. *)
Theorem playAgain_through_an_inherited_key ctx s m key game :
  db s !! params_id ctx = Some m →
  players m ≠ [] →
  JS.to_string (Req.playerID (body ctx)) = Some key →
  key ∈ Object_prototype →
  Req.credentials (body ctx) = VUndefined →
  nextRoomID m = None →
  find_game games (params_name ctx) = Some game →
  Req.numPlayers (body ctx) = VUndefined →
  let next := uuid lobbyConfig (ticks s) in
  let sd := JS.or_else (Req.setupData (body ctx)) (opt_val (setupData m)) in
  playAgain games lobbyConfig ctx s
  = (Ok next,
     mkServer
       (<[params_id ctx := set_nextRoomID (Some next) m]>
          (<[next := mkMetadata (params_name ctx) (JS.truthy (Req.unlisted (body ctx)))
                       (open_slots (length (players m)))
                       (if JS.is_undefined sd then None else Some sd) None]> (db s)))
       (S (ticks s))).
Proof.
  intros Hm Hslots Hkey Hproto Hcred Hnext Hgame Hnum next sd.
  pose proof (find_game_Some _ _ Hgame) as [Hname _].
  assert (JS.is_nullish (Req.playerID (body ctx)) = false) as Hid.
  { destruct (Req.playerID (body ctx)); try done; injection Hkey as <-;
      apply (bool_decide_eq_true_2 _) in Hproto; by vm_compute in Hproto. }
  unfold playAgain. run_handler. rewrite Hid. simpl. rewrite Hm. simpl.
  rewrite Hkey. simpl. rewrite (players_at_Inherited _ _ Hproto). simpl.
  rewrite Hcred. simpl. rewrite Hnext.
  unfold fresh_room, CreateGame. run_handler. rewrite Hnum.
  change (parseInt VUndefined) with (Some VNaN). simpl. rewrite Hgame. simpl.
  unfold Object_keys. rewrite length_fmap, length_seq.
  destruct (Z.eqb_spec (Z.of_nat (length (players m))) 0) as [Hz|_].
  { destruct (players m); [done|simpl in Hz; lia]. }
  simpl. rewrite Nat2Z.id, Hname. fold sd. by destruct (JS.is_undefined sd).
Qed.

End More.

(** ** Team formation at the edges *)

(** What the scan returns when it returns. *)
Lemma scan_players_Some ps ids playerArray adminArray pa aa :
  scan_players ps ids playerArray adminArray = Some (pa, aa) →
  pa = playerArray ++ filter (λ i, flag_at "player" ps i = true) ids
  ∧ aa = adminArray ++ filter (λ i, flag_at "admin" ps i = true) ids.
Proof.
  revert playerArray adminArray. induction ids as [|id ids IH];
    intros playerArray adminArray; simpl.
  { intros [= <- <-]. by rewrite !app_nil_r. }
  unfold player_data. simpl.
  destruct (ps !! id) as [p|] eqn:Hp; simpl; [|done].
  destruct (JS.get_prop (opt_val (data p)) "player") as [vp|] eqn:Hvp; simpl; [|done].
  destruct (JS.get_prop (opt_val (data p)) "admin") as [va|] eqn:Hva; simpl; [|done].
  intros [-> ->]%IH. rewrite !filter_flag_cons.
  unfold flag_at. rewrite Hp, Hvp, Hva.
  destruct (JS.truthy vp), (JS.truthy va); by rewrite <- ?app_assoc.
Qed.

Lemma form_teams_scan m t m' teams :
  form_teams m t = Some (m', teams) →
  scan_players (players m) (seq 0 (length (players m))) [] []
  = Some (player_slots (players m),
          filter (λ i, flag_at "admin" (players m) i = true)
                 (seq 0 (length (players m)))).
Proof.
  unfold form_teams.
  destruct (scan_players _ _ _ _) as [[pa aa]|] eqn:Hscan; simpl; [|done].
  intros _. by apply scan_players_Some in Hscan as [-> ->].
Qed.

Lemma CreateTeam_run ctx s m t m' teams :
  db s !! params_id ctx = Some m →
  Req.numOfTeams (body ctx) = Some t →
  form_teams m t = Some (m', teams) →
  CreateTeam ctx s = (Ok teams, mkServer (<[params_id ctx := m']> (db s)) (ticks s)).
Proof.
  intros Hm Ht Hform. unfold CreateTeam. run_handler.
  by rewrite Ht; simpl; rewrite Hm; simpl; rewrite Hform.
Qed.

(** X19. More teams than players. In an existing room, a number of teams
    greater than the number of player-flagged slots makes the handler end
    in the uncaught [TypeError] (the first team has no first member to
    crown), with nothing persisted; so does any positive number of teams
    in a room without a player-flagged slot. *)
Theorem CreateTeam_more_teams_than_players ctx s m t :
  db s !! params_id ctx = Some m →
  Req.numOfTeams (body ctx) = Some t →
  (Z.of_nat (length (player_slots (players m))) < t)%Z →
  CreateTeam ctx s = (Throw TypeError, s).
Proof.
  intros Hm Ht Hlt. unfold CreateTeam. run_handler. rewrite Ht. simpl. rewrite Hm. simpl.
  assert (form_teams m t = None) as ->; [|done].
  unfold form_teams.
  destruct (scan_players _ _ _ _) as [[pa aa]|] eqn:Hscan; simpl; [|done].
  apply scan_players_Some in Hscan as [-> ->]. simpl. fold (player_slots (players m)).
  unfold quotient. rewrite Z.div_small by lia.
  destruct (Z.to_nat t) as [|r] eqn:Hr; [lia|]. done.
Qed.

Lemma distribute_no_teams rounds team_no ps c :
  distribute (S rounds) team_no ps c [] = None.
Proof.
  simpl. destruct (skip_admin ps c) as [[ps1 c1]|]; simpl; [|done].
  by destruct (assign_team _ _ _).
Qed.

(** X20. No team to form. With [numOfTeams] zero or negative the handler
    never forms a team: when it succeeds, it answers the empty list of
    teams and the slots of the stored room are what they were. *)
Theorem CreateTeam_without_teams ctx s t teams s' :
  Req.numOfTeams (body ctx) = Some t → (t ≤ 0)%Z →
  CreateTeam ctx s = (Ok teams, s') →
  teams = []
  ∧ ∃ m m', db s !! params_id ctx = Some m
            ∧ s' = mkServer (<[params_id ctx := m']> (db s)) (ticks s)
            ∧ players m' = players m.
Proof.
  intros Ht Hle. unfold CreateTeam. run_handler. rewrite Ht. simpl.
  destruct (db s !! params_id ctx) as [m|] eqn:Hm; simpl; [|done].
  destruct (form_teams m t) as [[m' teams']|] eqn:Hform; simpl; [|done].
  intros [= <- <-].
  assert (teams' = [] ∧ players m' = players m) as [-> Hps];
    [|split; [done|]; by exists m, m'].
  revert Hform. unfold form_teams.
  destruct (scan_players _ _ _ _) as [[pa aa]|]; simpl; [|done].
  replace (Z.to_nat t) with 0 by lia. simpl.
  destruct (negb _).
  - destruct (JS.loop_count _) as [|rounds]; [|by rewrite distribute_no_teams].
    simpl. destruct (JS.truthy _); simpl.
    + destruct (record_teams _ _ _ _ _); simpl; [|done]. by intros [= <- <-].
    + by intros [= <- <-].
  - simpl. destruct (JS.truthy _); simpl.
    + destruct (record_teams _ _ _ _ _); simpl; [|done]. by intros [= <- <-].
    + by intros [= <- <-].
Qed.

(** ** What [CreateTeam] records in [setupData] *)

Lemma fill_team_lists rounds team_no ps c tmp tp ps' c' tmp' tp' :
  fill_team rounds team_no ps c tmp tp = Some (ps', c', tmp', tp') →
  ∃ xs, tmp' = tmp ++ xs ∧ tp' = tp ++ (pretty <$> xs).
Proof.
  revert ps c tmp tp. induction rounds as [|rounds IH]; intros ps c tmp tp; simpl.
  { intros [= _ _ <- <-]. exists []. by rewrite !app_nil_r. }
  destruct (skip_admin ps c) as [[ps1 c1]|]; simpl; [|done].
  destruct (assign_team _ _ _) as [ps2|]; simpl; [|done].
  destruct c1 as [i|]; simpl; [|done].
  intros (xs & -> & ->)%IH. exists (i :: xs). by rewrite <- !app_assoc.
Qed.

Lemma fill_teams_leaders rounds team_no base ps c teams leaders ps' c' teams' leaders' :
  fill_teams rounds team_no base ps c teams leaders = Some (ps', c', teams', leaders') →
  first_members teams = Some <$> leaders →
  first_members teams' = Some <$> leaders'.
Proof.
  revert team_no ps c teams leaders.
  induction rounds as [|rounds IH]; intros team_no ps c teams leaders; simpl.
  { by intros [= _ _ <- <-]. }
  destruct (fill_team _ _ _ _ _ _) as [[[[ps1 c1] tmp] tp]|] eqn:Hfill; simpl; [|done].
  apply fill_team_lists in Hfill as (xs & -> & ->). simpl.
  destruct (write_data ps1 _ _) as [ps2|]; simpl; [|done].
  destruct (write_data ps2 _ _) as [ps3|]; simpl; [|done].
  destruct xs as [|i xs]; simpl; [done|].
  intros H Hheads. eapply IH; [exact H|].
  unfold first_members in *. by rewrite !fmap_app, Hheads.
Qed.

Lemma distribute_leaders rounds team_no ps c teams ps' c' teams' leaders :
  distribute rounds team_no ps c teams = Some (ps', c', teams') →
  first_members teams = Some <$> leaders →
  first_members teams' = Some <$> leaders.
Proof.
  revert team_no ps c teams.
  induction rounds as [|rounds IH]; intros team_no ps c teams; simpl.
  { by intros [= _ _ <-]. }
  destruct (skip_admin ps c) as [[ps1 c1]|]; simpl; [|done].
  destruct (assign_team _ _ _) as [ps2|]; simpl; [|done].
  destruct (list_find _ _) as [[j team]|] eqn:Hfind; simpl; [|done].
  destruct c1 as [i|]; simpl; [|done].
  intros H Hheads. eapply IH; [exact H|].
  apply list_find_Some in Hfind as (Hj & _ & _).
  unfold first_members in *. rewrite list_fmap_insert. simpl.
  assert (head (playersID team) = head (playersID team ++ [pretty i])) as <-.
  { assert (is_Some (head (playersID team))) as [l Hl].
    { assert ((Some <$> leaders) !! j = Some (head (playersID team))) as Hl.
      { by rewrite <- Hheads, list_lookup_fmap, Hj. }
      rewrite list_lookup_fmap in Hl. destruct (leaders !! j); simplify_eq/=. by eexists. }
    destruct (playersID team); simplify_eq/=. done. }
  rewrite list_insert_id; [done|]. by rewrite list_lookup_fmap, Hj.
Qed.

Lemma record_teams_reads sd teams adminArray playerArray leaders sd' :
  record_teams sd teams adminArray playerArray leaders = Some sd' →
  JS.get_prop sd' "teams" = Some (VArr (team_val <$> teams) [])
  ∧ JS.get_prop sd' "adminsID" = Some (keys_val adminArray)
  ∧ JS.get_prop sd' "playersID" = Some (keys_val playerArray)
  ∧ JS.get_prop sd' "leadersID" = Some (strings_val leaders)
  ∧ ∀ k, k ∉ ["teams"; "adminsID"; "playersID"; "leadersID"] →
         JS.get_prop sd' k = JS.get_prop sd k.
Proof.
  unfold record_teams.
  destruct (JS.set_prop sd _ _) as [sd1|] eqn:H1; simpl; [|done].
  destruct (JS.set_prop sd1 _ _) as [sd2|] eqn:H2; simpl; [|done].
  destruct (JS.set_prop sd2 _ _) as [sd3|] eqn:H3; simpl; [|done].
  intros H4.
  pose proof (λ k' Hne, get_prop_set_ne _ _ k' _ _ Hne H1) as R1.
  pose proof (λ k' Hne, get_prop_set_ne _ _ k' _ _ Hne H2) as R2.
  pose proof (λ k' Hne, get_prop_set_ne _ _ k' _ _ Hne H3) as R3.
  pose proof (λ k' Hne, get_prop_set_ne _ _ k' _ _ Hne H4) as R4.
  split; [|split; [|split; [|split]]].
  - rewrite R4, R3, R2 by done. by eapply get_prop_set_eq.
  - rewrite R4, R3 by done. by eapply get_prop_set_eq.
  - rewrite R4 by done. by eapply get_prop_set_eq.
  - by eapply get_prop_set_eq.
  - intros k Hk. rewrite !not_elem_of_cons in Hk. destruct Hk as (?&?&?&?&_).
    by rewrite R4, R3, R2, R1.
Qed.

(** X21. What a successful [CreateTeam] records. A room without
    [setupData] (or with a falsy one) keeps it as it is. In a room with
    [setupData], the stored [setupData] has for [teams] the teams of the
    answer, for [playersID] and [adminsID] the keys of the slots flagged
    player and admin before the request, in slot order, for [leadersID]
    the first member of each team, in team order, and every other
    property as before. *)
Theorem CreateTeam_records ctx s teams s' :
  CreateTeam ctx s = (Ok teams, s') →
  ∃ m m',
    db s !! params_id ctx = Some m
    ∧ s' = mkServer (<[params_id ctx := m']> (db s)) (ticks s)
    ∧ (JS.truthy (opt_val (setupData m)) = false → setupData m' = setupData m)
    ∧ (JS.truthy (opt_val (setupData m)) = true →
       ∃ sd sd' leaders,
         setupData m = Some sd
         ∧ setupData m' = Some sd'
         ∧ JS.get_prop sd' "teams" = Some (VArr (team_val <$> teams) [])
         ∧ JS.get_prop sd' "adminsID"
           = Some (keys_val (filter (λ i, flag_at "admin" (players m) i = true)
                                    (seq 0 (length (players m)))))
         ∧ JS.get_prop sd' "playersID" = Some (keys_val (player_slots (players m)))
         ∧ JS.get_prop sd' "leadersID" = Some (strings_val leaders)
         ∧ first_members teams = Some <$> leaders
         ∧ ∀ k, k ∉ ["teams"; "adminsID"; "playersID"; "leadersID"] →
                JS.get_prop sd' k = JS.get_prop sd k).
Proof.
  unfold CreateTeam. run_handler.
  destruct (Req.numOfTeams _) as [t|]; simpl; [|done].
  destruct (db s !! params_id ctx) as [m|] eqn:Hm; simpl; [|done].
  destruct (form_teams m t) as [[m' teams']|] eqn:Hform; simpl; [|done].
  intros [= <- <-]. exists m, m'. do 2 (split; [done|]).
  pose proof (form_teams_scan _ _ _ _ Hform) as Hscan.
  revert Hform. unfold form_teams. rewrite Hscan. simpl.
  destruct (fill_teams _ _ _ _ _ _ _) as [[[[ps1 c1] teams1] leaders]|] eqn:Hfill;
    simpl; [|done].
  apply fill_teams_leaders in Hfill; [|done].
  destruct (if negb _ then _ else _) as [[[ps2 c2] teams2]|] eqn:Hdist; simpl; [|done].
  assert (first_members teams2 = Some <$> leaders) as Hheads.
  { destruct (negb _); [|by injection Hdist as _ _ <-].
    by eapply distribute_leaders. }
  destruct (JS.truthy (opt_val (setupData m))) eqn:Htruthy; simpl.
  - destruct (record_teams _ _ _ _ _) as [sd'|] eqn:Hrec; simpl; [|done].
    intros [= <- <-]. split; [done|]. intros _.
    destruct (setupData m) as [sd|]; [|done]. simpl in Hrec.
    apply record_teams_reads in Hrec as (? & ? & ? & ? & ?).
    by exists sd, sd', leaders.
  - intros [= <- <-]. by split.
Qed.

(** ** The teams as blocks of the player slots *)

Lemma block_lookup base (css : list (list nat)) rs j cs :
  Forall (λ cs, length cs = base) css →
  css !! j = Some cs →
  take base (drop (j * base) (concat css ++ rs)) = cs.
Proof.
  revert j. induction css as [|c css IH]; intros j Hall Hj; [done|].
  apply Forall_cons in Hall as [Hc Hall]. destruct j as [|j]; simpl in Hj.
  - injection Hj as ->. change (0 * base) with 0. rewrite drop_0. simpl.
    by rewrite <- app_assoc, take_app_length'.
  - change (S j * base) with (base + j * base). simpl.
    rewrite <- app_assoc, drop_app_add' by done. by apply IH.
Qed.

Lemma concat_length_blocks base (css : list (list nat)) :
  Forall (λ cs, length cs = base) css → length (concat css) = length css * base.
Proof.
  induction 1 as [|c css Hc _ IH]; simpl; [done|]. rewrite length_app. lia.
Qed.

(** X22. Which slots go to which team. Under the conditions of C1, with
    [E] the player-flagged slots in slot order, [n] their number and [t]
    the number of teams, the answer is the list of the teams "0" ..
    "t-1" in which team [j] has the [n / t] slots of [E] from position
    [j * (n / t)] on, in that order, followed, when [j < n mod t], by the
    slot of [E] at position [t * (n / t) + j]: low slots fill team 0
    first, and the slots left over go one each to the first teams. *)
Theorem CreateTeam_deals_blocks ctx s m (t : nat) :
  db s !! params_id ctx = Some m →
  Req.numOfTeams (body ctx) = Some (Z.of_nat t) →
  walkable (players m) = true →
  (JS.truthy (opt_val (setupData m)) = true →
   JS.is_object (opt_val (setupData m)) = true) →
  1 ≤ t ≤ length (player_slots (players m)) →
  ∃ s',
    CreateTeam ctx s
    = (Ok ((λ j, mkTeam (pretty j)
                   (pretty <$> team_slots (player_slots (players m)) t j))
           <$> seq 0 t), s').
Proof.
  intros Hm Ht Hwalk Hsd Hrange.
  destruct (form_teams_spec m t Hwalk Hsd Hrange)
    as (m' & css & rs & Hform & HE & Hlen & Hall & Hrs & _).
  eexists. erewrite CreateTeam_run by done. f_equal. f_equal.
  set (E := player_slots (players m)) in *.
  set (base := length E / t) in *.
  assert (length (concat css) = t * base) as Hcat.
  { by rewrite (concat_length_blocks base), Hlen. }
  apply list_eq. intros j.
  rewrite append_each_lookup, mk_teams_lookup, list_lookup_fmap. simpl.
  destruct (decide (j < t)) as [Hj|Hj].
  - rewrite lookup_seq_lt by done. simpl.
    destruct (lookup_lt_is_Some_2 css j) as [cs Hcs]; [lia|]. rewrite Hcs. simpl.
    unfold team_slots. fold E base.
    rewrite HE at 1. rewrite (block_lookup base css rs j cs Hall Hcs).
    destruct (decide (j < length E mod t)) as [Hr|Hr].
    + destruct (lookup_lt_is_Some_2 rs j) as [e He]; [lia|]. rewrite He. simpl.
      rewrite HE, drop_app_add' by done.
      rewrite (drop_S _ _ _ He). simpl. by rewrite take_0, fmap_app.
    + rewrite lookup_ge_None_2 by lia. by rewrite app_nil_r.
  - rewrite lookup_seq_ge by lia. simpl.
    by rewrite (lookup_ge_None_2 css j) by lia.
Qed.

(** ** The team requests write payloads only *)

Lemma bare_insert (ps : list PlayerMetadata) (i : nat) p d :
  ps !! i = Some p →
  set_data None <$> <[i := set_data (Some d) p]> ps = set_data None <$> ps.
Proof.
  intros Hp. rewrite list_fmap_insert.
  apply list_insert_id. by rewrite list_lookup_fmap, Hp.
Qed.

Lemma write_data_bare ps c f ps' :
  write_data ps c f = Some ps' → set_data None <$> ps' = set_data None <$> ps.
Proof.
  unfold write_data. destruct c as [i|]; simpl; [|done].
  destruct (ps !! i) as [p|] eqn:Hp; simpl; [|done].
  destruct (f _) as [d|]; simpl; [|done]. intros [= <-].
  by apply bare_insert.
Qed.

Lemma skip_admin_bare ps c ps' c' :
  skip_admin ps c = Some (ps', c') → set_data None <$> ps' = set_data None <$> ps.
Proof.
  unfold skip_admin. destruct (player_data ps c); simpl; [|done].
  destruct (JS.get_prop _ _) as [v|]; simpl; [|done].
  destruct (JS.truthy v); [|by intros [= <- _]].
  destruct (write_data _ _ _) as [ps1|] eqn:Hw; simpl; [|done].
  intros [= <- _]. by eapply write_data_bare.
Qed.

Lemma assign_team_bare team_no ps c ps' :
  assign_team team_no ps c = Some ps' → set_data None <$> ps' = set_data None <$> ps.
Proof.
  unfold assign_team. destruct (write_data _ _ _) as [ps1|] eqn:Hw1; simpl; [|done].
  intros Hw2%write_data_bare. rewrite Hw2. by eapply write_data_bare.
Qed.

Lemma fill_team_bare rounds team_no ps c tmp tp ps' c' tmp' tp' :
  fill_team rounds team_no ps c tmp tp = Some (ps', c', tmp', tp') →
  set_data None <$> ps' = set_data None <$> ps.
Proof.
  revert ps c tmp tp. induction rounds as [|rounds IH]; intros ps c tmp tp; simpl.
  { by intros [= <- _ _ _]. }
  destruct (skip_admin ps c) as [[ps1 c1]|] eqn:Hskip; simpl; [|done].
  destruct (assign_team _ _ _) as [ps2|] eqn:Hassign; simpl; [|done].
  destruct c1 as [i|]; simpl; [|done].
  intros H%IH. rewrite H.
  rewrite (assign_team_bare _ _ _ _ Hassign). by eapply skip_admin_bare.
Qed.

Lemma fill_teams_bare rounds team_no base ps c teams leaders r :
  fill_teams rounds team_no base ps c teams leaders = Some r →
  set_data None <$> r.1.1.1 = set_data None <$> ps.
Proof.
  revert team_no ps c teams leaders.
  induction rounds as [|rounds IH]; intros team_no ps c teams leaders; simpl.
  { by intros [= <-]. }
  destruct (fill_team _ _ _ _ _ _) as [[[[ps1 c1] tmp] tp]|] eqn:Hfill; simpl; [|done].
  destruct (write_data ps1 _ _) as [ps2|] eqn:Hw1; simpl; [|done].
  destruct (write_data ps2 _ _) as [ps3|] eqn:Hw2; simpl; [|done].
  destruct (head tmp) as [i|]; simpl; [|done].
  intros H%IH. rewrite H.
  rewrite (write_data_bare _ _ _ _ Hw2), (write_data_bare _ _ _ _ Hw1).
  by eapply fill_team_bare.
Qed.

Lemma distribute_bare rounds team_no ps c teams r :
  distribute rounds team_no ps c teams = Some r →
  set_data None <$> r.1.1 = set_data None <$> ps.
Proof.
  revert team_no ps c teams.
  induction rounds as [|rounds IH]; intros team_no ps c teams; simpl.
  { by intros [= <-]. }
  destruct (skip_admin ps c) as [[ps1 c1]|] eqn:Hskip; simpl; [|done].
  destruct (assign_team _ _ _) as [ps2|] eqn:Hassign; simpl; [|done].
  destruct (list_find _ _) as [[j team]|]; simpl; [|done].
  destruct c1 as [i|]; simpl; [|done].
  intros H%IH. rewrite H.
  rewrite (assign_team_bare _ _ _ _ Hassign). by eapply skip_admin_bare.
Qed.

Lemma form_teams_without_data m t m' teams :
  form_teams m t = Some (m', teams) → without_data m' = without_data m.
Proof.
  unfold form_teams, without_data.
  destruct (scan_players _ _ _ _) as [[playerArray adminArray]|]; simpl; [|done].
  destruct (fill_teams _ _ _ _ _ _ _) as [[[[ps1 c1] teams1] leaders]|] eqn:Hfill;
    simpl; [|done].
  apply fill_teams_bare in Hfill. simpl in Hfill.
  destruct (if negb _ then _ else _) as [[[ps2 c2] teams2]|] eqn:Hdist; simpl; [|done].
  assert (set_data None <$> ps2 = set_data None <$> ps1) as Hps2.
  { destruct (negb _); [|by injection Hdist as <- _ _].
    by apply distribute_bare in Hdist. }
  destruct (JS.truthy _); simpl.
  - destruct (record_teams _ _ _ _ _); simpl; [|done].
    intros [= <- _]. unfold set_setupData, set_players. simpl. congruence.
  - intros [= <- _]. unfold set_setupData, set_players. simpl. congruence.
Qed.

Lemma rotate_without_data m random old others m' report :
  rotate m random old others = Some (m', report) → without_data m' = without_data m.
Proof.
  unfold rotate, without_data.
  destruct (write_data _ _ _) as [ps1|] eqn:H1; simpl; [|done].
  destruct (write_data ps1 _ _) as [ps2|] eqn:H2; simpl; [|done].
  destruct (write_data ps2 _ _) as [ps3|] eqn:H3; simpl; [|done].
  destruct (write_data ps3 _ _) as [ps4|] eqn:H4; simpl; [|done].
  destruct (others !! _); simpl; [|done]. destruct old; simpl; [|done].
  destruct (setupData m); simpl; [|done].
  destruct (JS.get_prop _ _); simpl; [|done].
  destruct (replace_leader _ _ _); simpl; [|done].
  destruct (JS.set_prop _ _ _); simpl; [|done].
  destruct (ps4 !! _); simpl; [|done]. intros [= <- _].
  unfold set_setupData, set_players. simpl.
  rewrite (write_data_bare _ _ _ _ H4), (write_data_bare _ _ _ _ H3).
  by rewrite (write_data_bare _ _ _ _ H2), (write_data_bare _ _ _ _ H1).
Qed.

(** X23. The two team requests write payloads only. A successful
    [CreateTeam] or a successful rotation stores, for the room of the
    request and no other, a record that differs from the old one in
    [setupData] and in the [data] of players at most: the game, the
    listing flag, the successor, the number of slots and the id, name and
    credentials of every slot are what they were. A rotation on a team
    with nobody to promote changes nothing at all. *)
Theorem team_requests_write_payloads_only random ctx s :
  (∀ teams s', CreateTeam ctx s = (Ok teams, s') →
     ∃ m m', db s !! params_id ctx = Some m
             ∧ s' = mkServer (<[params_id ctx := m']> (db s)) (ticks s)
             ∧ without_data m' = without_data m)
  ∧ (∀ report s', UpdateLeader random ctx s = (Ok report, s') →
       match report with
       | None => s' = s
       | Some _ =>
           ∃ m m', db s !! params_id ctx = Some m
                   ∧ s' = mkServer (<[params_id ctx := m']> (db s)) (ticks s)
                   ∧ without_data m' = without_data m
       end).
Proof.
  split.
  - intros teams s'. unfold CreateTeam. run_handler.
    destruct (Req.numOfTeams _) as [t|]; simpl; [|done].
    destruct (db s !! params_id ctx) as [m|] eqn:Hm; simpl; [|done].
    destruct (form_teams m t) as [[m' teams']|] eqn:Hform; simpl; [|done].
    intros [= <- <-]. exists m, m'. do 2 (split; [done|]).
    by eapply form_teams_without_data.
  - intros report s'. unfold UpdateLeader, bind, fetch, required, ret, throw.
    destruct (params_team ctx) as [tid|]; simpl; [|done].
    destruct (db s !! params_id ctx) as [m|] eqn:Hm; simpl; [|done].
    destruct (check_team_pure m tid s) as [r ->].
    destruct r; [|done|done]. unfold must.
    destruct (classify _ _ _ _ _) as [[old others]|]; simpl; [|done].
    destruct (bool_decide _); simpl; [|by intros [= <- <-]].
    destruct (rotate _ _ _ _) as [[m' rep]|] eqn:Hrot; simpl; [|done].
    unfold setMetadata. intros [= <- <-]. exists m, m'. do 2 (split; [done|]).
    by eapply rotate_without_data.
Qed.

(** ** Rotation: what it needs and what it can draw *)

Lemma rotate_needs_setupData m random old others :
  JS.truthy (opt_val (setupData m)) = false → rotate m random old others = None.
Proof.
  intros Hsd. unfold rotate.
  destruct (write_data _ _ _) as [ps1|]; simpl; [|done].
  destruct (write_data ps1 _ _) as [ps2|]; simpl; [|done].
  destruct (write_data ps2 _ _) as [ps3|]; simpl; [|done].
  destruct (write_data ps3 _ _) as [ps4|]; simpl; [|done].
  destruct (others !! _); simpl; [|done]. destruct old; simpl; [|done].
  destruct (setupData m) as [sd|]; simpl; [|done]. simpl in Hsd.
  destruct sd; simpl in Hsd; try done.
Qed.

(** X24. Rotation in a room without [setupData]. [CreateTeam] forms teams
    in such a room, but the rotation can never give one of them a new
    leader: whatever the team and the draw, the request changes nothing
    and answers with an error or with no report. *)
Theorem UpdateLeader_needs_setupData random ctx s m :
  db s !! params_id ctx = Some m →
  JS.truthy (opt_val (setupData m)) = false →
  ∃ r, UpdateLeader random ctx s = (r, s) ∧ ∀ report, r ≠ Ok (Some report).
Proof.
  intros Hm Hsd. unfold UpdateLeader, bind, fetch, required, ret, throw.
  destruct (params_team ctx) as [tid|]; simpl; [|by eexists].
  rewrite Hm. simpl.
  destruct (check_team_pure m tid s) as [r ->].
  destruct r; [|by eexists|by eexists]. unfold must.
  destruct (classify _ _ _ _ _) as [[old others]|]; simpl; [|by eexists].
  destruct (bool_decide _); simpl; [|by eexists].
  rewrite rotate_needs_setupData by done. by eexists.
Qed.

(** X25. Every other member can be drawn. For a recorded team with
    exactly one leader, each of its other members is the new leader for
    some draw of [Math.random]; the report then names that member, by key
    and by name, and carries the leader list with the old leader replaced
    by it. *)
Theorem UpdateLeader_can_pick_any_member ctx s m tid sd ts ex team old ls lex e :
  db s !! params_id ctx = Some m →
  params_team ctx = Some tid →
  setupData m = Some sd →
  JS.truthy sd = true →
  JS.get_prop sd "teams" = Some (VArr ts ex) →
  find_team ts tid = Some (Some team) →
  (∀ i p, players m !! i = Some p → is_Some (role tid (opt_val (data p)))) →
  members tid true (players m) = [old] →
  JS.get_prop sd "leadersID" = Some (VArr ls lex) →
  e ∈ members tid false (players m) →
  ∃ random report s' pe,
    players m !! e = Some pe
    ∧ UpdateLeader random ctx s = (Ok (Some report), s')
    ∧ playerID_newLeader report = pretty e
    ∧ playerName_newLeader report = opt_val (name pe)
    ∧ new_leadersID report
      = VArr (replace_first (VStr (pretty old)) (VStr (pretty e)) ls) lex.
Proof.
  intros Hm Htid Hsd Htruthy Hteams Hfind Hread Hleaders Hls He.
  pose proof (check_team_found m tid sd ts ex team s Hsd Htruthy Hteams Hfind) as Hcheck.
  pose proof (classify_members (players m) tid Hread) as Hclass.
  pose proof He as [random Hdraw]%list_elem_of_lookup_1.
  pose proof (lookup_lt_Some _ _ _ Hdraw) as Hlt.
  pose proof (UpdateLeader_run random ctx s m tid _ _ Hm Htid Hcheck Hclass) as Hrun.
  rewrite Hleaders in Hrun. simpl in Hrun.
  destruct (members tid false (players m)) as [|x others] eqn:Ho; [simpl in Hlt; lia|].
  assert (old ∈ members tid true (players m)) as Hold.
  { rewrite Hleaders. by left. }
  assert (e ∈ members tid false (players m)) as He' by (by rewrite Ho).
  pose proof He' as Hrn. pose proof Hold as Hro.
  apply elem_of_members in Hrn, Hro.
  assert (e ≠ old) as Hne by (intros ->; congruence).
  destruct (role_at_Some _ _ _ _ Hrn) as (pn & Hpn & Hrn').
  destruct (role_at_Some _ _ _ _ Hro) as (po & Hpo & Hro').
  assert ((x :: others) !! (random mod length (x :: others)) = Some e) as Hdraw'.
  { by rewrite Nat.mod_small. }
  destruct (rotate_run m random tid old (x :: others) e pn po sd ls lex
              Hdraw' Hpn Hpo Hne Hrn' Hro' Hsd Hls)
    as (dn & dold & sd' & _ & _ & _ & _ & _ & Hrot).
  cbv zeta in Hrot. rewrite Hrot in Hrun.
  eexists random, _, _, pn. split; [done|]. split; [exact Hrun|]. done.
Qed.

(** ** The further properties at concrete rooms *)

Lemma failed_request_changes_nothing_witness :
  let e := PostJoin (Demo.ctx (Demo.join_body 5 "A" VUndefined)) in
  snd (route Demo.games Demo.lobby (λ _ _, []) e (Demo.room 2)) = Demo.room 2.
Proof.
  intros e.
  apply (failed_request_changes_nothing Demo.games Demo.lobby (λ _ _, []) e
           (Demo.room 2) (HttpError 404 "Player 5 not found")).
  vm_compute. reflexivity.
Defined.

Lemma missing_room_is_refused_witness :
  let e := PostLeave (Demo.ctx (Demo.auth_body 0 (VStr "key1"))) in
  ∃ status message,
    (status = 403 ∨ status = 404)
    ∧ route Demo.games Demo.lobby (λ _ _, []) e Demo.start
      = (Throw (HttpError status message), Demo.start).
Proof.
  intros e.
  apply (missing_room_is_refused Demo.games Demo.lobby (λ _ _, []) e Demo.start "room0");
    reflexivity.
Defined.

Lemma request_checks_the_secret_witness :
  let e := GetRoom (Demo.ctx Req.empty) in
  let serve := request Demo.games Demo.lobby (λ _ _, []) in
  let reach := route Demo.games Demo.lobby (λ _ _, []) e pair_room in
  serve None VUndefined e pair_room = reach
  ∧ serve (Some "s3cret") (VStr "s3cret") e pair_room = reach
  ∧ serve (Some "s3cret") (VStr "guess") e pair_room
    = (Throw (HttpError 403 "Invalid API secret"), pair_room).
Proof.
  intros e serve reach. split; [|split].
  - destruct (request_checks_the_secret Demo.games Demo.lobby (λ _ _, []) None
                VUndefined e pair_room) as [H _].
    apply H. by left.
  - destruct (request_checks_the_secret Demo.games Demo.lobby (λ _ _, [])
                (Some "s3cret") (VStr "s3cret") e pair_room) as [_ H].
    destruct (H "s3cret" eq_refl) as [Hok _]; [discriminate|]. by apply Hok.
  - destruct (request_checks_the_secret Demo.games Demo.lobby (λ _ _, [])
                (Some "s3cret") (VStr "guess") e pair_room) as [_ H].
    destruct (H "s3cret" eq_refl) as [_ Hbad]; [discriminate|].
    apply Hbad. discriminate.
Defined.

Lemma create_knows_the_listed_games_witness :
  let unreadable :=
    Req.mkBody VUndefined VUndefined VUndefined VUndefined VUndefined
               VUndefined VUndefined (VObj [("toString", VNum 1)]) None in
  (∃ m, create Demo.games Demo.lobby (Demo.ctx Req.empty) Demo.start
        = (Ok "room0", mkServer (<["room0" := m]> ∅) 1)
        ∧ gameName m = "tic-tac-toe")
  ∧ create Demo.games Demo.lobby (mkCtx "chess" "room0" None Req.empty) Demo.start
    = (Throw (HttpError 404 "Game chess not found"), Demo.start)
  ∧ create Demo.games Demo.lobby (Demo.ctx unreadable) Demo.start
    = (Throw TypeError, Demo.start).
Proof.
  intros unreadable. split; [|split].
  - destruct (create_knows_the_listed_games Demo.games Demo.lobby
                (Demo.ctx Req.empty) Demo.start) as (names & Hnames & _ & Hread).
    injection Hnames as <-.
    destruct (Hread (ex_intro _ "undefined" eq_refl)) as [_ Hin].
    apply Hin. simpl. by left.
  - destruct (create_knows_the_listed_games Demo.games Demo.lobby
                (mkCtx "chess" "room0" None Req.empty) Demo.start)
      as (names & Hnames & _ & Hread).
    injection Hnames as <-.
    destruct (Hread (ex_intro _ "undefined" eq_refl)) as [Hout _].
    apply Hout. simpl.
    intros H. apply list_elem_of_singleton in H. discriminate.
  - destruct (create_knows_the_listed_games Demo.games Demo.lobby
                (Demo.ctx unreadable) Demo.start) as (names & _ & Hthrow & _).
    by apply Hthrow.
Defined.

Lemma create_room_witness :
  let ctx := Demo.ctx (Req.mkBody VUndefined VUndefined VUndefined VUndefined
                         VUndefined VUndefined VUndefined (VStr "3") None) in
  let s1 := mkServer
              (<["room0" := mkMetadata "tic-tac-toe" false (open_slots 3) None None]> ∅)
              1 in
  create Demo.games Demo.lobby ctx Demo.start = (Ok "room0", s1)
  ∧ getRoom (Demo.ctx Req.empty) s1 = (Ok ("room0", open_slots 3, None), s1).
Proof.
  intros ctx s1.
  destruct (create_room Demo.games Demo.lobby ctx Demo.start (mkGame "tic-tac-toe") 3)
    as [Hcreate Hget];
    [reflexivity | left; split; [lia | split; [lia | right; vm_compute; reflexivity]] |].
  split; [exact Hcreate|]. exact (Hget (Demo.ctx Req.empty) eq_refl).
Defined.

Lemma getRoom_hides_credentials_witness :
  ∃ ps,
    getRoom (Demo.ctx Req.empty) pair_room
    = (Ok ("room0", ps, Some (VObj [])), pair_room)
    ∧ length ps = 2
    ∧ ps !! 0 = Some (mkPlayer 0 (Some (VStr "A")) None (Some Demo.player)).
Proof.
  edestruct (getRoom_hides_credentials (Demo.ctx Req.empty) pair_room)
    as (ps & Hrun & Hlen & Hslots); [vm_compute; reflexivity|].
  exists ps. split; [exact Hrun|]. split; [exact Hlen|].
  apply (Hslots 0 (mkPlayer 0 (Some (VStr "A")) (Some "key1") (Some Demo.player))).
  reflexivity.
Defined.

Lemma getRooms_lists_public_rooms_witness :
  ∃ rooms,
    getRooms (λ _ _, ["room0"]) (Demo.ctx Req.empty) pair_room = (Ok rooms, pair_room)
    ∧ length rooms = 1
    ∧ ∀ g ps sd p, (g, ps, sd) ∈ rooms → p ∈ ps → credentials p = None.
Proof.
  destruct (getRooms_lists_public_rooms (λ _ _, ["room0"]) (Demo.ctx Req.empty)
              pair_room) as (rooms & Hrun & Heq & _ & Hcred).
  { intros g Hg. apply list_elem_of_singleton in Hg. subst g. vm_compute. eauto. }
  exists rooms. split; [exact Hrun|]. split; [|exact Hcred].
  rewrite Heq. vm_compute. reflexivity.
Defined.

Lemma getRooms_unfetchable_witness :
  getRooms (λ _ _, ["room0"; "ghost"]) (Demo.ctx Req.empty) pair_room
  = (Throw TypeError, pair_room).
Proof.
  apply (getRooms_unfetchable (λ _ _, ["room0"; "ghost"]) (Demo.ctx Req.empty)
           pair_room "ghost").
  - simpl. right. left.
  - vm_compute. reflexivity.
Defined.

Lemma join_finds_the_slot_witness :
  rejects 404 (join Demo.lobby (Demo.ctx (Demo.join_body 5 "A" VUndefined)) (Demo.room 2))
          (Demo.room 2)
  ∧ ¬ rejects 404 (join Demo.lobby (Demo.ctx (Demo.join_body 1 "A" VUndefined))
                     (Demo.room 2))
              (Demo.room 2).
Proof.
  split.
  - edestruct (join_finds_the_slot Demo.lobby (Demo.ctx (Demo.join_body 5 "A" VUndefined))
                 (Demo.room 2)) with (n := 5%Z) as [_ H];
      [by left | lia | reflexivity | vm_compute; reflexivity |].
    apply H. simpl. lia.
  - edestruct (join_finds_the_slot Demo.lobby (Demo.ctx (Demo.join_body 1 "A" VUndefined))
                 (Demo.room 2)) with (n := 1%Z) as [H _];
      [by left | lia | reflexivity | vm_compute; reflexivity |].
    intros Hrej. apply H in Hrej. simpl in Hrej. lia.
Defined.

Lemma join_then_leave_witness :
  let s := Demo.seat [("A", Demo.player)] 0 (Demo.room 2) in
  let ctx := Demo.ctx (Demo.join_body 1 "B" VUndefined) in
  let ctx2 := Demo.ctx (Demo.auth_body 1 (VStr "key2")) in
  ∃ key s1,
    join Demo.lobby ctx s = (Ok key, s1)
    ∧ leave ctx2 s1 = (Ok tt, mkServer (db s) 3).
Proof.
  intros s ctx ctx2.
  edestruct (join_then_leave Demo.lobby ctx ctx2 s) as (key & s1 & Hjoin & Hleave);
    [reflexivity | reflexivity | reflexivity | vm_compute; reflexivity
    | vm_compute; reflexivity | reflexivity | reflexivity | reflexivity | reflexivity |].
  exists key, s1. split; [exact Hjoin|].
  pose proof Hjoin as Hkey. vm_compute in Hkey. injection Hkey as <- _.
  by apply Hleave.
Defined.

Lemma vacated_slot_passes_its_payload_witness :
  let ctx := Demo.ctx (Demo.auth_body 1 (VStr "key2")) in
  let ctx2 := Demo.ctx (Demo.join_body 1 "C" VUndefined) in
  ∃ s1 s2 m2,
    leave ctx pair_room = (Ok tt, s1)
    ∧ join Demo.lobby ctx2 s1 = (Ok "key3", s2)
    ∧ db s2 !! "room0" = Some m2
    ∧ players m2 !! 1
      = Some (mkPlayer 1 (Some (VStr "C")) (Some "key3") (Some Demo.player)).
Proof.
  intros ctx ctx2.
  edestruct (vacated_slot_passes_its_payload Demo.lobby ctx ctx2 pair_room)
    with (j := 0) as (s1 & s2 & m2 & H1 & H2 & H3 & H4);
    [reflexivity | vm_compute; reflexivity | vm_compute; reflexivity
    | vm_compute; reflexivity | vm_compute; reflexivity | discriminate
    | reflexivity | reflexivity | reflexivity | reflexivity | reflexivity |].
  exists s1, s2, m2. split; [exact H1|]. split; [exact H2|]. split; [exact H3|exact H4].
Defined.

Lemma leave_revokes_credentials_witness :
  let ctx := Demo.ctx (Demo.auth_body 1 (VStr "key2")) in
  ∃ s1,
    leave ctx pair_room = (Ok tt, s1)
    ∧ rejects 403 (leave ctx s1) s1
    ∧ rejects 403 (playAgain Demo.games Demo.lobby ctx s1) s1
    ∧ rejects 403 (updatePlayerMetadata ctx s1) s1.
Proof.
  intros ctx.
  edestruct (leave_revokes_credentials Demo.games Demo.lobby ctx pair_room)
    with (j := 0) as (s1 & Hleave & Hrest);
    [reflexivity | vm_compute; reflexivity | vm_compute; reflexivity
    | reflexivity | reflexivity | vm_compute; reflexivity | discriminate
    | reflexivity |].
  exists s1. split; [exact Hleave|]. exact (Hrest ctx eq_refl eq_refl eq_refl).
Defined.

Lemma join_then_rejoin_witness :
  let ctx := Demo.ctx (Demo.join_body 0 "A" VUndefined) in
  let ctx2 := Demo.ctx (Demo.rejoin_body "A" (VStr "key1")) in
  ∃ key s1,
    join Demo.lobby ctx (Demo.room 2) = (Ok key, s1)
    ∧ RejoinGame ctx2 s1 = (Ok true, s1).
Proof.
  intros ctx ctx2.
  edestruct (join_then_rejoin Demo.lobby ctx ctx2 (Demo.room 2)) with (n := "A")
    as (key & s1 & Hjoin & Hrejoin);
    [reflexivity | reflexivity | discriminate | vm_compute; reflexivity
    | vm_compute; reflexivity | reflexivity | intros j q _ Hlt; lia
    | reflexivity | reflexivity |].
  exists key, s1. split; [exact Hjoin|].
  pose proof Hjoin as Hkey. vm_compute in Hkey. injection Hkey as <- _.
  by apply Hrejoin.
Defined.

Lemma rejoin_refuses_the_second_namesake_witness :
  RejoinGame (Demo.ctx (Demo.rejoin_body "A" (VStr "key2"))) namesakes
  = (Throw (invalid_credentials (VStr "key2")), namesakes).
Proof.
  eapply (rejoin_refuses_the_second_namesake
            (Demo.ctx (Demo.rejoin_body "A" (VStr "key2"))) namesakes _ 0 _ 1 _ "key2");
    [vm_compute; reflexivity | reflexivity | vm_compute; reflexivity
    | vm_compute; reflexivity | lia | reflexivity | reflexivity | reflexivity
    | | reflexivity].
  intros k r Hk Hle _. assert (k = 0) as -> by lia.
  vm_compute in Hk. injection Hk as <-. discriminate.
Defined.

Lemma update_contract_witness :
  (∃ s' m p,
     updatePlayerMetadata
       (Demo.ctx (Demo.update_body 0 (VStr "key1") (VStr "Ann") VUndefined)) pair_room
     = (Ok tt, s')
     ∧ db s' !! "room0" = Some m
     ∧ players m !! 0 = Some p
     ∧ name p = Some (VStr "Ann")
     ∧ credentials p = Some "key1"
     ∧ data p = Some Demo.player)
  ∧ updatePlayerMetadata
      (Demo.ctx (Demo.update_body 0 (VStr "key1") (VNum 7) VUndefined)) pair_room
    = (Throw (HttpError 403 "newName must be a string, got number"), pair_room)
  ∧ updatePlayerMetadata
      (Demo.ctx (Demo.update_body 0 (VStr "key1") VUndefined VNull)) pair_room
    = (Ok tt, pair_room).
Proof.
  split; [|split].
  - destruct (update_contract
                (Demo.ctx (Demo.update_body 0 (VStr "key1") (VStr "Ann") VUndefined))
                pair_room) as (_ & _ & _ & Hok).
    edestruct Hok as [Hrun _];
      [reflexivity | reflexivity | reflexivity | vm_compute; reflexivity
      | vm_compute; reflexivity | reflexivity |].
    eexists _, _, _. split; [exact Hrun|].
    split; [apply lookup_insert_eq|]. split; [reflexivity|]. by repeat split.
  - destruct (update_contract
                (Demo.ctx (Demo.update_body 0 (VStr "key1") (VNum 7) VUndefined))
                pair_room) as (_ & _ & Hbad & _).
    by apply Hbad.
  - destruct (update_contract
                (Demo.ctx (Demo.update_body 0 (VStr "key1") VUndefined VNull))
                pair_room) as (_ & _ & _ & Hok).
    edestruct Hok as [_ Hnoop];
      [reflexivity | reflexivity | reflexivity | vm_compute; reflexivity
      | vm_compute; reflexivity | reflexivity |].
    by apply Hnoop.
Defined.

Lemma playAgain_creates_successor_witness :
  let ctx := Demo.ctx (Demo.auth_body 0 (VStr "key1")) in
  ∃ m,
    db pair_room !! "room0" = Some m
    ∧ playAgain Demo.games Demo.lobby ctx pair_room
      = (Ok "room3",
         mkServer
           (<["room0" := set_nextRoomID (Some "room3") m]>
              (<["room3" := mkMetadata "tic-tac-toe" false (open_slots 2)
                              (Some (VObj [])) None]> (db pair_room)))
           4).
Proof.
  intros ctx.
  set (pA := mkPlayer 0 (Some (VStr "A")) (Some "key1") (Some Demo.player)).
  set (pB := mkPlayer 1 (Some (VStr "B")) (Some "key2") (Some Demo.player)).
  exists (mkMetadata "tic-tac-toe" false [pA; pB] (Some (VObj [])) None).
  split; [vm_compute; reflexivity|]. etrans.
  { apply (playAgain_creates_successor Demo.games Demo.lobby ctx pair_room
             (mkMetadata "tic-tac-toe" false [pA; pB] (Some (VObj [])) None) 0 pA
             (mkGame "tic-tac-toe"));
      [reflexivity | vm_compute; reflexivity | vm_compute; reflexivity
      | reflexivity | reflexivity | reflexivity | reflexivity]. }
  vm_compute. reflexivity.
Defined.

Lemma playAgain_through_an_inherited_key_witness :
  let ctx :=
    Demo.ctx (Req.mkBody (VStr "constructor") VUndefined VUndefined VUndefined
                         VUndefined VUndefined VUndefined VUndefined None) in
  ∃ m,
    db pair_room !! "room0" = Some m
    ∧ credentials <$> players m = [Some "key1"; Some "key2"]
    ∧ playAgain Demo.games Demo.lobby ctx pair_room
      = (Ok "room3",
         mkServer
           (<["room0" := set_nextRoomID (Some "room3") m]>
              (<["room3" := mkMetadata "tic-tac-toe" false (open_slots 2)
                              (Some (VObj [])) None]> (db pair_room)))
           4).
Proof.
  intros ctx.
  set (pA := mkPlayer 0 (Some (VStr "A")) (Some "key1") (Some Demo.player)).
  set (pB := mkPlayer 1 (Some (VStr "B")) (Some "key2") (Some Demo.player)).
  exists (mkMetadata "tic-tac-toe" false [pA; pB] (Some (VObj [])) None).
  split; [vm_compute; reflexivity|]. split; [reflexivity|]. etrans.
  { apply (playAgain_through_an_inherited_key Demo.games Demo.lobby ctx pair_room
             (mkMetadata "tic-tac-toe" false [pA; pB] (Some (VObj [])) None)
             "constructor" (mkGame "tic-tac-toe"));
      [vm_compute; reflexivity | discriminate | reflexivity
      | apply (bool_decide_unpack _); vm_compute; exact I
      | reflexivity | reflexivity | reflexivity | reflexivity]. }
  vm_compute. reflexivity.
Defined.

Lemma playAgain_unknown_game_witness :
  let ctx := mkCtx "chess" "room0" None (Demo.auth_body 0 (VStr "key1")) in
  playAgain Demo.games Demo.lobby ctx pair_room = (Throw TypeError, pair_room)
  ∧ create Demo.games Demo.lobby ctx pair_room
    = (Throw (HttpError 404 "Game chess not found"), pair_room).
Proof.
  intros ctx.
  eapply (playAgain_unknown_game Demo.games Demo.lobby ctx pair_room _ 0);
    [reflexivity | vm_compute; reflexivity | vm_compute; reflexivity
    | reflexivity | reflexivity |].
  simpl. intros H. apply list_elem_of_singleton in H. discriminate.
Defined.

Lemma CreateTeam_more_teams_than_players_witness :
  CreateTeam (Demo.ctx (Demo.teams_body 3)) pair_room = (Throw TypeError, pair_room).
Proof.
  eapply (CreateTeam_more_teams_than_players (Demo.ctx (Demo.teams_body 3)) pair_room
            _ 3);
    [vm_compute; reflexivity | reflexivity | vm_compute; reflexivity].
Defined.

Lemma CreateTeam_without_teams_witness :
  let ctx := Demo.ctx (Demo.teams_body 0) in
  fst (CreateTeam ctx pair_room) = Ok []
  ∧ ∃ m m',
      db pair_room !! "room0" = Some m
      ∧ snd (CreateTeam ctx pair_room)
        = mkServer (<["room0" := m']> (db pair_room)) (ticks pair_room)
      ∧ players m' = players m.
Proof.
  intros ctx. split; [vm_compute; reflexivity|].
  destruct (CreateTeam_without_teams ctx pair_room 0 [] (snd (CreateTeam ctx pair_room)))
    as [_ H]; [reflexivity | lia | vm_compute; reflexivity |].
  exact H.
Defined.

Lemma CreateTeam_records_witness :
  ∃ m' sd',
    db one_team !! "room0" = Some m'
    ∧ setupData m' = Some sd'
    ∧ JS.get_prop sd' "teams"
      = Some (VArr [team_val (mkTeam "0" ["0"; "1"; "2"])] [])
    ∧ JS.get_prop sd' "playersID" = Some (keys_val [0; 1; 2])
    ∧ JS.get_prop sd' "adminsID" = Some (keys_val [])
    ∧ JS.get_prop sd' "leadersID" = Some (strings_val ["0"]).
Proof.
  destruct (CreateTeam_records (Demo.ctx (Demo.teams_body 1)) trio
              [mkTeam "0" ["0"; "1"; "2"]] one_team)
    as (m & m' & Hm & Hs' & _ & Hrec); [vm_compute; reflexivity|].
  vm_compute in Hm. injection Hm as <-.
  destruct Hrec as (sd & sd' & leaders & _ & Hsd' & Hteams & Hadmins & Hplayers
                    & Hleaders & Hfirst & _); [reflexivity|].
  exists m', sd'. split; [rewrite Hs'; apply lookup_insert_eq|].
  split; [exact Hsd'|]. split; [exact Hteams|]. split; [exact Hplayers|].
  split; [exact Hadmins|].
  destruct leaders as [|l [|? ?]];
    [discriminate Hfirst | | discriminate Hfirst].
  injection Hfirst as <-. exact Hleaders.
Defined.

Lemma CreateTeam_deals_blocks_witness :
  ∃ s',
    CreateTeam (Demo.ctx (Demo.teams_body 2)) with_admin
    = (Ok [mkTeam "0" ["0"; "3"]; mkTeam "1" ["2"]], s').
Proof.
  edestruct (CreateTeam_deals_blocks (Demo.ctx (Demo.teams_body 2)) with_admin)
    with (t := 2) as (s' & H);
    [vm_compute; reflexivity | reflexivity | vm_compute; reflexivity
    | intros _; vm_compute; reflexivity | vm_compute; lia |].
  exists s'. etrans; [exact H|]. vm_compute. reflexivity.
Defined.

Lemma team_requests_write_payloads_only_witness :
  ∃ m m',
    db trio !! "room0" = Some m
    ∧ one_team = mkServer (<["room0" := m']> (db trio)) (ticks trio)
    ∧ without_data m' = without_data m.
Proof.
  destruct (team_requests_write_payloads_only 0 (Demo.ctx (Demo.teams_body 1)) trio)
    as [H _].
  apply (H [mkTeam "0" ["0"; "1"; "2"]] one_team). vm_compute. reflexivity.
Defined.

Lemma UpdateLeader_needs_setupData_witness :
  ∃ r, UpdateLeader 0 (Demo.on_team "0") bare_team = (r, bare_team)
       ∧ ∀ report, r ≠ Ok (Some report).
Proof.
  eapply (UpdateLeader_needs_setupData 0 (Demo.on_team "0") bare_team);
    [vm_compute; reflexivity | reflexivity].
Defined.

Lemma UpdateLeader_can_pick_any_member_witness :
  ∃ random report s',
    UpdateLeader random (Demo.on_team "0") one_team = (Ok (Some report), s')
    ∧ playerID_newLeader report = "2"
    ∧ playerName_newLeader report = VStr "C".
Proof.
  edestruct (UpdateLeader_can_pick_any_member (Demo.on_team "0") one_team)
    with (old := 0) (e := 2)
    as (random & report & s' & pe & Hpe & Hrun & Hid & Hname & _);
    [vm_compute; reflexivity | reflexivity | reflexivity | reflexivity
    | vm_compute; reflexivity | vm_compute; reflexivity | 
    | vm_compute; reflexivity | vm_compute; reflexivity
    | vm_compute; right; left |].
  { intros i p Hp%list_elem_of_lookup_2.
    repeat (apply elem_of_cons in Hp as [->|Hp]; [vm_compute; eauto|]).
    by apply elem_of_nil in Hp. }
  vm_compute in Hpe. injection Hpe as <-.
  exists random, report, s'. split; [exact Hrun|]. split; [exact Hid|exact Hname].
Defined.
